(** * GithubUtils: the staging-deploy checklist engine

    A shallow embedding of [.github/libs/GithubUtils.js]: the regular
    expressions the module scans ticket bodies with, the parser of the
    StagingDeployCash ticket, the generator of its body, the paginated
    pull-request fetch, the rate-limit handler, the body of a release,
    the listings of comments, reviews, events and artifacts, and the
    getters of the client.

    Strings are lists of 8-bit characters (the body template and GitHub
    URLs are ASCII); numbers are [N] (JavaScript numbers are exact on
    integers below 2^53, which is where issue numbers live). *)

From Stdlib Require Import Ascii String NArith Arith Bool Lia List.
From Stdlib Require Import Sorted Permutation.
Import ListNotations.

Set Implicit Arguments.

Local Open Scope list_scope.

(** ** Strings *)

Definition str := list ascii.

Definition lit (s : string) : str := list_ascii_of_string s.

Definition CR : ascii := ascii_of_nat 13.
Definition LF : ascii := ascii_of_nat 10.
Definition CRLF : str := [CR; LF].

Fixpoint str_eqb (a b : str) : bool :=
  match a, b with
  | [], [] => true
  | x :: a', y :: b' => Ascii.eqb x y && str_eqb a' b'
  | _, _ => false
  end.

(** ** Regular expressions

    The fragment of JavaScript regular expressions the module uses:
    character classes, concatenation, ordered alternation, greedy
    repetition and capture groups.  Matching is the backtracking search of
    the language definition: alternatives are tried left to right, a
    repetition tries one more iteration before it tries to stop. *)

Module Re.

Inductive regex : Type :=
| Eps : regex
| Cls : (ascii -> bool) -> regex
| Cat : regex -> regex -> regex
| Alt : regex -> regex -> regex
| Star : regex -> regex
| Grp : nat -> regex -> regex.

Definition Plus (r : regex) : regex := Cat r (Star r).
Definition Opt (r : regex) : regex := Alt r Eps.

Definition caps := list (nat * str).

Fixpoint cap (i : nat) (c : caps) : option str :=
  match c with
  | [] => None
  | (j, v) :: c' => if Nat.eqb i j then Some v else cap i c'
  end.

Definition orelse {A} (a b : option A) : option A :=
  match a with Some v => Some v | None => b end.

Section Matcher.
Variable A : Type.

Definition cont := str -> caps -> option A.

  (** One more iteration first (it must consume something), then stop. *)
Fixpoint star (step : str -> caps -> cont -> option A)
           (fuel : nat) (s : str) (c : caps) (k : cont) : option A :=
    match fuel with
    | O => k s c
    | S fuel' =>
        orelse
          (step s c (fun s' c' =>
             if Nat.ltb (length s') (length s)
             then star step fuel' s' c' k else None))
          (k s c)
    end.

Fixpoint m (r : regex) (s : str) (c : caps) (k : cont) : option A :=
    match r with
    | Eps => k s c
    | Cls p =>
        match s with
        | x :: s' => if p x then k s' c else None
        | [] => None
        end
    | Cat a b => m a s c (fun s' c' => m b s' c' k)
    | Alt a b => orelse (m a s c k) (m b s c k)
    | Star a => star (m a) (length s) s c k
    | Grp i a =>
        m a s c (fun s' c' =>
          k s' ((i, firstn (length s - length s') s) :: c'))
    end.
End Matcher.

(** A match: the matched text, the captures and the rest of the input. *)
Record result : Type := mkResult { whole : str; groups : caps; rest : str }.

Definition group (i : nat) (r : result) : str :=
  match cap i (groups r) with Some v => v | None => [] end.

(** The match that starts at the head of [s]. *)
Definition exec_at (r : regex) (s : str) : option result :=
  m r s [] (fun s' c' =>
    Some (mkResult (firstn (length s - length s') s) c' s')).

(** [RegExp.prototype.exec] without the sticky flag: the leftmost match. *)
Fixpoint exec (r : regex) (s : str) : option result :=
  match exec_at r s with
  | Some x => Some x
  | None => match s with [] => None | _ :: s' => exec r s' end
  end.

Definition test (r : regex) (s : str) : bool :=
  match exec r s with Some _ => true | None => false end.

(** [String.prototype.matchAll] with a global expression: the successive
    leftmost matches; after an empty match the search moves on by one
    character. *)
Fixpoint matchAll_fuel (fuel : nat) (r : regex) (s : str) : list result :=
  match fuel with
  | O => []
  | S fuel' =>
      match exec r s with
      | None => []
      | Some x =>
          x :: match whole x, rest x with
               | [], [] => []
               | [], _ :: s' => matchAll_fuel fuel' r s'
               | _, s' => matchAll_fuel fuel' r s'
               end
      end
  end.

Definition matchAll (r : regex) (s : str) : list result :=
  matchAll_fuel (S (length s)) r s.

(** *** Character classes *)

Definition chr (a : ascii) : regex := Cls (Ascii.eqb a).

Definition lower (a : ascii) : ascii :=
  let n := nat_of_ascii a in
  if andb (Nat.leb 65 n) (Nat.leb n 90) then ascii_of_nat (n + 32) else a.

(** A letter under the [i] flag. *)
Definition chri (a : ascii) : regex :=
  Cls (fun x => Ascii.eqb (lower x) (lower a)).

Definition is_line_terminator (a : ascii) : bool :=
  Ascii.eqb a LF || Ascii.eqb a CR.

(** [.] matches everything but a line terminator. *)
Definition dotp (a : ascii) : bool := negb (is_line_terminator a).
Definition dot : regex := Cls dotp.

Definition is_digit (a : ascii) : bool :=
  let n := nat_of_ascii a in andb (Nat.leb 48 n) (Nat.leb n 57).
Definition digit : regex := Cls is_digit.

(** [\s]: tab, line feed, vertical tab, form feed, carriage return, space
    and the no-break space. *)
Definition is_space (a : ascii) : bool :=
  let n := nat_of_ascii a in
  (andb (Nat.leb 9 n) (Nat.leb n 13)) || Nat.eqb n 32 || Nat.eqb n 160.
Definition space : regex := Cls is_space.

Fixpoint seq_of (f : ascii -> regex) (s : str) : regex :=
  match s with
  | [] => Eps
  | a :: s' => Cat (f a) (seq_of f s')
  end.

(** A run of literal characters. *)
Definition text (s : string) : regex := seq_of chr (lit s).
Definition texti (s : string) : regex := seq_of chri (lit s).

End Re.

(** ** The JavaScript and underscore helpers the module calls *)

Module Js.

(** [Number.parseInt(s, 10)] on a run of decimal digits whose value is
    below 2^53.  From there on the code rounds the value to the nearest
    number it can hold, which this definition does not do: it is the
    code's function on the numerals of the safe integers only. *)
Definition digit_val (a : ascii) : N := N.of_nat (nat_of_ascii a - 48).

Definition parseInt (s : str) : N :=
  fold_left (fun acc a => (acc * 10 + digit_val a)%N) s 0%N.

(** [s.split('-')[0]]: the text before the first dash. *)
Fixpoint before_dash (s : str) : str :=
  match s with
  | [] => []
  | a :: s' => if Ascii.eqb a "-"%char then [] else a :: before_dash s'
  end.

Fixpoint trim_start (s : str) : str :=
  match s with
  | a :: s' => if Re.is_space a then trim_start s' else s
  | [] => []
  end.

(** [String.prototype.trim]. *)
Definition trim (s : str) : str := rev (trim_start (rev (trim_start s))).

(** [_.contains] on a list of strings. *)
Definition contains (l : list str) (x : str) : bool := existsb (str_eqb x) l.

(** [_.unique]: the first occurrence of each element, in order. *)
Fixpoint unique_acc (seen l : list str) : list str :=
  match l with
  | [] => []
  | x :: l' =>
      if contains seen x then unique_acc seen l'
      else x :: unique_acc (x :: seen) l'
  end.

Definition unique (l : list str) : list str := unique_acc [] l.

(** [_.difference(l, others)]. *)
Definition difference (l others : list str) : list str :=
  filter (fun x => negb (contains others x)) l.

(** [_.union(a, b)]. *)
Definition union (a b : list str) : list str := unique (a ++ b).

Section SortBy.
Variable T : Type.
Variable key : T -> N.

  (** Where [x] goes in a list sorted by [key]: after the elements whose key
      is no larger, so that equal keys keep their order. *)
Fixpoint insert_by (x : T) (l : list T) : list T :=
    match l with
    | [] => [x]
    | y :: l' =>
        if (key y <=? key x)%N then y :: insert_by x l' else x :: y :: l'
    end.

  (** [_.sortBy(l, key)]: ascending by [key]; underscore breaks ties by the
      index in [l], so the order is that of a stable sort. *)
Definition sortBy (l : list T) : list T :=
    fold_left (fun acc x => insert_by x acc) l [].
End SortBy.

(** [_.last]: [undefined] on an empty list. *)
Fixpoint last (T : Type) (l : list T) : option T :=
  match l with
  | [] => None
  | x :: l' => match l' with [] => Some x | _ => last l' end
  end.

(** [Array.prototype.join]. *)
Fixpoint join (sep : str) (l : list str) : str :=
  match l with
  | [] => []
  | x :: l' => match l' with [] => x | _ => x ++ sep ++ join sep l' end
  end.

(** The decimal numeral a template literal prints for an integer below
    2^53; the digits are produced from the last one.  A larger number is
    printed with the digits of the number it was rounded to, and from
    10^21 on with an exponent, which this definition does not do: it is
    the code's function on the safe integers only. *)
Fixpoint numeral (fuel : nat) (n : N) (acc : str) : str :=
  let acc' := ascii_of_N (48 + n mod 10) :: acc in
  match fuel with
  | O => acc'
  | S fuel' => if (n <? 10)%N then acc' else numeral fuel' (n / 10) acc'
  end.

Definition toString (n : N) : str := numeral (N.to_nat (N.log2 n)) n [].

End Js.

(** ** GithubUtils *)

Module GithubUtils.
Import Re.

Notation "a ;; b" := (Cat a b) (at level 61, right associativity).

(** *** The URL expressions

    A capture group is numbered by the position of its parenthesis in the
    expression it ends up in, so the source of an expression takes the
    number of its group. *)

Definition GITHUB_BASE_URL_SOURCE : regex :=
  text "http" ;; Opt (chr "s") ;; text "://" ;;
  Alt (text "github.com") (text "api.github.com").

Definition numbered_url_source (kind : regex) (g : nat) : regex :=
  GITHUB_BASE_URL_SOURCE ;; chr "/" ;; Star dot ;; chr "/" ;; Star dot ;;
  chr "/" ;; kind ;; chr "/" ;; Grp g (Plus digit) ;; Star dot.

Definition PULL_REQUEST_SOURCE : nat -> regex :=
  numbered_url_source (text "pull").
Definition ISSUE_SOURCE : nat -> regex :=
  numbered_url_source (text "issues").
Definition ISSUE_OR_PULL_REQUEST_SOURCE : nat -> regex :=
  numbered_url_source (Alt (text "pull") (text "issues")).

Definition PULL_REQUEST_REGEX : regex := PULL_REQUEST_SOURCE 1.
Definition ISSUE_REGEX : regex := ISSUE_SOURCE 1.
Definition ISSUE_OR_PULL_REQUEST_REGEX : regex := ISSUE_OR_PULL_REQUEST_SOURCE 1.

(** *** Data *)

Record Error : Type := mkError { message : str; code : option N }.

Record Label : Type := mkLabel { name : str }.

Record User : Type := mkUser { login : str }.

(** A pull request as the listing returns it. *)
Record PullRequest : Type := mkPullRequest {
  number : N;
  html_url : str;
  title : str;
  labels : list Label;
  merged_by : option User
}.

Record Issue : Type := mkIssue {
  issue_title : str;
  issue_url : str;
  issue_labels : list Label;
  body : str
}.

Record PRItem : Type := mkPRItem {
  pr_url : str; pr_number : N; isVerified : bool
}.

Record ResolvableItem : Type := mkResolvableItem {
  item_url : str; item_number : N; isResolved : bool
}.

Record StagingDeployCashData : Type := mkStagingDeployCashData {
  sdc_title : str;
  sdc_url : str;
  sdc_number : N;
  sdc_labels : list Label;
  PRList : list PRItem;
  deployBlockers : list ResolvableItem;
  internalQAPRList : list ResolvableItem;
  isTimingDashboardChecked : bool;
  isFirebaseChecked : bool;
  isGHStatusChecked : bool;
  tag : str
}.

(** The constants of [./CONST] the module reads. *)
Record Const : Type := mkConst {
  GITHUB_OWNER : str;
  APP_REPO : str;
  APP_REPO_URL : str;
  STAGING_DEPLOY : str;
  INTERNAL_QA : str
}.

(** *** Numbers out of URLs *)

Definition number_from_URL (r : regex) (what : string) (URL : str)
  : Error + N :=
  match exec r URL with
  | Some x => inr (Js.parseInt (group 1 x))
  | None =>
      inl (mkError (lit "Provided URL " ++ URL ++ lit what) None)
  end.

Definition getPullRequestNumberFromURL : str -> Error + N :=
  number_from_URL PULL_REQUEST_REGEX " is not a Github Pull Request!".

Definition getIssueNumberFromURL : str -> Error + N :=
  number_from_URL ISSUE_REGEX " is not a Github Issue!".

Definition getIssueOrPullRequestNumberFromURL : str -> Error + N :=
  number_from_URL ISSUE_OR_PULL_REQUEST_REGEX
    " is not a valid Github Issue or Pull Request!".

(** *** Parsing the ticket body

    What the parser writes to the console is not modelled. *)

Definition checkbox (g : nat) : regex :=
  Grp g (Cls (fun a => Ascii.eqb a " " || Ascii.eqb a "x")).

Definition eol : regex := Opt (chr CR) ;; chr LF.

(** [/pull requests:\*\*\r?\n((?:-.*\r?\n)+)\r?\n\r?\n?/] *)
Definition PR_LIST_SECTION : regex :=
  text "pull requests:**" ;; eol ;;
  Grp 1 (Plus (chr "-" ;; Star dot ;; eol)) ;;
  eol ;; Opt (chr CR) ;; Opt (chr LF).

(** [/Deploy Blockers:\*\*\r?\n((?:-.*\r?\n)+)/] *)
Definition DEPLOY_BLOCKER_SECTION : regex :=
  text "Deploy Blockers:**" ;; eol ;;
  Grp 1 (Plus (chr "-" ;; Star dot ;; eol)).

(** [/Internal QA:\*\*\r?\n((?:- \[[ x]].*\r?\n)+)/] *)
Definition INTERNAL_QA_SECTION : regex :=
  text "Internal QA:**" ;; eol ;;
  Grp 1 (Plus (text "- [" ;;
               Cls (fun a => Ascii.eqb a " " || Ascii.eqb a "x") ;;
               chr "]" ;; Star dot ;; eol)).

(** [- \[([ x])] (PULL_REQUEST_REGEX.source)] *)
Definition PR_LINE : regex :=
  text "- [" ;; checkbox 1 ;; text "] " ;; Grp 2 (PULL_REQUEST_SOURCE 3).

(** [- \[([ x])]\s(ISSUE_OR_PULL_REQUEST_REGEX.source)] *)
Definition DEPLOY_BLOCKER_LINE : regex :=
  text "- [" ;; checkbox 1 ;; chr "]" ;; space ;;
  Grp 2 (ISSUE_OR_PULL_REQUEST_SOURCE 3).

(** [- \[([ x])]\s(PULL_REQUEST_REGEX.source)] *)
Definition INTERNAL_QA_LINE : regex :=
  text "- [" ;; checkbox 1 ;; chr "]" ;; space ;;
  Grp 2 (PULL_REQUEST_SOURCE 3).

Definition is_x (s : str) : bool := str_eqb s (lit "x").

Definition getStagingDeployCashPRList (issue : Issue) : list PRItem :=
  match exec PR_LIST_SECTION (body issue) with
  | None => []
  | Some PRListSection =>
      Js.sortBy pr_number
        (map (fun mt =>
                mkPRItem (group 2 mt) (Js.parseInt (group 3 mt))
                         (is_x (group 1 mt)))
             (matchAll PR_LINE (group 1 PRListSection)))
  end.

Definition getStagingDeployCashDeployBlockers (issue : Issue)
  : list ResolvableItem :=
  match exec DEPLOY_BLOCKER_SECTION (body issue) with
  | None => []
  | Some deployBlockerSection =>
      Js.sortBy item_number
        (map (fun mt =>
                mkResolvableItem (group 2 mt) (Js.parseInt (group 3 mt))
                                 (is_x (group 1 mt)))
             (matchAll DEPLOY_BLOCKER_LINE (group 1 deployBlockerSection)))
  end.

Definition getStagingDeployCashInternalQA (issue : Issue)
  : list ResolvableItem :=
  match exec INTERNAL_QA_SECTION (body issue) with
  | None => []
  | Some internalQASection =>
      Js.sortBy item_number
        (map (fun mt =>
                mkResolvableItem (Js.trim (Js.before_dash (group 2 mt)))
                                 (Js.parseInt (group 3 mt))
                                 (is_x (group 1 mt)))
             (matchAll INTERNAL_QA_LINE (group 1 internalQASection)))
  end.

(** [([0-9]+)\.([0-9]+)\.([0-9]+)(?:-([0-9]+))?] *)
Definition versionRegex : regex :=
  Grp 1 (Plus digit) ;; chr "." ;; Grp 2 (Plus digit) ;; chr "." ;;
  Grp 3 (Plus digit) ;; Opt (chr "-" ;; Grp 4 (Plus digit)).

Definition TIMING_DASHBOARD_CHECKED : regex :=
  chr "-" ;; space ;; text "[x]" ;; space ;;
  text "I checked the [App Timing Dashboard]".
Definition FIREBASE_CHECKED : regex :=
  chr "-" ;; space ;; text "[x]" ;; space ;;
  text "I checked [Firebase Crashlytics]".
Definition GH_STATUS_CHECKED : regex :=
  chr "-" ;; space ;; text "[x]" ;; space ;;
  text "I checked [GitHub Status]".

Definition remove_backticks (s : str) : str :=
  filter (fun a => negb (Ascii.eqb a "`")) s.

Definition incorrect_data (C : Const) : Error :=
  mkError (lit "Unable to find " ++ STAGING_DEPLOY C ++
           lit " issue with correct data.") None.

(** Whatever is thrown inside the [try] is replaced by one error. *)
Definition getStagingDeployCashData (C : Const) (issue : Issue)
  : Error + StagingDeployCashData :=
  match exec versionRegex (body issue) with
  | None => inl (incorrect_data C)
  | Some v =>
      let tag := remove_backticks (whole v) in
      match getIssueOrPullRequestNumberFromURL (issue_url issue) with
      | inl _ => inl (incorrect_data C)
      | inr n =>
          inr {|
            sdc_title := issue_title issue;
            sdc_url := issue_url issue;
            sdc_number := n;
            sdc_labels := issue_labels issue;
            PRList := getStagingDeployCashPRList issue;
            deployBlockers := getStagingDeployCashDeployBlockers issue;
            internalQAPRList := getStagingDeployCashInternalQA issue;
            isTimingDashboardChecked :=
              test TIMING_DASHBOARD_CHECKED (body issue);
            isFirebaseChecked := test FIREBASE_CHECKED (body issue);
            isGHStatusChecked := test GH_STATUS_CHECKED (body issue);
            tag := tag
          |}
      end
  end.

(** *** Finding the ticket

    [issues.listForRepo] is asked for the issues of a repository that are
    in a state and carry a label; it settles with the issues, or with the
    error the request is rejected with. *)






(** *** The console and promises *)

Inductive Level : Type := LOG | WARN | ERROR.

(** A line on the console: its level and its fixed text (the values
    printed after the text are left out). *)
Definition Console := list (Level * string).

(** How a promise settles. *)
Inductive Settled (T : Type) : Type :=
| Fulfilled : T -> Settled T
| Rejected : Error -> Settled T.
Arguments Fulfilled {T} _.
Arguments Rejected {T} _.

(** *** Fetching pull requests

    [octokit.paginate(route, parameters, mapFn)] requests the pages of a
    listing one after the other: the results of [mapFn] on each page are
    concatenated, and no further page is requested once [mapFn] has called
    [done] or a page carries no link to a next one.  A request that fails
    rejects the whole promise.  The remote is the response to the first
    request and the responses to the requests that follow it, as long as
    there are pages; the second component of the result counts the
    requests issued. *)

Inductive PageResponse : Type :=
| PageOk : list PullRequest -> PageResponse
| PageFail : Error -> PageResponse.

Record Remote : Type := mkRemote {
  first_page : PageResponse;
  next_pages : list PageResponse
}.

Section Paginate.
Variable T : Type.
Variable mapFn : list PullRequest -> list T * bool.

Fixpoint gather (results : list T) (requests : nat)
           (page : PageResponse) (more : list PageResponse)
    : Settled (list T) * nat :=
    match page with
    | PageFail e => (Rejected e, S requests)
    | PageOk data =>
        let (items, done) := mapFn data in
        let results' := results ++ items in
        if done then (Fulfilled results', S requests)
        else match more with
             | [] => (Fulfilled results', S requests)
             | page' :: more' => gather results' (S requests) page' more'
             end
    end.

Definition paginate (remote : Remote) : Settled (list T) * nat :=
    gather [] 0 (first_page remote) (next_pages remote).
End Paginate.

(** The parameters of the listing request. *)
Record ListParameters : Type := mkListParameters {
  state : string; sort : string; direction : string; per_page : nat
}.

(** [octokit.pulls.list]: the remote the parameters select. *)
Definition PullsList := ListParameters -> Remote.

Definition pulls_list_parameters : ListParameters :=
  {| state := "all"; sort := "created"; direction := "desc";
     per_page := 100 |}.

(** [_.first(_.sortBy(pullRequestNumbers))]: [undefined] on no numbers. *)
Definition oldestPR (pullRequestNumbers : list N) : option N :=
  hd_error (Js.sortBy (fun n => n) pullRequestNumbers).

Definition is_oldest (oldest : option N) (pr : PullRequest) : bool :=
  match oldest with
  | Some n => N.eqb (number pr) n
  | None => false
  end.

Definition stop_at_oldest (oldest : option N) (data : list PullRequest)
  : list PullRequest * bool :=
  (data, existsb (is_oldest oldest) data).

Definition requested (pullRequestNumbers : list N) (pr : PullRequest) : bool :=
  existsb (N.eqb (number pr)) pullRequestNumbers.

Record Fetched : Type := mkFetched {
  fetch_console : Console;
  fetch_requests : nat;
  (** [None] is the [undefined] the promise is fulfilled with after the
      [catch]. *)
  fetch_value : option (list PullRequest)
}.

Definition fetchAllPullRequests (pulls : PullsList)
           (pullRequestNumbers : list N) : Fetched :=
  let oldest := oldestPR pullRequestNumbers in
  match paginate (stop_at_oldest oldest) (pulls pulls_list_parameters) with
  | (Fulfilled prList, requests) =>
      mkFetched [] requests
                (Some (filter (requested pullRequestNumbers) prList))
  | (Rejected err, requests) =>
      mkFetched [(ERROR, "Failed to get PR list"%string)] requests None
  end.

(** *** Objects used as maps

    The own keys of an object are enumerated with the array indices first,
    in ascending order, and the other keys after them, in the order in
    which they were added.  Assigning to a key that exists keeps its
    place. *)

Definition Obj := list (str * str).

(** A canonical array index: a decimal numeral without leading zero,
    below 2^32 - 1. *)
Definition array_index (k : str) : option N :=
  match k with
  | [] => None
  | a :: k' =>
      if forallb is_digit k
         && (negb (Ascii.eqb a "0") || match k' with [] => true | _ => false end)
         && Nat.leb (length k) 10
         && (Js.parseInt k <? 4294967295)%N
      then Some (Js.parseInt k) else None
  end.

Fixpoint obj_has (o : Obj) (k : str) : bool :=
  match o with
  | [] => false
  | (k', _) :: o' => str_eqb k' k || obj_has o' k
  end.

Fixpoint obj_update (o : Obj) (k v : str) : Obj :=
  match o with
  | [] => []
  | (k', v') :: o' =>
      if str_eqb k' k then (k', v) :: o' else (k', v') :: obj_update o' k v
  end.

Fixpoint obj_add_index (o : Obj) (i : N) (k v : str) : Obj :=
  match o with
  | [] => [(k, v)]
  | (k', v') :: o' =>
      match array_index k' with
      | Some j =>
          if (j <? i)%N then (k', v') :: obj_add_index o' i k v
          else (k, v) :: o
      | None => (k, v) :: o
      end
  end.

(** [o[k] = v] *)
Definition obj_set (o : Obj) (k v : str) : Obj :=
  if obj_has o k then obj_update o k v
  else match array_index k with
       | Some i => obj_add_index o i k v
       | None => o ++ [(k, v)]
       end.

Definition keys (o : Obj) : list str := map fst o.
Definition values (o : Obj) : list str := map snd o.

(** *** Generating the ticket body *)

(** [/\[No\s?QA]/i] *)
Definition NO_QA : regex :=
  chr "[" ;; texti "No" ;; Opt space ;; texti "QA" ;; chr "]".

(** [!_.isEmpty(_.findWhere(pr.labels, {name: CONST.LABELS.INTERNAL_QA}))] *)
Definition isInternalQA (C : Const) (pr : PullRequest) : bool :=
  existsb (fun l => str_eqb (name l) (INTERNAL_QA C)) (labels pr).

Definition null_login : Error :=
  mkError (lit "Cannot read properties of null (reading 'login')") None.

(** The reduction that builds the map from the URL of an internal QA pull
    request to the login of who merged it; reading the login of a pull
    request that nobody merged throws. *)
Fixpoint internalQAPRMap_from (o : Obj) (prs : list PullRequest)
  : Error + Obj :=
  match prs with
  | [] => inr o
  | pr :: prs' =>
      match merged_by pr with
      | None => inl null_login
      | Some u => internalQAPRMap_from (obj_set o (html_url pr) (login u)) prs'
      end
  end.

(** [_.map(l, f)] with an [f] that may throw. *)
Fixpoint map_throwing {X Y : Type} (f : X -> Error + Y) (l : list X)
  : Error + list Y :=
  match l with
  | [] => inr []
  | x :: l' =>
      match f x with
      | inl e => inl e
      | inr y =>
          match map_throwing f l' with
          | inl e => inl e
          | inr ys => inr (y :: ys)
          end
      end
  end.

(** [_.sortBy(l, f)] with an [f] that may throw: the criteria are computed
    first, in order. *)
Definition sortBy_throwing (f : str -> Error + N) (l : list str)
  : Error + list str :=
  match map_throwing (fun x => match f x with
                               | inl e => inl e
                               | inr n => inr (x, n)
                               end) l with
  | inl e => inl e
  | inr keyed => inr (map fst (Js.sortBy snd keyed))
  end.

Definition box (checked : bool) : str :=
  if checked then lit "- [x]" else lit "- [ ]".

Definition mark (checked : bool) : str :=
  if checked then lit "x" else lit " ".

Definition header (tag : str) : str :=
  lit "**Release Version:** `" ++ tag ++ lit "`" ++ CRLF ++
  lit "**Compare Changes:** https://github.com/Expensify/App/compare/production...staging" ++ CRLF.

Definition PR_line (verifiedOrNoQAPRs : list str) (URL : str) : str :=
  box (Js.contains verifiedOrNoQAPRs URL) ++ lit " " ++ URL ++ CRLF.

Definition PR_section (verifiedOrNoQAPRs sortedPRList : list str) : str :=
  match sortedPRList with
  | [] => []
  | _ =>
      CRLF ++
      lit "**This release contains changes from the following pull requests:**" ++ CRLF ++
      concat (map (PR_line verifiedOrNoQAPRs) sortedPRList) ++
      CRLF ++ CRLF
  end.

Definition internalQA_line (resolvedInternalQAPRs : list str)
           (entry : str * str) : str :=
  let (URL, merger) := entry in
  let mergerMention := lit "@" ++ merger in
  (box (Js.contains resolvedInternalQAPRs URL) ++ lit " ") ++
  URL ++ (lit " - " ++ mergerMention) ++ CRLF.

Definition internalQA_section (resolvedInternalQAPRs : list str)
           (internalQAPRMap : Obj) : str :=
  match internalQAPRMap with
  | [] => []
  | _ =>
      lit "**Internal QA:**" ++ CRLF ++
      concat (map (internalQA_line resolvedInternalQAPRs) internalQAPRMap) ++
      CRLF ++ CRLF
  end.

Definition deployBlocker_line (resolvedDeployBlockers : list str)
           (URL : str) : str :=
  (box (Js.contains resolvedDeployBlockers URL) ++ lit " ") ++ URL ++ CRLF.

(** The section is there when the given list of blockers is not empty. *)
Definition deployBlocker_section (deployBlockers resolvedDeployBlockers
                                  sortedDeployBlockers : list str) : str :=
  match deployBlockers with
  | [] => []
  | _ =>
      lit "**Deploy Blockers:**" ++ CRLF ++
      concat (map (deployBlocker_line resolvedDeployBlockers)
                  sortedDeployBlockers) ++
      CRLF ++ CRLF
  end.

Definition verifications (isTimingDashboardChecked isFirebaseChecked
                          isGHStatusChecked : bool) : str :=
  lit "**Deployer verifications:**" ++
  CRLF ++ lit "- [" ++ mark isTimingDashboardChecked ++
  lit "] I checked the [App Timing Dashboard](https://graphs.expensify.com/grafana/d/yj2EobAGz/app-timing?orgId=1) and verified this release does not cause a noticeable performance regression." ++
  CRLF ++ lit "- [" ++ mark isFirebaseChecked ++
  lit "] I checked [Firebase Crashlytics](https://console.firebase.google.com/u/0/project/expensify-chat/crashlytics/app/android:com.expensify.chat/issues?state=open&time=last-seven-days&tag=all) and verified that this release does not introduce any new crashes. More detailed instructions on this verification can be found [here](https://stackoverflowteams.com/c/expensify/questions/15095/15096)." ++
  CRLF ++ lit "- [" ++ mark isGHStatusChecked ++
  lit "] I checked [GitHub Status](https://www.githubstatus.com/) and verified there is no reported incident with Actions.".

Definition footer : str :=
  CRLF ++ CRLF ++ lit "cc @Expensify/applauseleads" ++ CRLF.

Record IssueDraft : Type := mkIssueDraft {
  issueBody : str;
  issueAssignees : list str
}.

(** The arguments of [generateStagingDeployCashBody]. *)
Record BodyInput : Type := mkBodyInput {
  in_tag : str;
  in_PRList : list str;
  in_verifiedPRList : list str;
  in_deployBlockers : list str;
  in_resolvedDeployBlockers : list str;
  in_resolvedInternalQAPRs : list str;
  in_isTimingDashboardChecked : bool;
  in_isFirebaseChecked : bool;
  in_isGHStatusChecked : bool
}.

(** What the [then] callback does with the fetched pull requests
    ([undefined] is filtered and reduced like an empty list): the console
    lines written, and the draft or what is thrown. *)
Definition draft (C : Const) (i : BodyInput) (data : option (list PullRequest))
  : Console * (Error + IssueDraft) :=
  let data := match data with Some d => d | None => [] end in
  match internalQAPRMap_from [] (filter (isInternalQA C) data) with
  | inl e => ([], inl e)
  | inr internalQAPRMap =>
      let log1 := [(LOG, "Found the following Internal QA PRs:"%string)] in
      let noQAPRs :=
        map html_url (filter (fun PR => test NO_QA (title PR)) data) in
      let log2 := log1 ++ [(LOG, "Found the following NO QA PRs:"%string)] in
      let verifiedOrNoQAPRs := Js.union (in_verifiedPRList i) noQAPRs in
      match sortBy_throwing getPullRequestNumberFromURL
              (Js.unique (Js.difference (in_PRList i) (keys internalQAPRMap)))
      with
      | inl e => (log2, inl e)
      | inr sortedPRList =>
          match sortBy_throwing getIssueOrPullRequestNumberFromURL
                  (Js.unique (in_deployBlockers i)) with
          | inl e => (log2, inl e)
          | inr sortedDeployBlockers =>
              let log3 :=
                match internalQAPRMap with
                | [] => log2
                | _ => log2 ++
                    [(LOG, "Found the following verified Internal QA PRs:"%string)]
                end in
              (log3,
               inr {|
                 issueBody :=
                   header (in_tag i) ++
                   PR_section verifiedOrNoQAPRs sortedPRList ++
                   internalQA_section (in_resolvedInternalQAPRs i)
                                      internalQAPRMap ++
                   deployBlocker_section (in_deployBlockers i)
                                         (in_resolvedDeployBlockers i)
                                         sortedDeployBlockers ++
                   verifications (in_isTimingDashboardChecked i)
                                 (in_isFirebaseChecked i)
                                 (in_isGHStatusChecked i) ++
                   footer;
                 issueAssignees := values internalQAPRMap
               |})
          end
      end
  end.

(** The outcome of [generateStagingDeployCashBody]: it throws before any
    request when a URL of the list is not one of a pull request; otherwise
    it returns a promise, which is always fulfilled, with the draft or,
    after the [catch], with [undefined] ([None]). *)
Inductive Generated : Type :=
| Throws : Error -> Generated
| Promise : Console -> nat -> option IssueDraft -> Generated.

Definition generateStagingDeployCashBody (C : Const) (pulls : PullsList)
           (i : BodyInput) : Generated :=
  match map_throwing getPullRequestNumberFromURL (in_PRList i) with
  | inl e => Throws e
  | inr pullRequestNumbers =>
      let fetched := fetchAllPullRequests pulls pullRequestNumbers in
      match draft C i (fetch_value fetched) with
      | (log, inr issue) =>
          Promise (fetch_console fetched ++ log) (fetch_requests fetched)
                  (Some issue)
      | (log, inl err) =>
          Promise (fetch_console fetched ++ log ++
                   [(WARN, "Error generating StagingDeployCash issue body! Continuing..."%string)])
                  (fetch_requests fetched) None
      end
  end.

(** *** The rate-limit handlers

    The throttling plug-in calls [onRateLimit] when a request hits the
    rate limit, with the delay the server asks for and the options of the
    request, of which the handler reads the method, the URL and
    [request.retryCount]; the request is retried when the handler returns
    a true value. *)

Definition retryAfterBaseValue : N := 2000.

Definition onRateLimit (retryAfter : N) (retryCount : nat) : Console * bool :=
  let warned := [(WARN, "Request quota exhausted for request"%string)] in
  if Nat.leb retryCount 5
  then (warned ++ [(LOG, "Retrying after seconds!"%string)], true)
  else (warned, false).

Definition onAbuseLimit (retryAfter : N) (retryCount : nat) : Console * bool :=
  ([(WARN, "Abuse detected for request"%string)], false).

(** The retry loop of the throttling plug-in around one logical request.
    The first attempt is made with the [request.retryCount] the options
    of the request carry, 0 when they carry none; when an attempt hits
    a limit the handler is asked, and if it wants a retry the plug-in
    waits [retryAfter * retryAfterBaseValue] milliseconds, adds one to
    [request.retryCount] and sends the request again; otherwise the error
    of the attempt is what the caller gets.  [answers k] is what the
    remote answers to the attempt made with retry count [k]. *)

Inductive Answer : Type :=
| Answered : Answer
| RateLimited : Error -> N -> Answer
| AbuseLimited : Error -> N -> Answer
| Failed : Error -> Answer.

Inductive Event : Type :=
| Attempt : nat -> Event
| Printed : Level * string -> Event
| Slept : N -> Event.

Definition handle (handler : N -> nat -> Console * bool)
           (again : nat -> option (list Event * Settled unit))
           (e : Error) (retryAfter : N) (retryCount : nat)
  : option (list Event * Settled unit) :=
  let (printed, wantRetry) := handler retryAfter retryCount in
  let events := Attempt retryCount :: map Printed printed in
  if wantRetry then
    match again (S retryCount) with
    | Some (events', outcome) =>
        Some (events ++ Slept (retryAfter * retryAfterBaseValue) :: events',
              outcome)
    | None => None
    end
  else Some (events, Rejected e).

Fixpoint request (fuel : nat) (answers : nat -> Answer) (retryCount : nat)
  : option (list Event * Settled unit) :=
  match fuel with
  | O => None
  | S fuel' =>
      match answers retryCount with
      | Answered => Some ([Attempt retryCount], Fulfilled tt)
      | Failed e => Some ([Attempt retryCount], Rejected e)
      | RateLimited e retryAfter =>
          handle onRateLimit (request fuel' answers) e retryAfter retryCount
      | AbuseLimited e retryAfter =>
          handle onAbuseLimit (request fuel' answers) e retryAfter retryCount
      end
  end.

Definition is_attempt (ev : Event) : bool :=
  match ev with Attempt _ => true | _ => false end.

Definition is_warning (ev : Event) : bool :=
  match ev with Printed (WARN, _) => true | _ => false end.

Definition is_sleep (ev : Event) : bool :=
  match ev with Slept _ => true | _ => false end.

Definition attempts (events : list Event) : nat :=
  length (filter is_attempt events).

(** *** The body of a production release *)

Definition getPullRequestURLFromNumber (C : Const) (number : N) : str :=
  APP_REPO_URL C ++ lit "/pull/" ++ Js.toString number.

Definition getReleaseBody (C : Const) (pullRequests : list N) : str :=
  Js.join CRLF
    (map (fun number => lit "- " ++ getPullRequestURLFromNumber C number)
         pullRequests).

(** *** The other listings

    [octokit.paginate] on a route whose pages hold records of any kind:
    the response to the first request and the responses to the requests
    that follow it.  Without a [mapFn] the records of each page are
    taken as they are. *)

Inductive Response (D : Type) : Type :=
| Ok : list D -> Response D
| Fail : Error -> Response D.
Arguments Ok {D} _.
Arguments Fail {D} _.

Record Route (D : Type) : Type := mkRoute {
  first_response : Response D;
  next_responses : list (Response D)
}.

Section PaginateRoute.
Variables D T : Type.
Variable mapFn : list D -> list T * bool.

Fixpoint gather_route (results : list T) (requests : nat)
           (page : Response D) (more : list (Response D))
    : Settled (list T) * nat :=
    match page with
    | Fail e => (Rejected e, S requests)
    | Ok data =>
        let (items, done) := mapFn data in
        let results' := results ++ items in
        if done then (Fulfilled results', S requests)
        else match more with
             | [] => (Fulfilled results', S requests)
             | page' :: more' => gather_route results' (S requests) page' more'
             end
    end.

Definition paginate_route (route : Route D) : Settled (list T) * nat :=
    gather_route [] 0 (first_response route) (next_responses route).
End PaginateRoute.

(** The records of each page as they are. *)
Definition as_is (D : Type) (data : list D) : list D * bool := (data, false).

(** [promise.then(f)]: a rejection passes through. *)
Definition then_ (X Y : Type) (f : X -> Y) (p : Settled X * nat)
  : Settled Y * nat :=
  match p with
  | (Fulfilled x, requests) => (Fulfilled (f x), requests)
  | (Rejected e, requests) => (Rejected e, requests)
  end.

Record Review : Type := mkReview { review_id : N; review_body : str }.

Record Comment : Type := mkComment { comment_id : N; comment_body : str }.

(** An event of the timeline of an issue; the actor is [null] when the
    account is gone. *)
Record IssueEvent : Type := mkIssueEvent { event : str; actor : option User }.

Record Artifact : Type := mkArtifact { artifact_id : N; artifact_name : str }.

(** The parameters of a listing that belongs to an issue or to a pull
    request, and of one that belongs to the repository. *)
Record NumberParameters : Type := mkNumberParameters {
  np_owner : str; np_repo : str; np_number : N; np_per_page : nat
}.

Record RepoParameters : Type := mkRepoParameters {
  rp_owner : str; rp_repo : str; rp_per_page : nat
}.

Definition number_parameters (C : Const) (n : N) : NumberParameters :=
  {| np_owner := GITHUB_OWNER C; np_repo := APP_REPO C; np_number := n;
     np_per_page := 100 |}.

Definition getAllReviewComments (C : Const)
           (listReviews : NumberParameters -> Route Review)
           (pullRequestNumber : N) : Settled (list str) * nat :=
  paginate_route (fun data => (map review_body data, false))
                 (listReviews (number_parameters C pullRequestNumber)).

Definition getAllComments (C : Const)
           (listComments : NumberParameters -> Route Comment)
           (issueNumber : N) : Settled (list str) * nat :=
  paginate_route (fun data => (map comment_body data, false))
                 (listComments (number_parameters C issueNumber)).

Definition is_closed (ev : IssueEvent) : bool :=
  str_eqb (event ev) (lit "closed").

(** [lodashGet(e, 'actor.login', '')] *)
Definition actor_login (e : option IssueEvent) : str :=
  match e with
  | Some ev => match actor ev with Some u => login u | None => [] end
  | None => []
  end.

Definition getActorWhoClosedIssue (C : Const)
           (listEvents : NumberParameters -> Route IssueEvent)
           (issueNumber : N) : Settled str * nat :=
  then_ (fun closedEvents => actor_login (Js.last closedEvents))
    (then_ (fun events => filter is_closed events)
       (paginate_route (@as_is IssueEvent)
                       (listEvents (number_parameters C issueNumber)))).

(** [_.findWhere(artifacts, {name: artefactName})]: the first artifact
    of that name, [undefined] when there is none. *)
Definition getArtifactByName (C : Const)
           (listArtifactsForRepo : RepoParameters -> Route Artifact)
           (artefactName : str) : Settled (option Artifact) * nat :=
  then_ (fun artifacts =>
           find (fun a => str_eqb (artifact_name a) artefactName) artifacts)
    (paginate_route (@as_is Artifact)
       (listArtifactsForRepo
          {| rp_owner := GITHUB_OWNER C; rp_repo := APP_REPO C;
             rp_per_page := 100 |})).

(** *** The client

    [internalOctokit] is the instance the class keeps; the getters build
    it on first use with the token [core.getInput] reads, which throws
    when the input is required and empty and otherwise returns it
    trimmed.  [getOctokitOptions] makes the authorization of the client
    of the token, and throws when the token is empty; [internalOctokit]
    is assigned after that only. *)

Record Octokit : Type := mkOctokit { auth : str }.

Inductive Part : Type := Rest | Graphql | Paginate.

Definition input_required : Error :=
  mkError (lit "Input required and not supplied: GITHUB_TOKEN") None.

Definition getInput (value : str) : Error + str :=
  match value with
  | [] => inl input_required
  | _ => inr (Js.trim value)
  end.

Definition auth_required : Error :=
  mkError (lit "Parameter token or opts.auth is required") None.

Definition getOctokitOptions (token : str) : Error + str :=
  match token with
  | [] => inl auth_required
  | _ => inr (lit "token " ++ token)
  end.

Definition initOctokit (GITHUB_TOKEN : str) : Error + Octokit :=
  match getInput GITHUB_TOKEN with
  | inl e => inl e
  | inr token =>
      match getOctokitOptions token with
      | inl e => inl e
      | inr auth => inr (mkOctokit auth)
      end
  end.

(** A getter: the part asked for of the instance kept, which is built
    first when there is none. *)
Definition getter (part : Part) (GITHUB_TOKEN : str)
           (internalOctokit : option Octokit)
  : (Error + Part * Octokit) * option Octokit :=
  match internalOctokit with
  | Some o => (inr (part, o), internalOctokit)
  | None =>
      match initOctokit GITHUB_TOKEN with
      | inl e => (inl e, None)
      | inr o => (inr (part, o), Some o)
      end
  end.

Definition octokit := getter Rest.
Definition graphql := getter Graphql.
Definition paginate_getter := getter Paginate.

(** Getters used one after the other, each with the value the input has
    at that time. *)
Fixpoint uses (l : list (Part * str)) (internalOctokit : option Octokit)
  : list (Error + Part * Octokit) :=
  match l with
  | [] => []
  | (part, GITHUB_TOKEN) :: l' =>
      let (got, kept) := getter part GITHUB_TOKEN internalOctokit in
      got :: uses l' kept
  end.

End GithubUtils.

(** * Notions the statements use *)

(** A remote whose listing is cut into the given pages, every request
    succeeding; an empty listing is one empty page. *)
Definition listing (pages : list (list GithubUtils.PullRequest))
  : GithubUtils.Remote :=
  match pages with
  | [] => GithubUtils.mkRemote (GithubUtils.PageOk []) []
  | p :: ps => GithubUtils.mkRemote (GithubUtils.PageOk p)
                                    (map GithubUtils.PageOk ps)
  end.

(** The page holds a pull request with this number. *)
Definition has_number (n : N) (page : list GithubUtils.PullRequest) : bool :=
  existsb (fun pr => N.eqb (GithubUtils.number pr) n) page.

(** The page holds the pull request with the smallest of the numbers
    asked for; no page does when no number is asked for. *)
Definition holds_oldest (target : list N) (page : list GithubUtils.PullRequest)
  : bool :=
  match GithubUtils.oldestPR target with
  | Some o => has_number o page
  | None => false
  end.

(** The number of a URL, 0 when extracting it throws. *)
Definition total (f : str -> GithubUtils.Error + N) (URL : str) : N :=
  match f URL with inr n => n | inl _ => 0%N end.

(** Extracting the number of the URL does not throw. *)
Definition defined (f : str -> GithubUtils.Error + N) (URL : str) : bool :=
  match f URL with inr _ => true | inl _ => false end.

Definition pull_number : str -> N :=
  total GithubUtils.getPullRequestNumberFromURL.
Definition is_pull_URL : str -> bool :=
  defined GithubUtils.getPullRequestNumberFromURL.

Definition issue_or_pull_number : str -> N :=
  total GithubUtils.getIssueOrPullRequestNumberFromURL.
Definition is_issue_or_pull_URL : str -> bool :=
  defined GithubUtils.getIssueOrPullRequestNumberFromURL.

(** Orders by a numeric key. *)
Definition key_le {T : Type} (key : T -> N) (a b : T) : Prop :=
  (key a <= key b)%N.
Definition key_lt {T : Type} (key : T -> N) (a b : T) : Prop :=
  (key a < key b)%N.

(** What an expression matches, whatever the order of the search: [r]
    matches the text between the head of [s] and the suffix [s'].  An
    iteration of a repetition consumes at least one character. *)
Inductive matches : Re.regex -> str -> str -> Prop :=
| M_Eps s : matches Re.Eps s s
| M_Cls (p : ascii -> bool) x s : p x = true -> matches (Re.Cls p) (x :: s) s
| M_Cat a b s s1 s2 :
    matches a s s1 -> matches b s1 s2 -> matches (Re.Cat a b) s s2
| M_AltL a b s s' : matches a s s' -> matches (Re.Alt a b) s s'
| M_AltR a b s s' : matches b s s' -> matches (Re.Alt a b) s s'
| M_Star0 a s : matches (Re.Star a) s s
| M_StarS a s s1 s2 :
    matches a s s1 -> length s1 < length s -> matches (Re.Star a) s1 s2 ->
    matches (Re.Star a) s s2
| M_Grp i a s s' : matches a s s' -> matches (Re.Grp i a) s s'.

(** A non-empty run of decimal digits. *)
Definition digits (s : str) : Prop :=
  s <> [] /\ forallb Re.is_digit s = true.

(** The body holds a version token [N.N.N]. *)
Definition has_version (body : str) : Prop :=
  exists pre a b c post,
    body = pre ++ a ++ lit "." ++ b ++ lit "." ++ c ++ post
    /\ digits a /\ digits b /\ digits c.

(** The body holds the text of a heading. *)
Definition has_heading (heading : string) (body : str) : Prop :=
  exists pre post, body = pre ++ lit heading ++ post.

(** The text does not go on with a character of the class. *)
Definition stops (p : ascii -> bool) (s : str) : Prop :=
  match s with [] => True | x :: _ => p x = false end.

(** The characters of the name of an owner, of a repository or of a
    user: letters, digits, dash, underscore and full stop. *)
Definition name_char (a : ascii) : bool :=
  let n := nat_of_ascii a in
  (Nat.leb 48 n && Nat.leb n 57) || (Nat.leb 65 n && Nat.leb n 90)
  || (Nat.leb 97 n && Nat.leb n 122)
  || Nat.eqb n 45 || Nat.eqb n 95 || Nat.eqb n 46.

Definition is_name (s : str) : Prop := forallb name_char s = true.

Definition is_base (b : str) : Prop :=
  b = lit "https://github.com" \/ b = lit "http://github.com"
  \/ b = lit "https://api.github.com" \/ b = lit "http://api.github.com".

(** [u] is the URL of number [ds] of the given kind ([pull] or [issues])
    in a repository: base, owner, repository, kind, number. *)
Definition numbered_URL (kind : string) (u ds : str) : Prop :=
  exists base o r,
    is_base base /\ is_name o /\ is_name r /\ digits ds
    /\ u = base ++ lit "/" ++ o ++ lit "/" ++ r ++ lit "/" ++ lit kind
           ++ lit "/" ++ ds.

Definition pull_URL (u : str) : Prop := exists ds, numbered_URL "pull" u ds.

Definition issue_or_pull_URL (u : str) : Prop :=
  exists ds, numbered_URL "pull" u ds \/ numbered_URL "issues" u ds.

(** The slashes of the text up to the end of its first line. *)
Fixpoint line_slashes (s : str) : nat :=
  match s with
  | [] => 0
  | a :: s' =>
      if Re.dotp a
      then (if Ascii.eqb a "/" then 1 else 0) + line_slashes s'
      else 0
  end.

Definition no_slash (s : str) : Prop :=
  forallb (fun a => negb (Ascii.eqb a "/")) s = true.

(** The text of a list: its lines, each ended by a line break. *)
Definition lines_text (T : Type) (content : T -> str) (entries : list T)
  : str :=
  concat (map (fun e => content e ++ CRLF) entries).

(** The digits a text ends with. *)
Fixpoint leading_digits (s : str) : str :=
  match s with
  | a :: s' => if Re.is_digit a then a :: leading_digits s' else []
  | [] => []
  end.

Definition trailing_digits (s : str) : str := rev (leading_digits (rev s)).

(** A line of a list: its box, its URL and what follows the URL. *)
Record Entry : Type := mkEntry {
  e_checked : bool;
  e_url : str;
  e_tail : str
}.

Definition entry_content (e : Entry) : str :=
  GithubUtils.box (e_checked e) ++ lit " " ++ e_url e ++ e_tail e.

(** What a line expression captures on the line. *)
Definition entry_found (e : Entry) : Re.caps :=
  [(2, e_url e ++ e_tail e); (3, trailing_digits (e_url e));
   (1, GithubUtils.mark (e_checked e))].

(** The URL is one of the given kinds, and what follows it on the line is
    empty or the mention of a user: a space, a dash, a space, an at sign
    and a name. *)
Definition entry_ok (kinds : list string) (e : Entry) : Prop :=
  (exists kt ds, In kt kinds /\ numbered_URL kt (e_url e) ds)
  /\ (e_tail e = [] \/ exists who, is_name who /\ e_tail e = lit " - @" ++ who).

Definition pull_only : list string := ["pull"%string].
Definition pull_or_issues : list string := ["pull"%string; "issues"%string].

(** The pull requests the callback works on. *)
Definition or_empty {T : Type} (data : option (list T)) : list T :=
  match data with Some d => d | None => [] end.

(** The URLs of the fetched pull requests whose title has the no-QA
    marker. *)
Definition noQAPRs (data : list GithubUtils.PullRequest) : list str :=
  map GithubUtils.html_url
      (filter (fun PR => Re.test GithubUtils.NO_QA (GithubUtils.title PR)) data).

(** The main list of a body, given the internal QA map. *)
Definition mainList (i : GithubUtils.BodyInput) (qa : GithubUtils.Obj)
  : list str :=
  Js.sortBy pull_number
    (Js.unique (Js.difference (GithubUtils.in_PRList i) (GithubUtils.keys qa))).

Definition blockerList (i : GithubUtils.BodyInput) : list str :=
  Js.sortBy issue_or_pull_number (Js.unique (GithubUtils.in_deployBlockers i)).

(** The body made of the three lists. *)
Definition body_of (i : GithubUtils.BodyInput)
           (data : list GithubUtils.PullRequest) (qa : GithubUtils.Obj) : str :=
  GithubUtils.header (GithubUtils.in_tag i) ++
  GithubUtils.PR_section
    (Js.union (GithubUtils.in_verifiedPRList i) (noQAPRs data))
    (mainList i qa) ++
  GithubUtils.internalQA_section (GithubUtils.in_resolvedInternalQAPRs i) qa ++
  GithubUtils.deployBlocker_section
    (GithubUtils.in_deployBlockers i) (GithubUtils.in_resolvedDeployBlockers i)
    (blockerList i) ++
  GithubUtils.verifications
    (GithubUtils.in_isTimingDashboardChecked i)
    (GithubUtils.in_isFirebaseChecked i)
    (GithubUtils.in_isGHStatusChecked i) ++
  GithubUtils.footer.

(** *** A body as lines *)

Definition tag_line (tag : str) : str :=
  lit "**Release Version:** `" ++ tag ++ lit "`".

Definition compare_line : str :=
  lit "**Compare Changes:** https://github.com/Expensify/App/compare/production...staging".

Definition PR_heading : str :=
  lit "**This release contains changes from the following pull requests:**".
Definition QA_heading : str := lit "**Internal QA:**".
Definition DB_heading : str := lit "**Deploy Blockers:**".

(** The entries of the lists of a body. *)
Definition PR_entries (verified URLs : list str) : list Entry :=
  map (fun u => mkEntry (Js.contains verified u) u []) URLs.

Definition QA_entries (resolved : list str) (qa : GithubUtils.Obj)
  : list Entry :=
  map (fun um => mkEntry (Js.contains resolved (fst um)) (fst um)
                         (lit " - @" ++ snd um)) qa.

(** The lines of a section: nothing when the list is empty; otherwise the
    lines before the heading, the heading, the entries and two empty
    lines. *)
Definition section_lines (before : list str) (heading : str)
           (entries : list Entry) : list str :=
  match entries with
  | [] => []
  | _ => before ++ heading :: map entry_content entries ++ [[]; []]
  end.

Definition verification_line (checked : bool) (sentence : string) : str :=
  lit "- [" ++ GithubUtils.mark checked ++ lit sentence.

Definition verification_lines (timing firebase status : bool) : list str :=
  [lit "**Deployer verifications:**";
   verification_line timing
     "] I checked the [App Timing Dashboard](https://graphs.expensify.com/grafana/d/yj2EobAGz/app-timing?orgId=1) and verified this release does not cause a noticeable performance regression.";
   verification_line firebase
     "] I checked [Firebase Crashlytics](https://console.firebase.google.com/u/0/project/expensify-chat/crashlytics/app/android:com.expensify.chat/issues?state=open&time=last-seven-days&tag=all) and verified that this release does not introduce any new crashes. More detailed instructions on this verification can be found [here](https://stackoverflowteams.com/c/expensify/questions/15095/15096).";
   verification_line status
     "] I checked [GitHub Status](https://www.githubstatus.com/) and verified there is no reported incident with Actions.";
   [];
   lit "cc @Expensify/applauseleads"].

Definition PR_lines (i : GithubUtils.BodyInput)
           (data : list GithubUtils.PullRequest) (qa : GithubUtils.Obj)
  : list str :=
  section_lines [[]] PR_heading
    (PR_entries (Js.union (GithubUtils.in_verifiedPRList i) (noQAPRs data))
                (mainList i qa)).

Definition QA_lines (i : GithubUtils.BodyInput) (qa : GithubUtils.Obj)
  : list str :=
  section_lines [] QA_heading
    (QA_entries (GithubUtils.in_resolvedInternalQAPRs i) qa).

Definition DB_lines (i : GithubUtils.BodyInput) : list str :=
  section_lines [] DB_heading
    (PR_entries (GithubUtils.in_resolvedDeployBlockers i) (blockerList i)).

Definition head_lines (i : GithubUtils.BodyInput) : list str :=
  [tag_line (GithubUtils.in_tag i); compare_line].

Definition tail_lines (i : GithubUtils.BodyInput) : list str :=
  verification_lines (GithubUtils.in_isTimingDashboardChecked i)
                     (GithubUtils.in_isFirebaseChecked i)
                     (GithubUtils.in_isGHStatusChecked i).

Definition body_lines (i : GithubUtils.BodyInput)
           (data : list GithubUtils.PullRequest) (qa : GithubUtils.Obj)
  : list str :=
  head_lines i ++ PR_lines i data qa ++ QA_lines i qa ++ DB_lines i
  ++ tail_lines i.

Definition text_of (lines : list str) : str := lines_text (fun l => l) lines.

(** The line cannot hold the heading of a section. *)
Definition passes (h : string) (l : str) : Prop :=
  forallb Re.dotp l = true /\ forall pre, l <> pre ++ lit h.

(** The characters of the text of an entry after its box: those of names,
    the colon and the slash of a URL, the space and the at sign of a
    mention. *)
Definition quiet (a : ascii) : bool :=
  name_char a || Ascii.eqb a ":" || Ascii.eqb a "/" || Ascii.eqb a " "
  || Ascii.eqb a "@".

(** [h] is a prefix of [l]. *)
Fixpoint prefixb (h l : str) : bool :=
  match h, l with
  | [], _ => true
  | x :: h', y :: l' => Ascii.eqb x y && prefixb h' l'
  | _ :: _, [] => false
  end.

(** [l] ends with [h]. *)
Definition suffixb (h l : str) : bool := prefixb (rev h) (rev l).

(** A release tag: [N.N.N] or [N.N.N-N]. *)
Definition version_tag (tag : str) : Prop :=
  exists a b c build,
    tag = a ++ lit "." ++ b ++ lit "." ++ c ++ build
    /\ digits a /\ digits b /\ digits c
    /\ (build = [] \/ exists d, digits d /\ build = lit "-" ++ d).

Definition tag_char (a : ascii) : bool :=
  Re.is_digit a || Ascii.eqb a "." || Ascii.eqb a "-".

(** The text of one of the three headings: it is on one line and ends
    with a star. *)
Definition heading_like (h : string) : Prop :=
  forallb Re.dotp (lit h) = true /\ exists h', rev (lit h) = "*"%char :: h'.

(** The lines of a document with the given entries. *)
Definition document_lines (tag : str) (prE qaE dbE : list Entry)
           (tail : list str) : list str :=
  [tag_line tag; compare_line]
  ++ section_lines [[]] PR_heading prE
  ++ section_lines [] QA_heading qaE
  ++ section_lines [] DB_heading dbE
  ++ tail.

(** [h] is the text of one of the three headings. *)
Definition a_heading (h : string) : Prop :=
  h = "pull requests:**"%string \/ h = "Internal QA:**"%string
  \/ h = "Deploy Blockers:**"%string.

(** The parts of a document are such that its sections can be found. *)
Definition document_ok (tag : str) (prE qaE dbE : list Entry)
           (tail : list str) : Prop :=
  version_tag tag
  /\ Forall (entry_ok pull_only) prE
  /\ Forall (entry_ok pull_only) qaE
  /\ Forall (entry_ok pull_or_issues) dbE
  /\ forall h, a_heading h -> Forall (passes h) tail.

(** What the parser makes of the line of an entry. *)
Definition PR_item (e : Entry) : GithubUtils.PRItem :=
  GithubUtils.mkPRItem (e_url e ++ e_tail e)
                       (Js.parseInt (trailing_digits (e_url e)))
                       (e_checked e).

Definition resolvable_item (e : Entry) : GithubUtils.ResolvableItem :=
  GithubUtils.mkResolvableItem (e_url e ++ e_tail e)
                               (Js.parseInt (trailing_digits (e_url e)))
                               (e_checked e).

Definition QA_item (e : Entry) : GithubUtils.ResolvableItem :=
  GithubUtils.mkResolvableItem
    (Js.trim (Js.before_dash (e_url e ++ e_tail e)))
    (Js.parseInt (trailing_digits (e_url e)))
    (e_checked e).

Definition ticket (body : str) : GithubUtils.Issue :=
  {| GithubUtils.issue_title := lit "Deploy Checklist";
     GithubUtils.issue_url :=
       lit "https://api.github.com/repos/Expensify/App/issues/1";
     GithubUtils.issue_labels := [];
     GithubUtils.body := body |}.

(** The shape of the three expressions for the verifications. *)
Definition checked_line (sentence : string) : Re.regex :=
  Re.Cat (Re.chr "-")
    (Re.Cat Re.space
       (Re.Cat (Re.text "[x]") (Re.Cat Re.space (Re.text sentence)))).

(** No match of the expression of a verification starts on the line. *)
Definition silent (sentence : string) (l : str) : Prop :=
  forall rest,
    Re.exec (checked_line sentence) (l ++ CRLF ++ rest)
    = Re.exec (checked_line sentence) rest.

(** The lines of a list as they stand in the body, from the first to the
    last: what the expression of a line finds, after the box, in the
    text the expression of the section finds, before any sorting. *)
Definition lines_read (section line : Re.regex) (body : str) : list str :=
  match Re.exec section body with
  | Some x => map (Re.group 2) (Re.matchAll line (Re.group 1 x))
  | None => []
  end.

(** A number the code holds exactly: [Number.isSafeInteger]. *)
Definition safe_integer (n : N) : Prop := (n < 2 ^ 53)%N.

(** What is thrown when the input holds no token: the input is empty, or
    nothing is left of it once trimmed. *)
Definition no_token (value : str) : GithubUtils.Error :=
  match value with
  | [] => GithubUtils.input_required
  | _ => GithubUtils.auth_required
  end.





(** The text holds no dash. *)
Definition dashless (u : str) : Prop :=
  forallb (fun a => negb (Ascii.eqb a "-")) u = true.


(** *** Well-formed input of the generator *)

(** A fetched pull request labelled for internal QA has the URL of a pull
    request and was merged by a user with a name. *)
Definition internal_QA_ok (C : GithubUtils.Const)
           (pr : GithubUtils.PullRequest) : Prop :=
  GithubUtils.isInternalQA C pr = true ->
  pull_URL (GithubUtils.html_url pr)
  /\ exists who, GithubUtils.merged_by pr = Some (GithubUtils.mkUser who)
                 /\ is_name who.

Definition well_formed (C : GithubUtils.Const) (i : GithubUtils.BodyInput)
           (data : list GithubUtils.PullRequest) : Prop :=
  version_tag (GithubUtils.in_tag i)
  /\ Forall pull_URL (GithubUtils.in_PRList i)
  /\ Forall issue_or_pull_URL (GithubUtils.in_deployBlockers i)
  /\ Forall (internal_QA_ok C) data.

(** What parsing a ticket with the generated body gives, the lists in
    ascending order of number. *)
Definition parsed (i : GithubUtils.BodyInput)
           (data : list GithubUtils.PullRequest) (qa : GithubUtils.Obj)
           (issue : GithubUtils.Issue) : GithubUtils.StagingDeployCashData :=
  {| GithubUtils.sdc_title := GithubUtils.issue_title issue;
     GithubUtils.sdc_url := GithubUtils.issue_url issue;
     GithubUtils.sdc_number := issue_or_pull_number (GithubUtils.issue_url issue);
     GithubUtils.sdc_labels := GithubUtils.issue_labels issue;
     GithubUtils.PRList :=
       map (fun u =>
              GithubUtils.mkPRItem u (pull_number u)
                (Js.contains
                   (Js.union (GithubUtils.in_verifiedPRList i) (noQAPRs data))
                   u))
           (mainList i qa);
     GithubUtils.deployBlockers :=
       map (fun u =>
              GithubUtils.mkResolvableItem u (issue_or_pull_number u)
                (Js.contains (GithubUtils.in_resolvedDeployBlockers i) u))
           (blockerList i);
     GithubUtils.internalQAPRList :=
       Js.sortBy GithubUtils.item_number
         (map (fun um =>
                 GithubUtils.mkResolvableItem
                   (fst um)
                   (pull_number (fst um))
                   (Js.contains (GithubUtils.in_resolvedInternalQAPRs i)
                                (fst um)))
              qa);
     GithubUtils.isTimingDashboardChecked :=
       GithubUtils.in_isTimingDashboardChecked i;
     GithubUtils.isFirebaseChecked := GithubUtils.in_isFirebaseChecked i;
     GithubUtils.isGHStatusChecked := GithubUtils.in_isGHStatusChecked i;
     GithubUtils.tag := GithubUtils.in_tag i |}.

(** The delays the plug-in waited for, in order. *)
Definition slept (events : list GithubUtils.Event) : list N :=
  flat_map (fun ev => match ev with
                      | GithubUtils.Slept d => [d]
                      | _ => []
                      end) events.

(** How a request ends on an answer after which it is not sent again. *)
Definition settles (a : GithubUtils.Answer) : GithubUtils.Settled unit :=
  match a with
  | GithubUtils.Answered => GithubUtils.Fulfilled tt
  | GithubUtils.RateLimited e _ => GithubUtils.Rejected e
  | GithubUtils.AbuseLimited e _ => GithubUtils.Rejected e
  | GithubUtils.Failed e => GithubUtils.Rejected e
  end.

(** A route whose listing is cut into the given pages, every request
    succeeding; an empty listing is one empty page. *)
Definition pages_route (D : Type) (pages : list (list D))
  : GithubUtils.Route D :=
  match pages with
  | [] => GithubUtils.mkRoute (GithubUtils.Ok []) []
  | p :: ps => GithubUtils.mkRoute (GithubUtils.Ok p) (map GithubUtils.Ok ps)
  end.

(** The responses of a route, in the order of the requests. *)
Definition responses (D : Type) (route : GithubUtils.Route D)
  : list (GithubUtils.Response D) :=
  GithubUtils.first_response route :: GithubUtils.next_responses route.

Definition page_responses (remote : GithubUtils.Remote)
  : list GithubUtils.PageResponse :=
  GithubUtils.first_page remote :: GithubUtils.next_pages remote.

(** The text starts with a version token [N.N.N]. *)
Definition version_at (s : str) : Prop :=
  exists a b c post,
    s = a ++ lit "." ++ b ++ lit "." ++ c ++ post
    /\ digits a /\ digits b /\ digits c.

(** The URL of a repository: base, owner, repository. *)
Definition repository_URL (u : str) : Prop :=
  exists base o r,
    is_base base /\ is_name o /\ is_name r
    /\ u = base ++ lit "/" ++ o ++ lit "/" ++ r.

Definition is_issue_URL : str -> bool :=
  defined GithubUtils.getIssueNumberFromURL.

(** The text holds, anywhere, a base, two segments of one line, one of
    the kinds and a digit, with slashes between them. *)
Definition holds_numbered_URL (kinds : list string) (u : str) : Prop :=
  exists pre base a b kind d post,
    In kind kinds /\ is_base base
    /\ forallb Re.dotp a = true /\ forallb Re.dotp b = true
    /\ Re.is_digit d = true
    /\ u = pre ++ base ++ lit "/" ++ a ++ lit "/" ++ b ++ lit "/"
             ++ lit kind ++ lit "/" ++ d :: post.

(** What the search for a match finds first: the rest of the text and
    the captures. *)
Definition run (r : Re.regex) (s : str) (c : Re.caps)
  : option (str * Re.caps) :=
  Re.m r s c (fun s' c' => Some (s', c')).

(** The expression with its groups numbered anew. *)
Fixpoint regroup (f : nat -> nat) (r : Re.regex) : Re.regex :=
  match r with
  | Re.Eps => Re.Eps
  | Re.Cls p => Re.Cls p
  | Re.Cat a b => Re.Cat (regroup f a) (regroup f b)
  | Re.Alt a b => Re.Alt (regroup f a) (regroup f b)
  | Re.Star a => Re.Star (regroup f a)
  | Re.Grp i a => Re.Grp (f i) (regroup f a)
  end.

(** No class of the expression accepts the character. *)
Fixpoint blind (x : ascii) (r : Re.regex) : bool :=
  match r with
  | Re.Eps => true
  | Re.Cls p => negb (p x)
  | Re.Cat a b => blind x a && blind x b
  | Re.Alt a b => blind x a && blind x b
  | Re.Star a => blind x a
  | Re.Grp _ a => blind x a
  end.

(** The expression has no group. *)
Fixpoint groupless (r : Re.regex) : bool :=
  match r with
  | Re.Eps => true
  | Re.Cls _ => true
  | Re.Cat a b => groupless a && groupless b
  | Re.Alt a b => groupless a && groupless b
  | Re.Star a => groupless a
  | Re.Grp _ _ => false
  end.

(** [l] holds [h] somewhere. *)
Fixpoint infixb (h l : str) : bool :=
  prefixb h l || match l with [] => false | _ :: l' => infixb h l' end.

(** Values for the examples. *)
Module Sample.
Import GithubUtils.

Definition expensify : Const :=
  {| GITHUB_OWNER := lit "Expensify";
     APP_REPO := lit "App";
     APP_REPO_URL := lit "https://github.com/Expensify/App";
     STAGING_DEPLOY := lit "StagingDeployCash";
     INTERNAL_QA := lit "InternalQA" |}.

Definition pull (n : string) : str :=
  lit "https://github.com/Expensify/App/pull/" ++ lit n.

Definition unavailable : Error :=
  mkError (lit "Service Unavailable") (Some 503%N).

(** A listing whose first answer is an error. *)
Definition failing : PullsList :=
  fun _ => mkRemote (PageFail unavailable) [].

Definition input (tag : string) (PRList : list str) : BodyInput :=
  {| in_tag := lit tag;
     in_PRList := PRList;
     in_verifiedPRList := [];
     in_deployBlockers := [];
     in_resolvedDeployBlockers := [];
     in_resolvedInternalQAPRs := [];
     in_isTimingDashboardChecked := false;
     in_isFirebaseChecked := false;
     in_isGHStatusChecked := false |}.

(** A fetched pull request of the repository. *)
Definition fetched (n : N) (URL : str) (title : string) (labels : list string)
           (merger : string) : PullRequest :=
  {| number := n;
     html_url := URL;
     title := lit title;
     labels := map (fun l => mkLabel (lit l)) labels;
     merged_by := Some (mkUser (lit merger)) |}.

End Sample.

(** * Properties *)

Import Re GithubUtils.

(** ** Strings and lists *)

Lemma str_eqb_spec (a b : str) : str_eqb a b = true <-> a = b.
Proof.
  revert b; induction a as [|x a IH]; intros [|y b]; simpl; split;
    try congruence; try reflexivity.
  - intros H. apply andb_true_iff in H as [H1 H2].
    apply Ascii.eqb_eq in H1. apply IH in H2. congruence.
  - intros H. inversion H; subst. apply andb_true_iff; split.
    + apply Ascii.eqb_refl.
    + now apply IH.
Qed.

Lemma str_eqb_refl (a : str) : str_eqb a a = true.
Proof. now apply str_eqb_spec. Qed.

Lemma str_eqb_neq (a b : str) : a <> b -> str_eqb a b = false.
Proof.
  intros H. destruct (str_eqb a b) eqn:E; [|reflexivity].
  apply str_eqb_spec in E. contradiction.
Qed.

Lemma contains_In (l : list str) (x : str) :
  Js.contains l x = true <-> In x l.
Proof.
  unfold Js.contains. rewrite existsb_exists. split.
  - intros [y [Hy E]]. apply str_eqb_spec in E. now subst.
  - intros H. exists x. split; [assumption | apply str_eqb_refl].
Qed.

(** ** [_.sortBy] *)

Section SortByFacts.
Variable T : Type.
Variable key : T -> N.

Lemma insert_by_perm (x : T) (l : list T) :
    Permutation (Js.insert_by key x l) (x :: l).
  Proof.
    induction l as [|y l IH]; simpl; [reflexivity|].
    destruct (key y <=? key x)%N; [|reflexivity].
    rewrite IH. apply perm_swap.
  Qed.

Lemma insert_by_sorted (x : T) (l : list T) :
    StronglySorted (key_le key) l -> StronglySorted (key_le key) (Js.insert_by key x l).
  Proof.
    induction l as [|y l IH]; intros Hs; simpl.
    - constructor; constructor.
    - inversion Hs as [|? ? Hl Hy]; subst.
      destruct (key y <=? key x)%N eqn:E.
      + apply N.leb_le in E. constructor; [now apply IH|].
        rewrite Forall_forall. intros z Hz.
        apply (Permutation_in _ (insert_by_perm x l)) in Hz.
        destruct Hz as [<-|Hz]; [exact E|].
        rewrite Forall_forall in Hy. now apply Hy.
      + apply N.leb_gt in E. constructor; [assumption|].
        constructor; [unfold key_le; lia|].
        rewrite Forall_forall in *. intros z Hz.
        specialize (Hy z Hz). unfold key_le in *. lia.
  Qed.

Lemma fold_insert_perm (l acc : list T) :
    Permutation (fold_left (fun a x => Js.insert_by key x a) l acc) (acc ++ l).
  Proof.
    revert acc; induction l as [|x l IH]; intros acc; simpl.
    - now rewrite app_nil_r.
    - rewrite IH. rewrite insert_by_perm. simpl. apply Permutation_middle.
  Qed.

Lemma fold_insert_sorted (l acc : list T) :
    StronglySorted (key_le key) acc ->
    StronglySorted (key_le key) (fold_left (fun a x => Js.insert_by key x a) l acc).
  Proof.
    revert acc; induction l as [|x l IH]; intros acc Hs; simpl.
    - assumption.
    - apply IH. now apply insert_by_sorted.
  Qed.

Lemma sortBy_perm (l : list T) : Permutation (Js.sortBy key l) l.
  Proof. unfold Js.sortBy. now rewrite fold_insert_perm. Qed.

Lemma sortBy_sorted (l : list T) : StronglySorted (key_le key) (Js.sortBy key l).
  Proof. apply fold_insert_sorted. constructor. Qed.

Lemma sortBy_In (l : list T) (x : T) : In x (Js.sortBy key l) <-> In x l.
  Proof.
    split; apply Permutation_in;
      [apply sortBy_perm | apply Permutation_sym, sortBy_perm].
  Qed.
End SortByFacts.

(** ** The rate limit *)

Lemma onRateLimit_retries (retryAfter : N) (retryCount : nat) :
  snd (onRateLimit retryAfter retryCount) = Nat.leb retryCount 5.
Proof.
  unfold onRateLimit. now destruct (Nat.leb retryCount 5).
Qed.

(** C3, on the code: against a remote that answers every attempt with the
    rate-limit signal, the handler asks for a retry at the retry counts 0
    to 5, so that the request is attempted 7 times (6 retries, each after
    a warning and the delay asked for) before the error reaches the
    caller; the 7th warning is followed by no retry. *)
Theorem always_rate_limited_seven_attempts (e : Error) (retryAfter : N) (n : nat) :
  exists events,
    request (7 + n) (fun _ => RateLimited e retryAfter) 0
      = Some (events, Rejected e)
    /\ attempts events = 7
    /\ length (filter is_warning events) = 7
    /\ length (filter is_sleep events) = 6.
Proof.
  eexists. split.
  - cbn [request Nat.add handle onRateLimit Nat.leb map app]. reflexivity.
  - repeat split; reflexivity.
Qed.

(** ** The paginated fetch *)

Lemma oldestPR_min (target : list N) (o : N) :
  oldestPR target = Some o ->
  In o target /\ forall x, In x target -> (o <= x)%N.
Proof.
  unfold oldestPR. intros H.
  pose proof (sortBy_sorted (fun n : N => n) target) as Hs.
  pose proof (sortBy_In (fun n : N => n) target) as Hi.
  destruct (Js.sortBy (fun n : N => n) target) as [|y l]; [discriminate|].
  simpl in H. injection H as ->. split.
  - apply Hi. now left.
  - intros x Hx. apply Hi in Hx. destruct Hx as [<-|Hx]; [lia|].
    inversion Hs as [|? ? _ Hall]; subst.
    rewrite Forall_forall in Hall. now apply Hall.
Qed.

Lemma oldestPR_some (target : list N) :
  target <> [] -> exists o, oldestPR target = Some o.
Proof.
  intros Hne. unfold oldestPR.
  pose proof (sortBy_perm (fun n : N => n) target) as Hp.
  destruct (Js.sortBy (fun n : N => n) target) as [|y l].
  - apply Permutation_nil in Hp. contradiction.
  - now exists y.
Qed.

Lemma stop_at_oldest_has_number (o : N) (page : list PullRequest) :
  stop_at_oldest (Some o) page = (page, has_number o page).
Proof. reflexivity. Qed.

Section GatherSteps.
Variable o : option N.
Variables (results : list PullRequest) (requests : nat).
Variable p : list PullRequest.

Lemma gather_page_stop (more : list PageResponse) :
    existsb (is_oldest o) p = true ->
    gather (stop_at_oldest o) results requests (PageOk p) more
    = (Fulfilled (results ++ p), S requests).
  Proof.
    intros H. destruct more; cbn [gather stop_at_oldest]; now rewrite H.
  Qed.

Lemma gather_page_last :
    gather (stop_at_oldest o) results requests (PageOk p) []
    = (Fulfilled (results ++ p), S requests).
  Proof.
    cbn [gather stop_at_oldest]. now destruct (existsb (is_oldest o) p).
  Qed.

Lemma gather_page_next (q : PageResponse) (more : list PageResponse) :
    existsb (is_oldest o) p = false ->
    gather (stop_at_oldest o) results requests (PageOk p) (q :: more)
    = gather (stop_at_oldest o) (results ++ p) (S requests) q more.
  Proof.
    intros H. cbn [gather stop_at_oldest]. now rewrite H.
  Qed.
End GatherSteps.

Lemma gather_stops (o : N) (before : list (list PullRequest)) :
  forall page after p ps results requests,
    Forall (fun q => has_number o q = false) before ->
    has_number o page = true ->
    before ++ page :: after = p :: ps ->
    gather (stop_at_oldest (Some o)) results requests
           (PageOk p) (map PageOk ps)
    = (Fulfilled (results ++ concat (before ++ [page])),
       requests + S (length before)).
Proof.
  induction before as [|b before IH];
    intros page after p ps results requests Hb Hp E; simpl in E.
  - injection E as <- <-.
    rewrite gather_page_stop by exact Hp.
    simpl. rewrite app_nil_r. f_equal. lia.
  - injection E as <- <-.
    inversion Hb as [|? ? Hb0 Hb']; subst.
    destruct before as [|b' before'].
    + cbn [app map]. rewrite gather_page_next by exact Hb0.
      rewrite gather_page_stop by exact Hp.
      simpl. rewrite app_nil_r, app_assoc. f_equal.  lia.
    + cbn [app map]. rewrite gather_page_next by exact Hb0.
      rewrite (IH page after b' (before' ++ page :: after)
                  (results ++ b) (S requests) Hb' Hp eq_refl).
      cbn [concat app length]. rewrite <- !app_assoc. f_equal. lia.
Qed.

(** When no page holds the oldest number, every page is requested. *)
Lemma gather_exhausts (o : option N) (ps : list (list PullRequest)) :
  forall p results requests,
    Forall (fun q => existsb (is_oldest o) q = false) (p :: ps) ->
    gather (stop_at_oldest o) results requests (PageOk p) (map PageOk ps)
    = (Fulfilled (results ++ concat (p :: ps)), requests + S (length ps)).
Proof.
  induction ps as [|q ps IH]; intros p results requests H.
  - cbn [map]. rewrite gather_page_last. simpl. rewrite app_nil_r.
    f_equal. lia.
  - inversion H as [|? ? Hp Hq]; subst.
    cbn [map]. rewrite gather_page_next by exact Hp.
    rewrite IH by exact Hq.
    cbn [concat length]. rewrite <- app_assoc. f_equal. lia.
Qed.

Lemma gather_skips (o : option N) (before : list (list PullRequest)) :
  forall results requests first more r rest,
    first :: more = map PageOk before ++ r :: rest ->
    Forall (fun q => existsb (is_oldest o) q = false) before ->
    gather (stop_at_oldest o) results requests first more
    = gather (stop_at_oldest o) (results ++ concat before)
             (requests + length before) r rest.
Proof.
  induction before as [|b before IH];
    intros results requests first more r rest E H; simpl in E.
  - injection E as -> ->. simpl. now rewrite app_nil_r, Nat.add_0_r.
  - injection E as -> ->. inversion H as [|? ? Hb Hbefore]; subst.
    destruct (map PageOk before ++ r :: rest) as [|q more'] eqn:Em;
      [now destruct before|].
    rewrite gather_page_next by exact Hb.
    rewrite (IH (results ++ b) (S requests) q more' r rest (eq_sym Em) Hbefore).
    cbn [concat length]. rewrite <- app_assoc. f_equal. lia.
Qed.

Lemma requested_In (target : list N) (pr : PullRequest) :
  requested target pr = true <-> In (number pr) target.
Proof.
  unfold requested. rewrite existsb_exists. split.
  - intros [x [Hx E]]. apply N.eqb_eq in E. now rewrite E.
  - intros H. exists (number pr). split; [assumption | apply N.eqb_refl].
Qed.

Lemma holds_oldest_stop (target : list N) (q : list PullRequest) :
  existsb (is_oldest (oldestPR target)) q = holds_oldest target q.
Proof.
  unfold holds_oldest. destruct (oldestPR target); [reflexivity|].
  induction q as [|x q IH]; [reflexivity | exact IH].
Qed.

Lemma holds_oldest_none (target : list N) (l : list (list PullRequest)) :
  Forall (fun q => holds_oldest target q = false) l ->
  Forall (fun q => existsb (is_oldest (oldestPR target)) q = false) l.
Proof.
  apply Forall_impl. intros q. now rewrite holds_oldest_stop.
Qed.

(** The responses of a remote are of one of three kinds: pages up to a
    first one on which the test holds; pages on none of which it holds;
    pages on which it does not hold up to a request that fails. *)
Lemma responses_cases (holds : list PullRequest -> bool)
      (rs : list PageResponse) :
  (exists before page after,
      rs = map PageOk before ++ PageOk page :: after
      /\ Forall (fun q => holds q = false) before /\ holds page = true)
  \/ (exists pages,
         rs = map PageOk pages /\ Forall (fun q => holds q = false) pages)
  \/ (exists before e after,
         rs = map PageOk before ++ PageFail e :: after
         /\ Forall (fun q => holds q = false) before).
Proof.
  induction rs as [|r rs IH].
  - right. left. exists []. split; [reflexivity | constructor].
  - destruct r as [q|e].
    + destruct (holds q) eqn:Eq.
      * left. exists [], q, rs. repeat split; [constructor | exact Eq].
      * destruct IH as [(before & page & after & -> & Hb & Hp)
                       |[(pages & -> & Hp)|(before & e & after & -> & Hb)]].
        -- left. exists (q :: before), page, after.
           repeat split; [now constructor | exact Hp].
        -- right. left. exists (q :: pages). split; [reflexivity|].
           now constructor.
        -- right. right. exists (q :: before), e, after.
           split; [reflexivity | now constructor].
    + right. right. exists [], e, rs. split; [reflexivity | constructor].
Qed.

(** C5: the listing is asked for by creation time, newest first, a hundred
    to a page, and page after page.  The page that holds the smallest of
    the numbers asked for is the last one requested; when no page holds
    it, or no number is asked for, every page is requested.  In both
    cases nothing is written to the console and the result is made of the
    pull requests of the pages fetched whose number was asked for, so
    that a number asked for that is on none of these pages is missing
    from the result without any error.  A request that fails before that
    leaves an error on the console and no result.  Every remote is of one
    of these three kinds.  When the smallest number is on the third of
    250 pages, three requests are made, which is no more than four. *)
Theorem fetchAllPullRequests_stops_at_oldest
        (pulls : PullsList) (target : list N) :
  let fetched := fetchAllPullRequests pulls target in
  let remote := page_responses (pulls pulls_list_parameters) in
  (sort pulls_list_parameters = "created"%string
   /\ direction pulls_list_parameters = "desc"%string
   /\ per_page pulls_list_parameters = 100)
  /\ ((forall o, oldestPR target = Some o ->
                 In o target /\ forall x, In x target -> (o <= x)%N)
      /\ (target <> [] -> exists o, oldestPR target = Some o)
      /\ (target = [] -> forall q, holds_oldest target q = false))
  /\ (forall before page after,
         remote = map PageOk before ++ PageOk page :: after ->
         Forall (fun q => holds_oldest target q = false) before ->
         holds_oldest target page = true ->
         fetched
         = mkFetched [] (S (length before))
             (Some (filter (requested target) (concat (before ++ [page])))))
  /\ (forall pages,
         remote = map PageOk pages ->
         Forall (fun q => holds_oldest target q = false) pages ->
         fetched
         = mkFetched [] (length pages)
             (Some (filter (requested target) (concat pages))))
  /\ (forall before e after,
         remote = map PageOk before ++ PageFail e :: after ->
         Forall (fun q => holds_oldest target q = false) before ->
         fetched
         = mkFetched [(ERROR, "Failed to get PR list"%string)]
                     (S (length before)) None)
  /\ ((exists before page after,
          remote = map PageOk before ++ PageOk page :: after
          /\ Forall (fun q => holds_oldest target q = false) before
          /\ holds_oldest target page = true)
      \/ (exists pages,
             remote = map PageOk pages
             /\ Forall (fun q => holds_oldest target q = false) pages)
      \/ (exists before e after,
             remote = map PageOk before ++ PageFail e :: after
             /\ Forall (fun q => holds_oldest target q = false) before))
  /\ (forall prs, fetch_value fetched = Some prs ->
        fetch_console fetched = []
        /\ exists pages,
             length pages = fetch_requests fetched
             /\ (exists behind, remote = map PageOk pages ++ behind)
             /\ (forall pr, In pr prs <->
                            In pr (concat pages) /\ In (number pr) target)
             /\ (forall n, In n target ->
                           (forall pr, In pr (concat pages) -> number pr <> n) ->
                           forall pr, In pr prs -> number pr <> n))
  /\ (forall before page after,
         remote = map PageOk (before ++ page :: after) ->
         Forall (fun q => holds_oldest target q = false) before ->
         holds_oldest target page = true ->
         length before = 2 -> length (before ++ page :: after) = 250 ->
         fetch_requests fetched = 3 /\ fetch_requests fetched <= 4).
Proof.
  intros fetched remote.
  assert (A : forall before page after,
             remote = map PageOk before ++ PageOk page :: after ->
             Forall (fun q => holds_oldest target q = false) before ->
             holds_oldest target page = true ->
             fetched
             = mkFetched [] (S (length before))
                 (Some (filter (requested target)
                               (concat (before ++ [page]))))).
  { intros before page after E Hb Hp.
    unfold fetched, fetchAllPullRequests, paginate.
    rewrite (@gather_skips (oldestPR target) before [] 0 _ _ (PageOk page)
               after E (@holds_oldest_none target _ Hb)).
    rewrite gather_page_stop by now rewrite holds_oldest_stop.
    rewrite concat_app. cbn [concat app]. rewrite app_nil_r. reflexivity. }
  assert (B : forall pages,
             remote = map PageOk pages ->
             Forall (fun q => holds_oldest target q = false) pages ->
             fetched
             = mkFetched [] (length pages)
                 (Some (filter (requested target) (concat pages)))).
  { intros pages E Hp.
    destruct pages as [|p ps]; [discriminate|].
    unfold remote, page_responses in E. cbn [map] in E.
    injection E as E1 E2.
    unfold fetched, fetchAllPullRequests, paginate. rewrite E1, E2.
    rewrite gather_exhausts by exact (@holds_oldest_none target _ Hp).
    reflexivity. }
  assert (F : forall before e after,
             remote = map PageOk before ++ PageFail e :: after ->
             Forall (fun q => holds_oldest target q = false) before ->
             fetched
             = mkFetched [(ERROR, "Failed to get PR list"%string)]
                         (S (length before)) None).
  { intros before e after E Hb.
    unfold fetched, fetchAllPullRequests, paginate.
    rewrite (@gather_skips (oldestPR target) before [] 0 _ _ (PageFail e)
               after E (@holds_oldest_none target _ Hb)).
    destruct after; reflexivity. }
  pose proof (responses_cases (holds_oldest target) remote) as Cases.
  split; [repeat split; reflexivity|].
  split.
  { split; [intros o; apply oldestPR_min|].
    split; [apply oldestPR_some|].
    intros -> q. reflexivity. }
  split; [exact A|]. split; [exact B|]. split; [exact F|].
  split; [exact Cases|].
  split.
  - assert (M : forall pages prs,
               Some (filter (requested target) (concat pages)) = Some prs ->
               (forall pr, In pr prs <->
                           In pr (concat pages) /\ In (number pr) target)
               /\ (forall n, In n target ->
                     (forall pr, In pr (concat pages) -> number pr <> n) ->
                     forall pr, In pr prs -> number pr <> n)).
    { intros pages prs E. injection E as <-. split.
      - intros pr. now rewrite filter_In, requested_In.
      - intros n _ Hn pr Hpr. apply filter_In in Hpr. now apply Hn. }
    intros prs Hv.
    destruct Cases as [(before & page & after & E & Hb & Hp)
                      |[(pages & E & Hp)|(before & e & after & E & Hb)]].
    + rewrite (A _ _ _ E Hb Hp) in Hv |- *.
      cbn [fetch_value fetch_console fetch_requests] in Hv |- *.
      split; [reflexivity|]. exists (before ++ [page]).
      split; [rewrite length_app; simpl; lia|].
      split; [|now apply M].
      exists after. rewrite E, map_app, <- app_assoc. reflexivity.
    + rewrite (B _ E Hp) in Hv |- *.
      cbn [fetch_value fetch_console fetch_requests] in Hv |- *.
      split; [reflexivity|]. exists pages.
      split; [reflexivity|].
      split; [|now apply M].
      exists []. now rewrite app_nil_r.
    + rewrite (F _ _ _ E Hb) in Hv. discriminate.
  - intros before page after E Hb Hp H2 _.
    rewrite map_app in E. cbn [map] in E.
    rewrite (A _ _ _ E Hb Hp). cbn [fetch_requests]. rewrite H2. split; lia.
Qed.

Lemma fetchAllPullRequests_stops_at_oldest_witness :
  let pr n := mkPullRequest n (lit "u") (lit "t") [] None in
  (let fetched :=
     fetchAllPullRequests
       (fun _ => listing ([[pr 9%N]; [pr 8%N]] ++ [pr 7%N; pr 6%N]
                            :: repeat [] 247))
       [9%N; 7%N] in
   fetch_requests fetched = 3 /\ fetch_requests fetched <= 4)
  /\ fetchAllPullRequests (fun _ => listing [[pr 9%N]; [pr 8%N]; [pr 7%N]])
                          [9%N; 4%N]
     = mkFetched [] 3 (Some [pr 9%N])
  /\ fetchAllPullRequests (fun _ => listing [[pr 9%N]; [pr 8%N]; [pr 7%N]]) []
     = mkFetched [] 3 (Some []).
Proof.
  intros pr. split; [|split].
  - assert (Hb : Forall (fun q => holds_oldest [9%N; 7%N] q = false)
                        [[pr 9%N]; [pr 8%N]])
      by (repeat constructor).
    pose proof (@fetchAllPullRequests_stops_at_oldest
                  (fun _ => listing ([[pr 9%N]; [pr 8%N]] ++ [pr 7%N; pr 6%N]
                                       :: repeat [] 247))
                  [9%N; 7%N]) as H.
    cbv zeta in H.
    destruct H as (_ & _ & _ & _ & _ & _ & _ & H).
    exact (H [[pr 9%N]; [pr 8%N]] [pr 7%N; pr 6%N] (repeat [] 247)
             eq_refl Hb eq_refl eq_refl eq_refl).
  - assert (Hp : Forall (fun q => holds_oldest [9%N; 4%N] q = false)
                        [[pr 9%N]; [pr 8%N]; [pr 7%N]])
      by (repeat constructor).
    pose proof (@fetchAllPullRequests_stops_at_oldest
                  (fun _ => listing [[pr 9%N]; [pr 8%N]; [pr 7%N]])
                  [9%N; 4%N]) as H.
    cbv zeta in H.
    destruct H as (_ & _ & _ & H & _).
    exact (H [[pr 9%N]; [pr 8%N]; [pr 7%N]] eq_refl Hp).
  - assert (Hp : Forall (fun q => holds_oldest [] q = false)
                        [[pr 9%N]; [pr 8%N]; [pr 7%N]])
      by (repeat constructor).
    pose proof (@fetchAllPullRequests_stops_at_oldest
                  (fun _ => listing [[pr 9%N]; [pr 8%N]; [pr 7%N]]) []) as H.
    cbv zeta in H.
    destruct H as (_ & _ & _ & H & _).
    exact (H [[pr 9%N]; [pr 8%N]; [pr 7%N]] eq_refl Hp).
Defined.

(** ** Sorting by a number that may not be there *)

Section SortByMap.
Variables (X Y : Type) (g : X -> Y) (kx : X -> N) (ky : Y -> N).
Hypothesis key_g : forall x, ky (g x) = kx x.

Lemma insert_by_map (x : X) (l : list X) :
    Js.insert_by ky (g x) (map g l) = map g (Js.insert_by kx x l).
  Proof.
    induction l as [|y l IH]; simpl; [reflexivity|].
    rewrite !key_g. destruct (kx y <=? kx x)%N; simpl; [now rewrite IH | reflexivity].
  Qed.

Lemma fold_insert_map (l acc : list X) :
    fold_left (fun a y => Js.insert_by ky y a) (map g l) (map g acc)
    = map g (fold_left (fun a x => Js.insert_by kx x a) l acc).
  Proof.
    revert acc; induction l as [|x l IH]; intros acc; simpl; [reflexivity|].
    rewrite insert_by_map. apply IH.
  Qed.

Lemma sortBy_map (l : list X) :
    Js.sortBy ky (map g l) = map g (Js.sortBy kx l).
  Proof. exact (fold_insert_map l []). Qed.
End SortByMap.

Section Throwing.
Variable f : str -> Error + N.

Lemma map_throwing_defined (l : list str) :
    forallb (defined f) l = true -> map_throwing f l = inr (map (total f) l).
  Proof.
    induction l as [|x l IH]; simpl; [reflexivity|].
    intros H. apply andb_true_iff in H as [Hx Hl].
    unfold defined, total in *. destruct (f x); [discriminate|].
    now rewrite IH.
  Qed.

Lemma map_throwing_inr (l : list str) (ns : list N) :
    map_throwing f l = inr ns -> forallb (defined f) l = true.
  Proof.
    revert ns; induction l as [|x l IH]; intros ns; simpl; [reflexivity|].
    unfold defined at 1. destruct (f x); [discriminate|].
    destruct (map_throwing f l) eqn:E; [discriminate|].
    intros _. simpl. now apply (IH l0).
  Qed.

Lemma sortBy_throwing_defined (l : list str) :
    forallb (defined f) l = true ->
    sortBy_throwing f l = inr (Js.sortBy (total f) l).
  Proof.
    intros H. unfold sortBy_throwing.
    assert (E : map_throwing
                  (fun x => match f x with
                            | inl e => inl e
                            | inr n => inr (x, n)
                            end) l
                = inr (map (fun x => (x, total f x)) l)).
    { induction l as [|x l IH]; simpl; [reflexivity|].
      simpl in H. apply andb_true_iff in H as [Hx Hl].
      unfold defined, total in *. destruct (f x); [discriminate|].
      now rewrite IH. }
    rewrite E. f_equal.
    rewrite (@sortBy_map str (str * N) (fun x => (x, total f x)) (total f) snd)
      by reflexivity.
    rewrite map_map. simpl. apply map_id.
  Qed.
End Throwing.

Lemma unique_acc_In (l seen : list str) (x : str) :
  In x (Js.unique_acc seen l) <-> In x l /\ ~ In x seen.
Proof.
  revert seen; induction l as [|y l IH]; intros seen; simpl; [tauto|].
  destruct (Js.contains seen y) eqn:E.
  - apply contains_In in E. rewrite IH. split.
    + tauto.
    + intros [[<-|H] Hn]; [contradiction | tauto].
  - assert (Hy : ~ In y seen).
    { intros H. apply contains_In in H. congruence. }
    simpl. rewrite IH. simpl. split.
    + intros [<-|[H1 H2]]; tauto.
    + intros [[<-|H] Hn]; [now left|].
      destruct (list_eq_dec ascii_dec y x) as [<-|Hne]; [now left|].
      right. split; [assumption|]. intros [H'|H']; [contradiction | tauto].
Qed.

Lemma unique_In (l : list str) (x : str) : In x (Js.unique l) <-> In x l.
Proof. unfold Js.unique. rewrite unique_acc_In. simpl. tauto. Qed.

Lemma unique_acc_NoDup (l seen : list str) : NoDup (Js.unique_acc seen l).
Proof.
  revert seen; induction l as [|y l IH]; intros seen; simpl; [constructor|].
  destruct (Js.contains seen y); [apply IH|].
  constructor; [|apply IH].
  rewrite unique_acc_In. simpl. tauto.
Qed.

Lemma unique_NoDup (l : list str) : NoDup (Js.unique l).
Proof. apply unique_acc_NoDup. Qed.

Lemma difference_In (l others : list str) (x : str) :
  In x (Js.difference l others) <-> In x l /\ ~ In x others.
Proof.
  unfold Js.difference. rewrite filter_In, negb_true_iff.
  split; intros [H1 H2]; split; try assumption.
  - intros H. apply contains_In in H. congruence.
  - destruct (Js.contains others x) eqn:E; [|reflexivity].
    apply contains_In in E. contradiction.
Qed.

Lemma union_In (a b : list str) (x : str) :
  In x (Js.union a b) <-> In x a \/ In x b.
Proof. unfold Js.union. rewrite unique_In. apply in_app_iff. Qed.

Lemma forallb_incl (P : str -> bool) (l l' : list str) :
  (forall x, In x l' -> In x l) -> forallb P l = true -> forallb P l' = true.
Proof.
  intros Hin H. rewrite forallb_forall in *. auto.
Qed.

(** ** A fetch that fails *)

(** C2, on the code: with a remote whose first answer is an error, the
    fetch is fulfilled (with [undefined]) after a line on the console, and
    the generation is fulfilled with a body that lists the pull request,
    unchecked. *)
Lemma failed_fetch_still_generates :
  let i := Sample.input "1.2.3-4" [Sample.pull "100"] in
  paginate (stop_at_oldest (oldestPR [100%N]))
           (Sample.failing pulls_list_parameters)
    = (Rejected Sample.unavailable, 1)
  /\ fetch_value (fetchAllPullRequests Sample.failing [100%N]) = None
  /\ exists body,
      generateStagingDeployCashBody Sample.expensify Sample.failing i
      = Promise [(ERROR, "Failed to get PR list"%string);
                 (LOG, "Found the following Internal QA PRs:"%string);
                 (LOG, "Found the following NO QA PRs:"%string)]
                1 (Some {| issueBody := body; issueAssignees := [] |})
      /\ body = header (lit "1.2.3-4")
                ++ PR_section [] [Sample.pull "100"]
                ++ verifications false false false ++ footer.
Proof.
  cbv zeta. split; [reflexivity|]. split; [reflexivity|].
  eexists. split; [vm_compute; reflexivity | vm_compute; reflexivity].
Qed.

Lemma difference_nil (l : list str) : Js.difference l [] = l.
Proof.
  induction l as [|x l IH]; [reflexivity|].
  change (x :: Js.difference l [] = x :: l). now f_equal.
Qed.

Lemma unique_defined (f : str -> Error + N) (l : list str) :
  forallb (defined f) l = true -> forallb (defined f) (Js.unique l) = true.
Proof.
  apply forallb_incl. intros x. apply unique_In.
Qed.

(** C2, amended: when the fetch fails, [fetchAllPullRequests] writes the
    failure to the console and is fulfilled with [undefined], and
    [generateStagingDeployCashBody] (given blocker URLs it can number) is
    fulfilled with the body it builds from no fetched pull request: every
    given pull request in the main list, checked when it is in the
    verified list, no internal QA section and nobody to assign. *)
Theorem failed_fetch_is_logged_and_generation_goes_on
        (C : Const) (pulls : PullsList) (i : BodyInput)
        (numbers : list N) (e : Error) (n : nat)
        (Hnumbers : map_throwing getPullRequestNumberFromURL (in_PRList i)
                    = inr numbers)
        (Hblockers : forallb is_issue_or_pull_URL (in_deployBlockers i) = true)
        (Hfail : paginate (stop_at_oldest (oldestPR numbers))
                          (pulls pulls_list_parameters)
                 = (Rejected e, n)) :
  fetchAllPullRequests pulls numbers
  = mkFetched [(ERROR, "Failed to get PR list"%string)] n None
  /\ generateStagingDeployCashBody C pulls i
     = Promise [(ERROR, "Failed to get PR list"%string);
                (LOG, "Found the following Internal QA PRs:"%string);
                (LOG, "Found the following NO QA PRs:"%string)]
               n
               (Some {|
                  issueBody :=
                    header (in_tag i) ++
                    PR_section (Js.unique (in_verifiedPRList i))
                               (Js.sortBy pull_number (Js.unique (in_PRList i))) ++
                    deployBlocker_section
                      (in_deployBlockers i) (in_resolvedDeployBlockers i)
                      (Js.sortBy issue_or_pull_number
                                 (Js.unique (in_deployBlockers i))) ++
                    verifications (in_isTimingDashboardChecked i)
                                  (in_isFirebaseChecked i)
                                  (in_isGHStatusChecked i) ++
                    footer;
                  issueAssignees := [] |}).
Proof.
  assert (F : fetchAllPullRequests pulls numbers
              = mkFetched [(ERROR, "Failed to get PR list"%string)] n None).
  { unfold fetchAllPullRequests. now rewrite Hfail. }
  split; [exact F|].
  unfold generateStagingDeployCashBody. rewrite Hnumbers. cbv zeta.
  rewrite F. cbn [fetch_value fetch_console fetch_requests].
  unfold draft. cbn [filter internalQAPRMap_from keys map].
  rewrite difference_nil.
  rewrite (sortBy_throwing_defined getPullRequestNumberFromURL)
    by (apply unique_defined; exact (map_throwing_inr _ _ Hnumbers)).
  rewrite (sortBy_throwing_defined getIssueOrPullRequestNumberFromURL)
    by (apply unique_defined; exact Hblockers).
  unfold Js.union. rewrite app_nil_r. reflexivity.
Qed.

Lemma failed_fetch_is_logged_and_generation_goes_on_witness :
  exists d,
    generateStagingDeployCashBody Sample.expensify Sample.failing
      (Sample.input "1.2.3-4" [Sample.pull "100"])
    = Promise [(ERROR, "Failed to get PR list"%string);
               (LOG, "Found the following Internal QA PRs:"%string);
               (LOG, "Found the following NO QA PRs:"%string)]
              1 (Some d).
Proof.
  eexists.
  apply (@failed_fetch_is_logged_and_generation_goes_on
           Sample.expensify Sample.failing
           (Sample.input "1.2.3-4" [Sample.pull "100"])
           [100%N] Sample.unavailable 1).
  - vm_compute. reflexivity.
  - reflexivity.
  - reflexivity.
Defined.

(** ** Objects used as maps *)

Lemma obj_has_In (o : Obj) (k : str) : obj_has o k = true <-> In k (keys o).
Proof.
  induction o as [|[k' v'] o IH]; simpl.
  - split; [discriminate | contradiction].
  - rewrite orb_true_iff, IH, str_eqb_spec. reflexivity.
Qed.

Lemma keys_obj_update (o : Obj) (k v : str) : keys (obj_update o k v) = keys o.
Proof.
  induction o as [|[k' v'] o IH]; simpl; [reflexivity|].
  destruct (str_eqb k' k); simpl; [reflexivity | now rewrite IH].
Qed.

Lemma keys_obj_add_index (o : Obj) (i : N) (k v : str) :
  Permutation (keys (obj_add_index o i k v)) (k :: keys o).
Proof.
  induction o as [|[k' v'] o IH]; simpl; [reflexivity|].
  destruct (array_index k') as [j|]; [|reflexivity].
  destruct (j <? i)%N; [|reflexivity].
  simpl. rewrite IH. apply perm_swap.
Qed.

Lemma keys_obj_set (o : Obj) (k v : str) :
  if obj_has o k then keys (obj_set o k v) = keys o
  else Permutation (keys (obj_set o k v)) (k :: keys o).
Proof.
  unfold obj_set. destruct (obj_has o k).
  - apply keys_obj_update.
  - destruct (array_index k).
    + apply keys_obj_add_index.
    + unfold keys. rewrite map_app. simpl.
      apply Permutation_sym, Permutation_cons_append.
Qed.

Lemma keys_obj_set_In (o : Obj) (k v x : str) :
  In x (keys (obj_set o k v)) <-> x = k \/ In x (keys o).
Proof.
  pose proof (keys_obj_set o k v) as H.
  destruct (obj_has o k) eqn:E.
  - rewrite H. apply obj_has_In in E. split; [tauto|].
    intros [->|Hx]; assumption.
  - split; intros Hx.
    + apply (Permutation_in _ H) in Hx. simpl in Hx.
      destruct Hx as [<-|Hx]; tauto.
    + apply (Permutation_in _ (Permutation_sym H)). simpl.
      destruct Hx as [->|Hx]; tauto.
Qed.

Lemma keys_obj_set_NoDup (o : Obj) (k v : str) :
  NoDup (keys o) -> NoDup (keys (obj_set o k v)).
Proof.
  intros Hn. pose proof (keys_obj_set o k v) as H.
  destruct (obj_has o k) eqn:E.
  - now rewrite H.
  - apply (Permutation_NoDup (Permutation_sym H)).
    constructor; [|assumption].
    intros Hin. apply obj_has_In in Hin. congruence.
Qed.

Lemma internalQAPRMap_from_keys (prs : list PullRequest) :
  forall o qa,
    internalQAPRMap_from o prs = inr qa ->
    (NoDup (keys o) -> NoDup (keys qa))
    /\ forall x, In x (keys qa) <->
                 In x (keys o) \/ exists pr, In pr prs /\ html_url pr = x.
Proof.
  induction prs as [|pr prs IH]; intros o qa H; simpl in H.
  - injection H as <-. split; [tauto|].
    intros x. split; [tauto|]. intros [Hx|[pr [[] _]]]. exact Hx.
  - destruct (merged_by pr) as [u|]; [|discriminate].
    apply IH in H as [Hn Hk]. split.
    + intros Ho. apply Hn. now apply keys_obj_set_NoDup.
    + intros x. rewrite Hk, keys_obj_set_In. split.
      * intros [[->|Hx]|[pr' [Hin E]]].
        -- right. exists pr. split; [now left | reflexivity].
        -- now left.
        -- right. exists pr'. split; [now right | assumption].
      * intros [Hx|[pr' [[<-|Hin] E]]].
        -- left. now right.
        -- left. left. now rewrite E.
        -- right. exists pr'. tauto.
Qed.

(** ** The shape of a generated body *)

Lemma sortBy_throwing_inr (f : str -> Error + N) (l r : list str) :
  sortBy_throwing f l = inr r ->
  forallb (defined f) l = true /\ r = Js.sortBy (total f) l.
Proof.
  intros H.
  assert (D : forallb (defined f) l = true).
  { unfold sortBy_throwing in H.
    destruct (map_throwing _ l) as [e|keyed] eqn:E; [discriminate|].
    clear H. revert keyed E.
    induction l as [|x l IH]; intros keyed E; simpl in *; [reflexivity|].
    unfold defined at 1. destruct (f x); [discriminate|].
    destruct (map_throwing _ l) as [e|k'] eqn:E'; [discriminate|].
    simpl. now apply (IH k'). }
  split; [exact D|].
  rewrite (sortBy_throwing_defined f l D) in H. now injection H.
Qed.

Lemma draft_shape (C : Const) (i : BodyInput)
      (data : option (list PullRequest)) (log : Console) (d : IssueDraft) :
  draft C i data = (log, inr d) ->
  exists qa,
    internalQAPRMap_from [] (filter (isInternalQA C) (or_empty data)) = inr qa
    /\ forallb is_pull_URL
         (Js.unique (Js.difference (in_PRList i) (keys qa))) = true
    /\ forallb is_issue_or_pull_URL (Js.unique (in_deployBlockers i)) = true
    /\ issueBody d = body_of i (or_empty data) qa
    /\ issueAssignees d = values qa.
Proof.
  unfold draft. fold (or_empty data).
  destruct (internalQAPRMap_from [] (filter (isInternalQA C) (or_empty data)))
    as [e|qa] eqn:Eqa; [intros H; inversion H|].
  destruct (sortBy_throwing getPullRequestNumberFromURL _) as [e|prs] eqn:Eprs;
    [intros H; inversion H|].
  destruct (sortBy_throwing getIssueOrPullRequestNumberFromURL _)
    as [e|blockers] eqn:Ebl; [intros H; inversion H|].
  apply sortBy_throwing_inr in Eprs as [Dprs ->].
  apply sortBy_throwing_inr in Ebl as [Dbl ->].
  intros H. injection H as _ <-.
  exists qa. repeat split; assumption || reflexivity.
Qed.

(** ** The order of the lists *)

Lemma strictly_sorted (T : Type) (key : T -> N) (l : list T) :
  StronglySorted (key_le key) l ->
  NoDup l ->
  (forall a b, In a l -> In b l -> key a = key b -> a = b) ->
  StronglySorted (key_lt key) l.
Proof.
  induction l as [|x l IH]; intros Hs Hn Hinj; [constructor|].
  inversion Hs as [|? ? Hs' Hx]; subst.
  inversion Hn as [|? ? Hnx Hn']; subst.
  constructor.
  - apply IH; try assumption.
    intros a b Ha Hb. apply Hinj; now right.
  - rewrite Forall_forall in *. intros y Hy.
    specialize (Hx y Hy). unfold key_le, key_lt in *.
    destruct (N.eq_dec (key x) (key y)) as [E|E]; [|lia].
    apply Hinj in E; [subst; contradiction | now left | now right].
Qed.

Lemma sortBy_unique_NoDup (key : str -> N) (l : list str) :
  NoDup (Js.sortBy key (Js.unique l)).
Proof.
  apply (Permutation_NoDup (Permutation_sym (sortBy_perm key (Js.unique l)))).
  apply unique_NoDup.
Qed.

(** On the code: two internal QA pull requests fetched newest first are
    listed in that order, number 102 before number 100: the internal QA
    list is written as the map enumerates it. *)
Lemma internal_QA_list_in_fetch_order :
  let i := Sample.input "1.2.3-4" [Sample.pull "100"; Sample.pull "102"] in
  let data := [Sample.fetched 102 (Sample.pull "102") "b" ["InternalQA"%string] "bob";
               Sample.fetched 100 (Sample.pull "100") "a" ["InternalQA"%string] "alice"] in
  pull_number (Sample.pull "102") = 102%N
  /\ pull_number (Sample.pull "100") = 100%N
  /\ exists log d,
      draft Sample.expensify i (Some data) = (log, inr d)
      /\ issueBody d
         = header (lit "1.2.3-4")
           ++ internalQA_section []
                [(Sample.pull "102", lit "bob"); (Sample.pull "100", lit "alice")]
           ++ verifications false false false ++ footer.
Proof.
  cbv zeta. split; [vm_compute; reflexivity|]. split; [vm_compute; reflexivity|].
  eexists. eexists. split; vm_compute; reflexivity.
Qed.

(** ** The main list and the internal QA list *)

Example NO_QA_marker :
  test NO_QA (lit "Fix typo [No QA]") = true
  /\ test NO_QA (lit "[NOQA] bump version") = true
  /\ test NO_QA (lit "[no qa]") = true
  /\ test NO_QA (lit "[No  QA]") = false
  /\ test NO_QA (lit "No QA") = false.
Proof. repeat split; vm_compute; reflexivity. Qed.

(** C7, on the code: the caller names pull request 100 by its [http] URL,
    the listing returns it, labelled for internal QA, under its [https]
    URL; number 100 is then both in the main list and in the internal QA
    list of the body. *)
Lemma same_number_in_both_lists :
  let given := lit "http://github.com/Expensify/App/pull/100" in
  let i := Sample.input "1.2.3-4" [given] in
  let remote : PullsList :=
    fun _ => listing [[Sample.fetched 100 (Sample.pull "100") "a"
                                      ["InternalQA"%string] "bob"]] in
  pull_number given = 100%N
  /\ pull_number (Sample.pull "100") = 100%N
  /\ exists log body,
      generateStagingDeployCashBody Sample.expensify remote i
      = Promise log 1 (Some {| issueBody := body; issueAssignees := [lit "bob"] |})
      /\ body = header (lit "1.2.3-4")
                ++ PR_section [] [given]
                ++ internalQA_section [] [(Sample.pull "100", lit "bob")]
                ++ verifications false false false ++ footer.
Proof.
  cbv zeta. split; [vm_compute; reflexivity|]. split; [vm_compute; reflexivity|].
  eexists. eexists. split; vm_compute; reflexivity.
Qed.

(** C7, amended: the main list of a generated body is the given list of
    URLs without the URLs of the fetched pull requests labelled for
    internal QA, each URL once, in ascending order of number; a line of it
    is checked exactly when its URL is in the verified list or is the URL
    of a fetched pull request whose title has the no-QA marker; no URL is
    in both the main list and the internal QA list, and no number is when
    the given URL of a number is the URL the listing returns for it. *)
Theorem main_list_is_PRList_minus_internal_QA
        (C : Const) (i : BodyInput) (data : option (list PullRequest))
        (log : Console) (d : IssueDraft)
        (H : draft C i data = (log, inr d)) :
  exists qa,
    issueBody d = body_of i (or_empty data) qa
    /\ (forall u, In u (keys qa) <->
                  exists pr, In pr (or_empty data)
                             /\ isInternalQA C pr = true /\ html_url pr = u)
    /\ mainList i qa
       = Js.sortBy pull_number
           (Js.unique (Js.difference (in_PRList i) (keys qa)))
    /\ (forall u, In u (mainList i qa) <-> In u (in_PRList i) /\ ~ In u (keys qa))
    /\ NoDup (mainList i qa)
    /\ StronglySorted (key_le pull_number) (mainList i qa)
    /\ (forall u,
          PR_line (Js.union (in_verifiedPRList i) (noQAPRs (or_empty data))) u
          = box (Js.contains
                   (Js.union (in_verifiedPRList i) (noQAPRs (or_empty data))) u)
            ++ lit " " ++ u ++ CRLF
          /\ (Js.contains
                (Js.union (in_verifiedPRList i) (noQAPRs (or_empty data))) u = true
              <-> In u (in_verifiedPRList i)
                  \/ exists pr, In pr (or_empty data)
                                /\ test NO_QA (title pr) = true
                                /\ html_url pr = u))
    /\ (forall u, In u (mainList i qa) -> ~ In u (keys qa))
    /\ ((forall u k, In u (in_PRList i) -> In k (keys qa) ->
                     pull_number u = pull_number k -> u = k) ->
        forall u k, In u (mainList i qa) -> In k (keys qa) ->
                    pull_number u <> pull_number k).
Proof.
  apply draft_shape in H as (qa & Hqa & _ & _ & Hbody & _).
  exists qa. split; [exact Hbody|].
  assert (Hmain : forall u, In u (mainList i qa) <->
                            In u (in_PRList i) /\ ~ In u (keys qa)).
  { intros u. unfold mainList.
    now rewrite sortBy_In, unique_In, difference_In. }
  split.
  { intros u. destruct (internalQAPRMap_from_keys _ _ Hqa) as [_ Hk].
    rewrite Hk. simpl. split.
    - intros [[]|[pr [Hin E]]]. apply filter_In in Hin.
      exists pr. tauto.
    - intros [pr [Hin [Hl E]]]. right. exists pr. split; [|assumption].
      apply filter_In. tauto. }
  split; [reflexivity|]. split; [exact Hmain|].
  split; [apply sortBy_unique_NoDup|]. split; [apply sortBy_sorted|].
  split.
  { intros u. split; [reflexivity|].
    rewrite contains_In, union_In. unfold noQAPRs. rewrite in_map_iff.
    split.
    - intros [Hv|[pr [E Hin]]]; [now left|].
      apply filter_In in Hin. right. exists pr. tauto.
    - intros [Hv|[pr [Hin [Ht E]]]]; [now left|].
      right. exists pr. split; [assumption|]. apply filter_In. tauto. }
  split.
  { intros u Hu. now apply Hmain in Hu. }
  intros Hsame u k Hu Hk E. apply Hmain in Hu as [Hu Hn].
  apply Hn. now rewrite (Hsame u k Hu Hk E).
Qed.

Lemma main_list_is_PRList_minus_internal_QA_witness :
  exists qa,
    mainList (Sample.input "1.2.3-4" [Sample.pull "101"; Sample.pull "100"]) qa
    = Js.sortBy pull_number
        (Js.unique
           (Js.difference [Sample.pull "101"; Sample.pull "100"] (keys qa)))
    /\ (forall u, In u (keys qa) <-> u = Sample.pull "100").
Proof.
  destruct (@main_list_is_PRList_minus_internal_QA
              Sample.expensify
              (Sample.input "1.2.3-4" [Sample.pull "101"; Sample.pull "100"])
              (Some [Sample.fetched 100 (Sample.pull "100") "a"
                                    ["InternalQA"%string] "bob"])
              _ _ eq_refl) as (qa & _ & Hk & Hm & _).
  exists qa. split; [exact Hm|].
  intros u. rewrite Hk. split.
  - intros [pr [[<-|[]] [_ E]]]. now rewrite <- E.
  - intros ->. eexists. split; [now left|]. split; reflexivity.
Defined.

(** ** The matcher and what an expression matches *)

Section Sound.
Variable A : Type.

Lemma orelse_Some (x y : option A) (v : A) :
  orelse x y = Some v -> x = Some v \/ (x = None /\ y = Some v).
Proof. destruct x; simpl; intros H; [left | right]; auto. Qed.

Lemma star_sound (a : regex)
      (IH : forall s c (k : cont A) v,
          m a s c k = Some v ->
          exists s' c', matches a s s' /\ k s' c' = Some v) :
  forall n s c (k : cont A) v,
    star (m (A:=A) a) n s c k = Some v ->
    exists s' c', matches (Star a) s s' /\ k s' c' = Some v.
Proof.
  induction n as [|n IHn]; intros s c k v H; simpl in H.
  - exists s, c. split; [constructor | exact H].
  - apply orelse_Some in H as [H|[_ H]].
    + apply IH in H as (s1 & c1 & Ha & H).
      destruct (Nat.ltb (length s1) (length s)) eqn:E; [|discriminate].
      apply Nat.ltb_lt in E.
      apply IHn in H as (s2 & c2 & Hs & H).
      exists s2, c2. split; [|exact H].
      now apply M_StarS with (s1 := s1).
    + exists s, c. split; [constructor | exact H].
Qed.

Lemma m_sound (r : regex) :
  forall s c (k : cont A) v,
    m r s c k = Some v ->
    exists s' c', matches r s s' /\ k s' c' = Some v.
Proof.
  induction r as [|p|a IHa b IHb|a IHa b IHb|a IHa|i a IHa];
    intros s c k v H; simpl in H.
  - exists s, c. split; [constructor | exact H].
  - destruct s as [|x s]; [discriminate|].
    destruct (p x) eqn:E; [|discriminate].
    exists s, c. split; [now constructor | exact H].
  - apply IHa in H as (s1 & c1 & Ha & H).
    apply IHb in H as (s2 & c2 & Hb & H).
    exists s2, c2. split; [now apply M_Cat with (s1 := s1) | exact H].
  - apply orelse_Some in H as [H|[_ H]].
    + apply IHa in H as (s' & c' & Ha & H).
      exists s', c'. split; [now apply M_AltL | exact H].
    + apply IHb in H as (s' & c' & Hb & H).
      exists s', c'. split; [now apply M_AltR | exact H].
  - now apply (star_sound IHa) in H.
  - apply IHa in H as (s' & c' & Ha & H).
    eexists. eexists. split; [apply M_Grp; exact Ha | exact H].
Qed.

Lemma orelse_not_None_l (x y : option A) : x <> None -> orelse x y <> None.
Proof. destruct x; simpl; congruence. Qed.

Lemma orelse_not_None_r (x y : option A) : y <> None -> orelse x y <> None.
Proof. destruct x; simpl; congruence. Qed.

Lemma m_complete (r : regex) (s s' : str) :
  matches r s s' ->
  (forall c (k : cont A), (forall c', k s' c' <> None) -> m r s c k <> None)
  /\ (forall a, r = Star a ->
      forall n, length s <= n ->
      forall c (k : cont A), (forall c', k s' c' <> None) ->
                             star (m (A:=A) a) n s c k <> None).
Proof.
  induction 1 as [s|p x s Hp|a b s s1 s2 Ha [IHa _] Hb [IHb _]
                  |a b s s' Ha [IHa _]|a b s s' Hb [IHb _]
                  |a s|a s s1 s2 Ha [IHa _] Hlt Hs [IHs IHs']
                  |i a s s' Ha [IHa _]].
  - split; [|discriminate]. intros c k Hk. apply Hk.
  - split; [|discriminate]. intros c k Hk. simpl. rewrite Hp. apply Hk.
  - split; [|discriminate]. intros c k Hk. simpl.
    apply IHa. intros c1. now apply IHb.
  - split; [|discriminate]. intros c k Hk. simpl.
    apply orelse_not_None_l. now apply IHa.
  - split; [|discriminate]. intros c k Hk. simpl.
    apply orelse_not_None_r. now apply IHb.
  - assert (G : forall n c (k : cont A),
               (forall c', k s c' <> None) -> star (m (A:=A) a) n s c k <> None).
    { intros [|n] c k Hk; simpl; [apply Hk|].
      apply orelse_not_None_r, Hk. }
    split.
    + intros c k Hk. simpl. now apply G.
    + intros a' E n _ c k Hk. injection E as <-. now apply G.
  - assert (G : forall n, length s <= n -> forall c (k : cont A),
               (forall c', k s2 c' <> None) -> star (m (A:=A) a) n s c k <> None).
    { intros [|n] Hn c k Hk; [lia|]. simpl.
      apply orelse_not_None_l. apply IHa. intros c1.
      apply Nat.ltb_lt in Hlt as E. rewrite E.
      apply (IHs' a eq_refl); [lia | exact Hk]. }
    split.
    + intros c k Hk. simpl. now apply G.
    + intros a' E n Hn c k Hk. injection E as <-. now apply G.
  - split; [|discriminate]. intros c k Hk. simpl.
    apply IHa. intros c1. apply Hk.
Qed.
End Sound.

Lemma matches_suffix (r : regex) (s s' : str) :
  matches r s s' -> exists x, s = x ++ s'.
Proof.
  induction 1 as [s|p x s Hp|a b s s1 s2 _ [x1 ->] _ [x2 ->]
                  |a b s s' _ IH|a b s s' _ IH
                  |a s|a s s1 s2 _ [x1 ->] _ _ [x2 ->]
                  |i a s s' _ IH]; try assumption.
  - now exists [].
  - now exists [x].
  - exists (x1 ++ x2). now rewrite app_assoc.
  - now exists [].
  - exists (x1 ++ x2). now rewrite app_assoc.
Qed.

Lemma exec_at_Some (r : regex) (s : str) (x : result) :
  exec_at r s = Some x -> matches r s (rest x).
Proof.
  unfold exec_at. intros H.
  apply m_sound in H as (s' & c' & Hm & H). injection H as <-. exact Hm.
Qed.

Lemma exec_at_matches (r : regex) (s s' : str) :
  matches r s s' -> exec_at r s <> None.
Proof.
  intros H. unfold exec_at.
  apply (proj1 (m_complete result H)). discriminate.
Qed.

(** [exec] finds a match exactly when the expression matches somewhere. *)
Lemma exec_None (r : regex) (s : str) :
  exec r s = None <->
  forall pre t s', s = pre ++ t -> ~ matches r t s'.
Proof.
  induction s as [|a s IH]; simpl.
  - destruct (exec_at r []) eqn:E.
    + split; [discriminate|]. intros H. exfalso.
      apply (H [] [] (rest r0) eq_refl). now apply exec_at_Some.
    + split; [|reflexivity]. intros _ pre t s' E' Hm.
      destruct pre; [|discriminate]. simpl in E'. subst t.
      now apply exec_at_matches in Hm.
  - destruct (exec_at r (a :: s)) eqn:E.
    + split; [discriminate|]. intros H. exfalso.
      apply (H [] (a :: s) (rest r0) eq_refl). now apply exec_at_Some.
    + rewrite IH. split.
      * intros H pre t s' E' Hm. destruct pre as [|b pre]; simpl in E'.
        -- subst t. now apply exec_at_matches in Hm.
        -- injection E' as -> ->. now apply (H pre t s').
      * intros H pre t s' E'. apply (H (a :: pre)). simpl. now f_equal.
Qed.

(** ** Inverting and building matches *)

Lemma matches_Cat_inv (a b : regex) (s s2 : str) :
  matches (a ;; b) s s2 -> exists s1, matches a s s1 /\ matches b s1 s2.
Proof. intros H. inversion H; subst. eauto. Qed.

Lemma matches_Grp_inv (i : nat) (a : regex) (s s' : str) :
  matches (Grp i a) s s' -> matches a s s'.
Proof. intros H. now inversion H. Qed.

Lemma matches_Cls_inv (p : ascii -> bool) (s s' : str) :
  matches (Cls p) s s' -> exists x, s = x :: s' /\ p x = true.
Proof. intros H. inversion H; subst. eauto. Qed.

Lemma matches_chr_inv (x : ascii) (s s' : str) :
  matches (chr x) s s' -> s = x :: s'.
Proof.
  intros H. apply matches_Cls_inv in H as (y & -> & E).
  apply Ascii.eqb_eq in E. now subst.
Qed.

Lemma matches_Alt_inv (a b : regex) (s s' : str) :
  matches (Alt a b) s s' -> matches a s s' \/ matches b s s'.
Proof. intros H. inversion H; subst; auto. Qed.

Lemma matches_Eps_inv (s s' : str) : matches Eps s s' -> s = s'.
Proof. intros H. now inversion H. Qed.

Lemma matches_seq_chr_inv (h s s' : str) :
  matches (seq_of chr h) s s' -> s = h ++ s'.
Proof.
  revert s; induction h as [|x h IH]; intros s H; simpl in *.
  - now apply matches_Eps_inv.
  - apply matches_Cat_inv in H as (s1 & H1 & H2).
    apply matches_chr_inv in H1. apply IH in H2. now subst.
Qed.

Lemma matches_text_inv (h : string) (s s' : str) :
  matches (text h) s s' -> s = lit h ++ s'.
Proof. apply matches_seq_chr_inv. Qed.

Lemma matches_Star_Cls_inv (p : ascii -> bool) (s s' : str) :
  matches (Star (Cls p)) s s' -> exists u, s = u ++ s' /\ forallb p u = true.
Proof.
  intros H. remember (Star (Cls p)) as r eqn:E.
  induction H as [| | | | |a s|a s s1 s2 Ha _ _ _ IH|]; try discriminate.
  - now exists [].
  - injection E as ->. destruct (IH eq_refl) as (u & -> & Hu).
    apply matches_Cls_inv in Ha as (x & -> & Hx).
    exists (x :: u). split; [reflexivity|]. simpl. now rewrite Hx.
Qed.

Lemma matches_Plus_Cls_inv (p : ascii -> bool) (s s' : str) :
  matches (Plus (Cls p)) s s' ->
  exists u, s = u ++ s' /\ u <> [] /\ forallb p u = true.
Proof.
  intros H. apply matches_Cat_inv in H as (s1 & H1 & H2).
  apply matches_Cls_inv in H1 as (x & -> & Hx).
  apply matches_Star_Cls_inv in H2 as (u & -> & Hu).
  exists (x :: u). repeat split; [discriminate|]. simpl. now rewrite Hx.
Qed.

Lemma matches_seq_chr (h s : str) : matches (seq_of chr h) (h ++ s) s.
Proof.
  induction h as [|x h IH]; simpl; [constructor|].
  apply M_Cat with (s1 := h ++ s); [|exact IH].
  constructor. apply Ascii.eqb_refl.
Qed.

Lemma matches_Star_Cls (p : ascii -> bool) (u s : str) :
  forallb p u = true -> matches (Star (Cls p)) (u ++ s) s.
Proof.
  induction u as [|x u IH]; simpl; intros H; [constructor|].
  apply andb_true_iff in H as [Hx Hu].
  apply M_StarS with (s1 := u ++ s); [now constructor | simpl; lia | auto].
Qed.

Lemma matches_Plus_Cls (p : ascii -> bool) (u s : str) :
  u <> [] -> forallb p u = true -> matches (Plus (Cls p)) (u ++ s) s.
Proof.
  destruct u as [|x u]; [congruence|]. intros _ H. simpl in H.
  apply andb_true_iff in H as [Hx Hu].
  apply M_Cat with (s1 := u ++ s); [now constructor|].
  now apply matches_Star_Cls.
Qed.

(** ** The version token *)

Lemma versionRegex_matches (t : str) :
  (exists s', matches versionRegex t s') <->
  exists a b c post,
    t = a ++ lit "." ++ b ++ lit "." ++ c ++ post
    /\ digits a /\ digits b /\ digits c.
Proof.
  unfold versionRegex, digits. split.
  - intros [s' H].
    apply matches_Cat_inv in H as (s1 & H1 & H).
    apply matches_Grp_inv, matches_Plus_Cls_inv in H1 as (a & -> & Ha & Da).
    apply matches_Cat_inv in H as (s2 & H2 & H).
    apply matches_chr_inv in H2 as ->.
    apply matches_Cat_inv in H as (s3 & H3 & H).
    apply matches_Grp_inv, matches_Plus_Cls_inv in H3 as (b & -> & Hb & Db).
    apply matches_Cat_inv in H as (s4 & H4 & H).
    apply matches_chr_inv in H4 as ->.
    apply matches_Cat_inv in H as (s5 & H5 & H).
    apply matches_Grp_inv, matches_Plus_Cls_inv in H5 as (c & -> & Hc & Dc).
    exists a, b, c, s5. simpl. auto.
  - intros (a & b & c & post & -> & [Ha Da] & [Hb Db] & [Hc Dc]).
    exists post.
    apply M_Cat with (s1 := lit "." ++ b ++ lit "." ++ c ++ post);
      [apply M_Grp; now apply matches_Plus_Cls|].
    apply M_Cat with (s1 := b ++ lit "." ++ c ++ post);
      [constructor; reflexivity|].
    apply M_Cat with (s1 := lit "." ++ c ++ post);
      [apply M_Grp; now apply matches_Plus_Cls|].
    apply M_Cat with (s1 := c ++ post); [constructor; reflexivity|].
    apply M_Cat with (s1 := post); [apply M_Grp; now apply matches_Plus_Cls|].
    apply M_AltR. constructor.
Qed.

Lemma versionRegex_None (body : str) :
  exec versionRegex body = None <-> ~ has_version body.
Proof.
  rewrite exec_None. unfold has_version. split.
  - intros H (pre & a & b & c & post & E & Da & Db & Dc).
    assert (M : exists s', matches versionRegex
                             (a ++ lit "." ++ b ++ lit "." ++ c ++ post) s').
    { apply versionRegex_matches. exists a, b, c, post. auto. }
    destruct M as [s' M]. exact (H pre _ s' E M).
  - intros H pre t s' E M.
    assert (M' : exists s', matches versionRegex t s') by eauto.
    apply versionRegex_matches in M' as (a & b & c & post & -> & D).
    apply H. exists pre, a, b, c, post. auto.
Qed.

(** A section whose heading is not in the body is not found. *)
Lemma no_heading_no_section (heading : string) (r : regex) (body : str) :
  ~ has_heading heading body -> exec (text heading ;; r) body = None.
Proof.
  intros H. apply exec_None. intros pre t s' E M.
  apply matches_Cat_inv in M as (s1 & M1 & _).
  apply matches_text_inv in M1 as ->.
  apply H. now exists pre, s1.
Qed.

(** ** Parsing fails without a tag only *)

Lemma exec_Some (r : regex) (s : str) (x : result) :
  exec r s = Some x -> exists pre t, s = pre ++ t /\ matches r t (rest x).
Proof.
  induction s as [|a s IH]; simpl.
  - destruct (exec_at r []) eqn:E; [|discriminate].
    intros H. injection H as <-. exists [], []. split; [reflexivity|].
    now apply exec_at_Some.
  - destruct (exec_at r (a :: s)) eqn:E.
    + intros H. injection H as <-. exists [], (a :: s).
      split; [reflexivity | now apply exec_at_Some].
    + intros H. apply IH in H as (pre & t & -> & M).
      now exists (a :: pre), t.
Qed.

Lemma versionRegex_Some (body : str) (v : result) :
  exec versionRegex body = Some v -> has_version body.
Proof.
  intros H. apply exec_Some in H as (pre & t & -> & M).
  assert (M' : exists s', matches versionRegex t s') by eauto.
  apply versionRegex_matches in M' as (a & b & c & post & -> & D).
  exists pre, a, b, c, post. auto.
Qed.

(** C9: for a ticket whose own URL is one of an issue, parsing fails, with
    the incorrect-data error, exactly when the body holds no version token
    [N.N.N]; otherwise it succeeds, the tag is the first match of the
    version expression, and each list whose heading is not in the body is
    empty. *)
Theorem parse_fails_exactly_without_version
        (C : Const) (issue : Issue)
        (Hurl : is_issue_or_pull_URL (issue_url issue) = true) :
  (getStagingDeployCashData C issue = inl (incorrect_data C)
   <-> ~ has_version (body issue))
  /\ (has_version (body issue) ->
      exists d v,
        getStagingDeployCashData C issue = inr d
        /\ exec versionRegex (body issue) = Some v
        /\ tag d = remove_backticks (whole v)
        /\ (~ has_heading "pull requests:**" (body issue) -> PRList d = [])
        /\ (~ has_heading "Deploy Blockers:**" (body issue) ->
            deployBlockers d = [])
        /\ (~ has_heading "Internal QA:**" (body issue) ->
            internalQAPRList d = [])).
Proof.
  unfold is_issue_or_pull_URL, defined in Hurl.
  unfold getStagingDeployCashData.
  destruct (getIssueOrPullRequestNumberFromURL (issue_url issue))
    as [e|n]; [discriminate|].
  destruct (exec versionRegex (body issue)) as [v|] eqn:E.
  - apply versionRegex_Some in E as Hv.
    split.
    + split; [discriminate | contradiction].
    + intros _. eexists. exists v. split; [reflexivity|].
      split; [reflexivity|]. split; [reflexivity|].
      cbn [PRList deployBlockers internalQAPRList].
      unfold getStagingDeployCashPRList, getStagingDeployCashDeployBlockers,
        getStagingDeployCashInternalQA.
      split; [|split]; intros Hh.
      * unfold PR_LIST_SECTION. now rewrite no_heading_no_section.
      * unfold DEPLOY_BLOCKER_SECTION. now rewrite no_heading_no_section.
      * unfold INTERNAL_QA_SECTION. now rewrite no_heading_no_section.
  - apply versionRegex_None in E. split.
    + split; [intros _; exact E | reflexivity].
    + intros Hv. contradiction.
Qed.

Lemma parse_fails_exactly_without_version_witness :
  let issue :=
    {| issue_title := lit "Deploy Checklist";
       issue_url := lit "https://api.github.com/repos/Expensify/App/issues/5";
       issue_labels := [];
       body := lit "**Release Version:** `1.2.3-4`" |} in
  exists d,
    getStagingDeployCashData Sample.expensify issue = inr d
    /\ tag d = lit "1.2.3-4" /\ PRList d = [].
Proof.
  intros issue.
  destruct (@parse_fails_exactly_without_version Sample.expensify issue eq_refl)
    as [_ H].
  assert (Hv : has_version (body issue)).
  { exists (lit "**Release Version:** `"), (lit "1"), (lit "2"), (lit "3"),
      (lit "-4`").
    repeat split; discriminate || reflexivity. }
  destruct (H Hv) as (d & v & Hd & Ev & Ht & Hp & _).
  exists d. split; [exact Hd|]. split.
  - rewrite Ht. vm_compute in Ev. injection Ev as <-. reflexivity.
  - apply Hp. intros (pre & post & E).
    assert (Hin : In "p"%char (body issue)).
    { rewrite E. apply in_or_app. right. now left. }
    vm_compute in Hin. intuition discriminate.
Defined.

(** ** Running the matcher on a text of known shape *)

Section Run.
Variable A : Type.
Implicit Types (k : cont A) (c : caps) (s : str).

Lemma m_seq_chr (h : str) s c k : m (seq_of chr h) (h ++ s) c k = k s c.
Proof.
  induction h as [|x h IH]; simpl; [reflexivity|].
  now rewrite Ascii.eqb_refl.
Qed.

Lemma m_text (h : string) s c k : m (text h) (lit h ++ s) c k = k s c.
Proof. apply m_seq_chr. Qed.

Lemma m_chr (x : ascii) s c k : m (chr x) (x :: s) c k = k s c.
Proof. simpl. now rewrite Ascii.eqb_refl. Qed.

Lemma m_eol_CRLF s c k : m eol (CRLF ++ s) c k = k s c.
Proof. cbn. now destruct (k s c). Qed.

Lemma star_Cls_nil (p : ascii -> bool) c k : m (Star (Cls p)) [] c k = k [] c.
Proof. reflexivity. Qed.

Lemma star_Cls_cons (p : ascii -> bool) x s c k :
  m (Star (Cls p)) (x :: s) c k
  = if p x then orelse (m (Star (Cls p)) s c k) (k (x :: s) c)
    else k (x :: s) c.
Proof.
  cbn [m star length]. destruct (p x); [|reflexivity].
  assert (E : Nat.ltb (length s) (S (length s)) = true)
    by (apply Nat.ltb_lt; lia).
  now rewrite E.
Qed.

(** A repetition of a class takes the whole run when what follows accepts
    that. *)
Lemma star_Cls_take (p : ascii -> bool) (u : str) s c k (v : A) :
  forallb p u = true -> stops p s -> k s c = Some v ->
  m (Star (Cls p)) (u ++ s) c k = Some v.
Proof.
  intros Hu Hs Hk. induction u as [|x u IH]; simpl app.
  - destruct s as [|y s]; [exact Hk|].
    rewrite star_Cls_cons. simpl in Hs. now rewrite Hs.
  - simpl in Hu. apply andb_true_iff in Hu as [Hx Hu].
    rewrite star_Cls_cons, Hx, (IH Hu). reflexivity.
Qed.

(** A repetition of a class stops where what follows accepts, when it
    refuses every longer run. *)
Lemma star_Cls_back (p : ascii -> bool) (u : str) s c k (v : A) :
  forallb p u = true ->
  (forall w t, s = w ++ t -> w <> [] -> forallb p w = true -> k t c = None) ->
  k s c = Some v ->
  m (Star (Cls p)) (u ++ s) c k = Some v.
Proof.
  intros Hu Hno Hk.
  assert (G : forall s0 pre, s = pre ++ s0 -> forallb p pre = true ->
            (pre = [] -> m (Star (Cls p)) s0 c k = Some v)
            /\ (pre <> [] -> m (Star (Cls p)) s0 c k = None)).
  { intros s0. induction s0 as [|y s0 IH]; intros pre E Hpre.
    - rewrite star_Cls_nil. split.
      + intros ->. simpl in E. now rewrite <- E.
      + intros Hne. now apply (Hno pre []).
    - rewrite star_Cls_cons. destruct (p y) eqn:Hy.
      + assert (Hd : m (Star (Cls p)) s0 c k = None).
        { apply (IH (pre ++ [y])).
          - rewrite <- app_assoc. exact E.
          - rewrite forallb_app, Hpre. simpl. now rewrite Hy.
          - now destruct pre. }
        rewrite Hd. simpl. split.
        * intros ->. simpl in E. now rewrite <- E.
        * intros Hne. now apply (Hno pre (y :: s0)).
      + split.
        * intros ->. simpl in E. now rewrite <- E.
        * intros Hne. now apply (Hno pre (y :: s0)). }
  assert (E : m (Star (Cls p)) s c k = Some v) by (now apply (G s [])).
  clear G Hno Hk. induction u as [|x u IH]; simpl app; [exact E|].
  simpl in Hu. apply andb_true_iff in Hu as [Hx Hu].
  rewrite star_Cls_cons, Hx, (IH Hu). reflexivity.
Qed.

Lemma firstn_consumed (T : Type) (u s : list T) :
  firstn (length (u ++ s) - length s) (u ++ s) = u.
Proof.
  rewrite length_app.
  replace (length u + length s - length s) with (length u) by lia.
  rewrite firstn_app, Nat.sub_diag, firstn_all. simpl. apply app_nil_r.
Qed.

(** A group around a run of a class, followed by something that accepts. *)
Lemma m_Grp_Plus_take (i : nat) (p : ascii -> bool) (u : str) s c k (v : A) :
  u <> [] -> forallb p u = true -> stops p s ->
  k s ((i, u) :: c) = Some v ->
  m (Grp i (Plus (Cls p))) (u ++ s) c k = Some v.
Proof.
  intros Hne Hu Hs Hk. destruct u as [|x u]; [congruence|].
  simpl in Hu. apply andb_true_iff in Hu as [Hx Hu].
  cbn [m Plus app]. rewrite Hx.
  apply star_Cls_take; [exact Hu | exact Hs |].
  change (x :: u ++ s) with ((x :: u) ++ s).
  now rewrite firstn_consumed.
Qed.
End Run.

(** ** The URL expressions on the URL of a repository *)

Lemma name_char_dotp (a : ascii) : name_char a = true -> dotp a = true.
Proof.
  destruct a as [[] [] [] [] [] [] [] []]; vm_compute; congruence.
Qed.

Lemma name_char_no_slash (a : ascii) :
  name_char a = true -> negb (Ascii.eqb a "/") = true.
Proof.
  destruct a as [[] [] [] [] [] [] [] []]; vm_compute; congruence.
Qed.

Lemma is_digit_name_char (a : ascii) : is_digit a = true -> name_char a = true.
Proof.
  destruct a as [[] [] [] [] [] [] [] []]; vm_compute; congruence.
Qed.

Lemma forallb_impl (T : Type) (P Q : T -> bool) (l : list T) :
  (forall a, P a = true -> Q a = true) ->
  forallb P l = true -> forallb Q l = true.
Proof.
  intros H. rewrite !forallb_forall. auto.
Qed.

Lemma name_dotp (s : str) : is_name s -> forallb dotp s = true.
Proof. apply forallb_impl, name_char_dotp. Qed.

Lemma name_no_slash (s : str) : is_name s -> no_slash s.
Proof. apply forallb_impl, name_char_no_slash. Qed.

Lemma digits_name (s : str) : forallb is_digit s = true -> is_name s.
Proof. apply forallb_impl, is_digit_name_char. Qed.

Lemma line_slashes_app (w t : str) :
  forallb dotp w = true -> line_slashes t <= line_slashes (w ++ t).
Proof.
  induction w as [|a w IH]; simpl; intros H; [lia|].
  apply andb_true_iff in H as [Ha Hw]. rewrite Ha.
  specialize (IH Hw). lia.
Qed.

Lemma line_slashes_plain (w t : str) :
  forallb dotp w = true -> no_slash w ->
  line_slashes (w ++ t) = line_slashes t.
Proof.
  unfold no_slash. induction w as [|a w IH]; simpl; intros H N; [reflexivity|].
  apply andb_true_iff in H as [Ha Hw]. apply andb_true_iff in N as [Na Nw].
  rewrite Ha. apply negb_true_iff in Na. rewrite Na. simpl. now apply IH.
Qed.

Lemma line_slashes_stop (s : str) : stops dotp s -> line_slashes s = 0.
Proof. destruct s as [|a s]; simpl; [reflexivity|]. now intros ->. Qed.

Lemma line_slashes_slash (t : str) :
  line_slashes ("/"%char :: t) = S (line_slashes t).
Proof. reflexivity. Qed.

Section NumberedURL.
Variable A : Type.
Variable kind : regex.
Variable kt : str.
Hypothesis kind_run :
  forall s c (k : cont A) v, k s c = Some v -> m kind (kt ++ s) c k = Some v.
Hypothesis kind_inv :
  forall t s', matches kind t s' -> exists x, t = x ++ s' /\ forallb dotp x = true.
Hypothesis kt_dotp : forallb dotp kt = true.
Hypothesis kt_no_slash : no_slash kt.

Lemma m_Cat (a b : regex) s c (k : cont A) :
  m (a ;; b) s c k = m a s c (fun s' c' => m b s' c' k).
Proof. reflexivity. Qed.

Lemma m_Cat_chr (x : ascii) (r : regex) s c (k : cont A) :
  m (chr x ;; r) (x :: s) c k = m r s c k.
Proof. rewrite m_Cat. cbn [m chr]. now rewrite Ascii.eqb_refl. Qed.

Lemma after_repository_needs_two_slashes (g : nat) (r : regex) t c (k : cont A) :
  line_slashes t < 2 ->
  m (chr "/" ;; kind ;; chr "/" ;; r) t c k = None.
Proof.
  intros Hlt. destruct (m _ t c k) eqn:E; [|reflexivity]. exfalso.
  apply m_sound in E as (s' & c' & M & _).
  apply matches_Cat_inv in M as (s1 & M1 & M).
  apply matches_chr_inv in M1 as ->.
  apply matches_Cat_inv in M as (s2 & M2 & M).
  apply kind_inv in M2 as (x & -> & Hx).
  apply matches_Cat_inv in M as (s3 & M3 & _).
  apply matches_chr_inv in M3 as ->.
  rewrite line_slashes_slash in Hlt.
  pose proof (@line_slashes_app x ("/"%char :: s3) Hx) as H1.
  rewrite line_slashes_slash in H1. lia.
Qed.

Lemma after_owner_needs_three_slashes (r : regex) t c (k : cont A) :
  line_slashes t < 3 ->
  m (chr "/" ;; Star dot ;; chr "/" ;; kind ;; chr "/" ;; r) t c k = None.
Proof.
  intros Hlt. destruct (m _ t c k) eqn:E; [|reflexivity]. exfalso.
  apply m_sound in E as (s' & c' & M & _).
  apply matches_Cat_inv in M as (s1 & M1 & M).
  apply matches_chr_inv in M1 as ->.
  apply matches_Cat_inv in M as (s2 & M2 & M).
  apply matches_Star_Cls_inv in M2 as (y & -> & Hy).
  apply matches_Cat_inv in M as (s3 & M3 & M).
  apply matches_chr_inv in M3 as ->.
  apply matches_Cat_inv in M as (s4 & M4 & M).
  apply kind_inv in M4 as (x & -> & Hx).
  apply matches_Cat_inv in M as (s5 & M5 & _).
  apply matches_chr_inv in M5 as ->.
  rewrite line_slashes_slash in Hlt.
  pose proof (@line_slashes_app y ("/"%char :: x ++ "/"%char :: s5) Hy) as H1.
  rewrite line_slashes_slash in H1.
  pose proof (@line_slashes_app x ("/"%char :: s5) Hx) as H2.
  rewrite line_slashes_slash in H2. lia.
Qed.

(** The slashes of what follows the name of the repository. *)
Lemma line_slashes_number (ds lt after : str) :
  forallb is_digit ds = true -> forallb dotp lt = true -> no_slash lt ->
  stops dotp after ->
  line_slashes ("/"%char :: kt ++ "/"%char :: ds ++ lt ++ after) = 2.
Proof.
  intros Hd Hl Nl Ha.
  rewrite line_slashes_slash, (@line_slashes_plain kt _ kt_dotp kt_no_slash).
  rewrite line_slashes_slash.
  rewrite (@line_slashes_plain ds _ (@name_dotp _ (@digits_name _ Hd))
                               (@name_no_slash _ (@digits_name _ Hd))).
  rewrite (@line_slashes_plain lt _ Hl Nl).
  now rewrite (@line_slashes_stop _ Ha).
Qed.

(** What follows the base, on owner, repository, kind and number, the
    text [lt] to the end of the line and the text [after] it. *)
Lemma path_run (g : nat) (o r ds lt after : str) c (k : cont A) (v : A) :
  forallb dotp o = true ->
  forallb dotp r = true -> no_slash r ->
  digits ds ->
  forallb dotp lt = true -> no_slash lt -> stops is_digit (lt ++ after) ->
  stops dotp after ->
  k after ((g, ds) :: c) = Some v ->
  m (chr "/" ;; Star dot ;; chr "/" ;; Star dot ;; chr "/" ;; kind ;;
     chr "/" ;; Grp g (Plus digit) ;; Star dot)
    ("/"%char :: o ++ "/"%char :: r ++ "/"%char :: kt ++ "/"%char :: ds
       ++ lt ++ after) c k
  = Some v.
Proof.
  intros Ho Hr Nr [Hne Hd] Hl Nl Sd Sa Hk.
  pose proof (@line_slashes_number ds lt after Hd Hl Nl Sa) as L2.
  rewrite m_Cat_chr, m_Cat. apply star_Cls_back; [exact Ho | |].
  - intros w t E Hw Dw.
    apply after_owner_needs_three_slashes.
    destruct w as [|a w]; [congruence|]. injection E as <- E.
    assert (L : line_slashes (w ++ t) = 2).
    { rewrite <- E. now rewrite (@line_slashes_plain r _ Hr Nr). }
    simpl in Dw.
    pose proof (@line_slashes_app w t Dw). lia.
  - rewrite m_Cat_chr, m_Cat. apply star_Cls_back; [exact Hr | |].
    + intros w t E Hw Dw.
      apply (after_repository_needs_two_slashes 0).
      destruct w as [|a w]; [congruence|]. injection E as <- E.
      assert (L : line_slashes (w ++ t) = 1).
      { rewrite <- E. rewrite line_slashes_slash in L2. lia. }
      simpl in Dw.
      pose proof (@line_slashes_app w t Dw). lia.
    + rewrite m_Cat_chr, m_Cat. apply kind_run.
      rewrite m_Cat_chr, m_Cat.
      apply m_Grp_Plus_take; [exact Hne | exact Hd | exact Sd |].
      apply star_Cls_take; [exact Hl | exact Sa | exact Hk].
Qed.
End NumberedURL.

Section Kinds.
Variable A : Type.

Lemma base_run (base : str) s c (k : cont A) (v : A) :
  is_base base -> k s c = Some v ->
  m GITHUB_BASE_URL_SOURCE (base ++ s) c k = Some v.
Proof.
  intros [ -> | [ -> | [ -> | -> ] ] ] Hk; cbn; rewrite Hk; reflexivity.
Qed.

Lemma pull_run s c (k : cont A) (v : A) :
  k s c = Some v -> m (text "pull") (lit "pull" ++ s) c k = Some v.
Proof. intros Hk. now rewrite m_text. Qed.

Lemma pull_inv (t s' : str) :
  matches (text "pull") t s' ->
  exists x, t = x ++ s' /\ forallb dotp x = true.
Proof.
  intros M. apply matches_text_inv in M. now exists (lit "pull").
Qed.

Lemma either_run_pull s c (k : cont A) (v : A) :
  k s c = Some v ->
  m (Alt (text "pull") (text "issues")) (lit "pull" ++ s) c k = Some v.
Proof. intros Hk. cbn. now rewrite Hk. Qed.

Lemma either_run_issues s c (k : cont A) (v : A) :
  k s c = Some v ->
  m (Alt (text "pull") (text "issues")) (lit "issues" ++ s) c k = Some v.
Proof. intros Hk. cbn. now rewrite Hk. Qed.

Lemma either_inv (t s' : str) :
  matches (Alt (text "pull") (text "issues")) t s' ->
  exists x, t = x ++ s' /\ forallb dotp x = true.
Proof.
  intros M. apply matches_Alt_inv in M as [M|M];
    apply matches_text_inv in M.
  - now exists (lit "pull").
  - now exists (lit "issues").
Qed.

(** An expression for numbered URLs on such a URL, the text [lt] to the
    end of the line and the text [after] it: the group is the number. *)
Lemma source_run (kind : regex) (kt : string) (g : nat)
      (u ds lt after : str) c (k : cont A) (v : A) :
  (forall s c (k : cont A) v,
      k s c = Some v -> m kind (lit kt ++ s) c k = Some v) ->
  (forall t s', matches kind t s' ->
                exists x, t = x ++ s' /\ forallb dotp x = true) ->
  forallb dotp (lit kt) = true -> no_slash (lit kt) ->
  numbered_URL kt u ds ->
  forallb dotp lt = true -> no_slash lt -> stops is_digit (lt ++ after) ->
  stops dotp after ->
  k after ((g, ds) :: c) = Some v ->
  m (numbered_url_source kind g) (u ++ lt ++ after) c k = Some v.
Proof.
  intros Krun Kinv Kd Kn (base & o & r & Hb & Ho & Hr & Hds & ->)
         Hl Nl Sd Sa Hk.
  unfold numbered_url_source. rewrite m_Cat.
  rewrite <- !app_assoc. apply base_run; [exact Hb|].
  change (lit "/") with ["/"%char]. cbn [app].
  rewrite <- ?app_assoc. cbn [app].
  apply (@path_run A kind (lit kt) Krun Kinv Kd Kn g o r ds lt after c k v);
    try assumption.
  - now apply name_dotp.
  - now apply name_dotp.
  - now apply name_no_slash.
Qed.
End Kinds.

(** ** Numbers of URLs *)

Lemma exec_of_exec_at (r : regex) (s : str) (x : result) :
  exec_at r s = Some x -> exec r s = Some x.
Proof. intros H. destruct s; simpl; now rewrite H. Qed.

Lemma stops_nil (p : ascii -> bool) : stops p [].
Proof. exact I. Qed.

Lemma exec_at_numbered_URL (kind : regex) (kt : string) (u ds : str) :
  (forall s c (k : cont result) v,
      k s c = Some v -> m kind (lit kt ++ s) c k = Some v) ->
  (forall t s', matches kind t s' ->
                exists x, t = x ++ s' /\ forallb dotp x = true) ->
  forallb dotp (lit kt) = true -> no_slash (lit kt) ->
  numbered_URL kt u ds ->
  exists x, exec_at (numbered_url_source kind 1) u = Some x
            /\ group 1 x = ds.
Proof.
  intros Krun Kinv Kd Kn Hu. eexists. split.
  - unfold exec_at.
    rewrite <- (app_nil_r u) at 1. rewrite <- (app_nil_r (u ++ [])) at 1.
    rewrite <- app_assoc.
    apply (@source_run result kind kt 1 u ds [] []); try assumption;
      try reflexivity; exact I.
  - reflexivity.
Qed.

Lemma pull_number_of (u ds : str) :
  numbered_URL "pull" u ds ->
  getPullRequestNumberFromURL u = inr (Js.parseInt ds).
Proof.
  intros Hu.
  destruct (@exec_at_numbered_URL (text "pull") "pull" u ds
              (@pull_run result) pull_inv eq_refl eq_refl Hu) as (x & E & G).
  unfold getPullRequestNumberFromURL, number_from_URL, PULL_REQUEST_REGEX,
    PULL_REQUEST_SOURCE.
  now rewrite (exec_of_exec_at _ _ E), G.
Qed.

Lemma issue_or_pull_number_of (u ds : str) :
  numbered_URL "pull" u ds \/ numbered_URL "issues" u ds ->
  getIssueOrPullRequestNumberFromURL u = inr (Js.parseInt ds).
Proof.
  intros Hu.
  assert (H : exists x,
             exec_at (numbered_url_source (Alt (text "pull") (text "issues")) 1) u
             = Some x /\ group 1 x = ds).
  { destruct Hu as [Hu|Hu].
    - exact (@exec_at_numbered_URL _ "pull" u ds
               (@either_run_pull result) either_inv eq_refl eq_refl Hu).
    - exact (@exec_at_numbered_URL _ "issues" u ds
               (@either_run_issues result) either_inv eq_refl eq_refl Hu). }
  destruct H as (x & E & G).
  unfold getIssueOrPullRequestNumberFromURL, number_from_URL,
    ISSUE_OR_PULL_REQUEST_REGEX, ISSUE_OR_PULL_REQUEST_SOURCE.
  now rewrite (exec_of_exec_at _ _ E), G.
Qed.

Lemma pull_URL_is_pull_URL (u : str) : pull_URL u -> is_pull_URL u = true.
Proof.
  intros [ds H]. unfold is_pull_URL, defined.
  now rewrite (pull_number_of H).
Qed.

Lemma issue_or_pull_URL_is (u : str) :
  issue_or_pull_URL u -> is_issue_or_pull_URL u = true.
Proof.
  intros [ds H]. unfold is_issue_or_pull_URL, defined.
  now rewrite (issue_or_pull_number_of H).
Qed.

(** ** The lines of a list *)

Section Lines.
Variable A : Type.
Implicit Types (k : cont A) (c : caps) (s : str).

Lemma m_Grp (i : nat) (a : regex) s c k :
  m (Grp i a) s c k
  = m a s c (fun s' c' => k s' ((i, firstn (length s - length s') s) :: c')).
Proof. reflexivity. Qed.

Lemma m_Grp_Cls (i : nat) (p : ascii -> bool) (x : ascii) s c k :
  p x = true -> m (Grp i (Cls p)) (x :: s) c k = k s ((i, [x]) :: c).
Proof.
  intros H. cbn [m]. rewrite H.
  change (x :: s) with ([x] ++ s). now rewrite firstn_consumed.
Qed.

Lemma m_Cat_text (h : string) (r : regex) s c k :
  m (text h ;; r) (lit h ++ s) c k = m r s c k.
Proof. now rewrite m_Cat, m_text. Qed.

(** The box and the space of a line of the main list. *)
Lemma open_PR_LINE (f : bool) (r : regex) s c k :
  m (text "- [" ;; checkbox 1 ;; text "] " ;; r) (box f ++ lit " " ++ s) c k
  = m r s ((1, mark f) :: c) k.
Proof.
  replace (box f ++ lit " " ++ s)
    with (lit "- [" ++ hd " "%char (mark f) :: lit "] " ++ s)
    by (now destruct f).
  rewrite m_Cat_text, m_Cat. unfold checkbox.
  rewrite m_Grp_Cls by (now destruct f).
  rewrite m_Cat_text. now destruct f.
Qed.

(** The box and the space of a line of the other lists. *)
Lemma open_resolvable_LINE (f : bool) (r : regex) s c k :
  m (text "- [" ;; checkbox 1 ;; chr "]" ;; space ;; r)
    (box f ++ lit " " ++ s) c k
  = m r s ((1, mark f) :: c) k.
Proof.
  replace (box f ++ lit " " ++ s)
    with (lit "- [" ++ hd " "%char (mark f) :: "]"%char :: " "%char :: s)
    by (now destruct f).
  rewrite m_Cat_text, m_Cat. unfold checkbox.
  rewrite m_Grp_Cls by (now destruct f).
  rewrite m_Cat_chr, m_Cat. cbn [m space]. now destruct f.
Qed.
End Lines.

Lemma firstn_consumed3 (T : Type) (a b s : list T) :
  firstn (length (a ++ b ++ s) - length s) (a ++ b ++ s) = a ++ b.
Proof. rewrite app_assoc. apply firstn_consumed. Qed.

(** A line expression on the line of a numbered URL: the groups are the
    mark of the box, the text from the URL to the end of the line and the
    number. *)
Lemma entry_exec_at (line kind : regex) (kt : string) (f : bool)
      (u ds lt after : str) :
  (forall s c (k : cont result),
      m line (box f ++ lit " " ++ s) c k
      = m (Grp 2 (numbered_url_source kind 3)) s ((1, mark f) :: c) k) ->
  (forall s c (k : cont result) v,
      k s c = Some v -> m kind (lit kt ++ s) c k = Some v) ->
  (forall t s', matches kind t s' ->
                exists x, t = x ++ s' /\ forallb dotp x = true) ->
  forallb dotp (lit kt) = true -> no_slash (lit kt) ->
  numbered_URL kt u ds ->
  forallb dotp lt = true -> no_slash lt -> stops is_digit (lt ++ after) ->
  stops dotp after ->
  exec_at line (box f ++ lit " " ++ u ++ lt ++ after)
  = Some {| whole := box f ++ lit " " ++ u ++ lt;
            groups := [(2, u ++ lt); (3, ds); (1, mark f)];
            rest := after |}.
Proof.
  intros Hopen Krun Kinv Kd Kn Hu Hl Nl Sd Sa.
  unfold exec_at. rewrite Hopen, m_Grp.
  apply (@source_run result kind kt 3 u ds lt after); try assumption.
  cbv beta. f_equal. f_equal.
  - replace (box f ++ lit " " ++ u ++ lt ++ after)
      with ((box f ++ lit " " ++ u ++ lt) ++ after)
      by (now rewrite <- !app_assoc).
    apply firstn_consumed.
  - now rewrite firstn_consumed3.
Qed.

Lemma PR_LINE_exec_at (f : bool) (u ds lt after : str) :
  numbered_URL "pull" u ds ->
  forallb dotp lt = true -> no_slash lt -> stops is_digit (lt ++ after) ->
  stops dotp after ->
  exec_at PR_LINE (box f ++ lit " " ++ u ++ lt ++ after)
  = Some {| whole := box f ++ lit " " ++ u ++ lt;
            groups := [(2, u ++ lt); (3, ds); (1, mark f)];
            rest := after |}.
Proof.
  apply (@entry_exec_at PR_LINE (text "pull") "pull").
  - intros s c k. apply open_PR_LINE.
  - apply pull_run.
  - apply pull_inv.
  - reflexivity.
  - reflexivity.
Qed.

Lemma INTERNAL_QA_LINE_exec_at (f : bool) (u ds lt after : str) :
  numbered_URL "pull" u ds ->
  forallb dotp lt = true -> no_slash lt -> stops is_digit (lt ++ after) ->
  stops dotp after ->
  exec_at INTERNAL_QA_LINE (box f ++ lit " " ++ u ++ lt ++ after)
  = Some {| whole := box f ++ lit " " ++ u ++ lt;
            groups := [(2, u ++ lt); (3, ds); (1, mark f)];
            rest := after |}.
Proof.
  apply (@entry_exec_at INTERNAL_QA_LINE (text "pull") "pull").
  - intros s c k. apply open_resolvable_LINE.
  - apply pull_run.
  - apply pull_inv.
  - reflexivity.
  - reflexivity.
Qed.

Lemma DEPLOY_BLOCKER_LINE_exec_at (f : bool) (u ds lt after : str) :
  numbered_URL "pull" u ds \/ numbered_URL "issues" u ds ->
  forallb dotp lt = true -> no_slash lt -> stops is_digit (lt ++ after) ->
  stops dotp after ->
  exec_at DEPLOY_BLOCKER_LINE (box f ++ lit " " ++ u ++ lt ++ after)
  = Some {| whole := box f ++ lit " " ++ u ++ lt;
            groups := [(2, u ++ lt); (3, ds); (1, mark f)];
            rest := after |}.
Proof.
  intros [Hu|Hu].
  - apply (@entry_exec_at DEPLOY_BLOCKER_LINE
             (Alt (text "pull") (text "issues")) "pull");
      try reflexivity; try assumption.
    + intros s c k. apply open_resolvable_LINE.
    + apply either_run_pull.
    + apply either_inv.
  - apply (@entry_exec_at DEPLOY_BLOCKER_LINE
             (Alt (text "pull") (text "issues")) "issues");
      try reflexivity; try assumption.
    + intros s c k. apply open_resolvable_LINE.
    + apply either_run_issues.
    + apply either_inv.
Qed.

(** ** All the lines of a list *)

Lemma exec_cons_None (r : regex) (a : ascii) (s : str) :
  exec_at r (a :: s) = None -> exec r (a :: s) = exec r s.
Proof. intros H. simpl. now rewrite H. Qed.

Section MatchAllLines.
Variable r : regex.
Variable T : Type.
Variable content : T -> str.
Variable found : T -> caps.
Hypothesis content_not_nil : forall e, content e <> [].
Hypothesis line_found :
  forall e after,
    exec_at r (content e ++ CRLF ++ after)
    = Some {| whole := content e; groups := found e; rest := CRLF ++ after |}.
Hypothesis not_at_break :
  forall s, exec_at r (CR :: s) = None /\ exec_at r (LF :: s) = None.
Hypothesis not_at_end : exec_at r [] = None.

Lemma exec_after_break (s : str) : exec r (CRLF ++ s) = exec r s.
Proof.
  unfold CRLF. cbn [app].
  rewrite exec_cons_None by apply not_at_break.
  now rewrite exec_cons_None by apply not_at_break.
Qed.

Lemma matchAll_fuel_lines (entries : list T) :
  forall n, length (lines_text content entries) < n ->
            map groups (matchAll_fuel n r (lines_text content entries))
            = map found entries.
Proof.
  induction entries as [|e es IH]; intros n Hn.
  - destruct n as [|n]; [reflexivity|]. cbn [lines_text map concat matchAll_fuel].
    cbn [exec]. now rewrite not_at_end.
  - destruct n as [|n]; [lia|].
    change (lines_text content (e :: es))
      with ((content e ++ CRLF) ++ lines_text content es) in *.
    rewrite <- app_assoc in *.
    cbn [matchAll_fuel].
    rewrite (exec_of_exec_at _ _ (line_found e (lines_text content es))).
    cbn [whole rest map groups]. f_equal.
    destruct (content e) as [|a w] eqn:Ec; [now apply content_not_nil in Ec|].
    rewrite !length_app in Hn. cbn [length] in Hn.
    destruct n as [|n]; [lia|].
    cbn [matchAll_fuel]. rewrite exec_after_break.
    apply (IH (S n)). lia.
Qed.

Lemma matchAll_lines (entries : list T) :
  map groups (matchAll r (lines_text content entries)) = map found entries.
Proof. apply matchAll_fuel_lines. lia. Qed.
End MatchAllLines.

(** ** Looking for a heading, line after line *)

Lemma same_line (w h : str) (x y : ascii) (s t : str) :
  forallb dotp w = true -> forallb dotp h = true ->
  dotp x = false -> dotp y = false ->
  w ++ x :: s = h ++ y :: t -> w = h.
Proof.
  revert h. induction w as [|a w IH]; intros [|b h] Hw Hh Hx Hy E;
    simpl in *.
  - reflexivity.
  - injection E as -> _. apply andb_true_iff in Hh as [Hb _]. congruence.
  - injection E as -> _. apply andb_true_iff in Hw as [Ha _]. congruence.
  - injection E as -> E.
    apply andb_true_iff in Hw as [_ Hw]. apply andb_true_iff in Hh as [_ Hh].
    f_equal. now apply IH.
Qed.

Lemma matches_eol_inv (s s' : str) :
  matches eol s s' -> exists x t, s = x :: t /\ dotp x = false.
Proof.
  intros M. apply matches_Cat_inv in M as (s1 & M1 & M2).
  apply matches_chr_inv in M2 as ->.
  apply matches_Alt_inv in M1 as [M1|M1].
  - apply matches_chr_inv in M1 as ->. now exists CR, (LF :: s').
  - apply matches_Eps_inv in M1 as ->. now exists LF, s'.
Qed.

Section Heading.
Variable h : string.
Variable R : regex.
Hypothesis h_dotp : forallb dotp (lit h) = true.
Hypothesis h_not_nil : lit h <> [].

(** A match at the head of a line is a match of the whole line. *)
Lemma heading_is_line (w : str) (x : ascii) (s : str) :
  forallb dotp w = true -> dotp x = false ->
  exec_at (text h ;; eol ;; R) (w ++ x :: s) <> None -> w = lit h.
Proof.
  intros Hw Hx Hn.
  destruct (exec_at _ (w ++ x :: s)) as [r|] eqn:E; [|congruence].
  apply exec_at_Some in E.
  apply matches_Cat_inv in E as (s1 & M1 & M).
  apply matches_text_inv in M1.
  apply matches_Cat_inv in M as (s2 & M2 & _).
  apply matches_eol_inv in M2 as (y & t & -> & Hy).
  exact (@same_line w (lit h) x y s t Hw h_dotp Hx Hy M1).
Qed.

Lemma no_heading_at_break (x : ascii) (s : str) :
  dotp x = false -> exec_at (text h ;; eol ;; R) (x :: s) = None.
Proof.
  intros Hx. destruct (exec_at _ (x :: s)) eqn:E; [|reflexivity].
  exfalso. apply h_not_nil. symmetry.
  apply (@heading_is_line [] x s eq_refl Hx). simpl. congruence.
Qed.

(** A line that does not end with the heading is passed. *)
Lemma skip_line (content rest : str) :
  forallb dotp content = true ->
  (forall pre, content <> pre ++ lit h) ->
  exec (text h ;; eol ;; R) (content ++ CRLF ++ rest)
  = exec (text h ;; eol ;; R) rest.
Proof.
  intros Hc Hno.
  assert (G : forall w p, content = p ++ w ->
              exec (text h ;; eol ;; R) (w ++ CRLF ++ rest)
              = exec (text h ;; eol ;; R) rest).
  { induction w as [|a w IH]; intros p E.
    - unfold CRLF. cbn [app].
      rewrite exec_cons_None by (now apply no_heading_at_break).
      now rewrite exec_cons_None by (now apply no_heading_at_break).
    - cbn [app]. rewrite exec_cons_None.
      + apply (IH (p ++ [a])). now rewrite <- app_assoc.
      + destruct (exec_at _ (a :: w ++ CRLF ++ rest)) eqn:Ex; [|reflexivity].
        exfalso. apply (Hno p). rewrite E. f_equal.
        apply (@heading_is_line (a :: w) CR (LF :: rest)).
        * rewrite E, forallb_app in Hc. now apply andb_true_iff in Hc.
        * reflexivity.
        * change ((a :: w) ++ CR :: LF :: rest) with (a :: w ++ CRLF ++ rest).
          congruence. }
  now apply (G content []).
Qed.

(** The heading is found at the end of its line. *)
Lemma find_heading (pre rest : str) (x : result) :
  forallb dotp pre = true ->
  exec_at (text h ;; eol ;; R) (lit h ++ CRLF ++ rest) = Some x ->
  exec (text h ;; eol ;; R) (pre ++ lit h ++ CRLF ++ rest) = Some x.
Proof.
  intros Hp Hx. induction pre as [|a pre IH]; cbn [app].
  - now apply exec_of_exec_at.
  - simpl in Hp. apply andb_true_iff in Hp as [Ha Hp].
    rewrite exec_cons_None; [now apply IH|].
    destruct (exec_at _ (a :: pre ++ lit h ++ CRLF ++ rest)) eqn:Ex;
      [|reflexivity].
    exfalso.
    assert (E : (a :: pre) ++ lit h = lit h).
    { apply (@heading_is_line ((a :: pre) ++ lit h) CR (LF :: rest)).
      - rewrite forallb_app. simpl. now rewrite Ha, Hp, h_dotp.
      - reflexivity.
      - rewrite <- app_assoc.
        change (CR :: LF :: rest) with (CRLF ++ rest).
        cbn [app]. cbn [app] in Ex. congruence. }
    apply (f_equal (@length ascii)) in E.
    rewrite length_app in E. simpl in E. lia.
Qed.
End Heading.

(** ** The lines under a heading *)

Section StarLines.
Variable A : Type.
Variable L : regex.
Variable T : Type.
Variable content : T -> str.
Hypothesis L_run :
  forall e s c (k : cont A) v,
    k s c = Some v -> m L (content e ++ CRLF ++ s) c k = Some v.
Hypothesis L_stop : forall s c (k : cont A), m L (CR :: s) c k = None.

Lemma star_lines (entries : list T) :
  forall n s c (k : cont A) v,
    length (lines_text content entries ++ CR :: s) <= n ->
    k (CR :: s) c = Some v ->
    star (m (A:=A) L) n (lines_text content entries ++ CR :: s) c k = Some v.
Proof.
  induction entries as [|e es IH]; intros n s c k v Hn Hk.
  - cbn [lines_text map concat app] in *.
    destruct n as [|n]; [simpl in Hn; lia|].
    cbn [star]. now rewrite L_stop.
  - change (lines_text content (e :: es))
      with ((content e ++ CRLF) ++ lines_text content es) in *.
    rewrite <- !app_assoc in *.
    destruct n as [|n].
    { rewrite !length_app in Hn. simpl in Hn. lia. }
    cbn [star].
    rewrite (L_run e (lines_text content es ++ CR :: s) c _ (v := v));
      [reflexivity|].
    assert (E : Nat.ltb (length (lines_text content es ++ CR :: s))
                        (length (content e ++ CRLF ++ lines_text content es
                                 ++ CR :: s)) = true).
    { apply Nat.ltb_lt. rewrite !length_app. simpl. lia. }
    rewrite E. apply IH; [|exact Hk].
    rewrite !length_app in *. simpl in *. lia.
Qed.

(** One line at least, in a group: the group is the text of the lines. *)
Lemma group_of_lines (i : nat) (entries : list T) s c (k : cont A) (v : A) :
  entries <> [] ->
  k (CR :: s) ((i, lines_text content entries) :: c) = Some v ->
  m (Grp i (Plus L)) (lines_text content entries ++ CR :: s) c k = Some v.
Proof.
  intros Hne Hk. destruct entries as [|e es]; [congruence|].
  rewrite m_Grp. unfold Plus. rewrite m_Cat.
  change (lines_text content (e :: es))
    with ((content e ++ CRLF) ++ lines_text content es) in *.
  rewrite <- !app_assoc.
  apply L_run. cbn [m].
  apply star_lines; [lia|].
  rewrite <- Hk. f_equal. f_equal. f_equal.
  rewrite !app_assoc. rewrite <- (app_assoc (content e)).
  apply firstn_consumed.
Qed.
End StarLines.

(** ** Entries *)

Lemma leading_digits_app (ds s : str) :
  forallb is_digit ds = true -> stops is_digit s ->
  leading_digits (ds ++ s) = ds.
Proof.
  intros Hd Hs. induction ds as [|a ds IH]; cbn [app leading_digits].
  - destruct s as [|x s]; [reflexivity|].
    cbn [stops] in Hs. cbn [leading_digits]. now rewrite Hs.
  - cbn [forallb] in Hd. apply andb_true_iff in Hd as [Ha Hd].
    rewrite Ha. f_equal. now apply IH.
Qed.

Lemma forallb_rev (T : Type) (P : T -> bool) (l : list T) :
  forallb P (rev l) = forallb P l.
Proof.
  induction l as [|a l IH]; simpl; [reflexivity|].
  rewrite forallb_app, IH. simpl. rewrite andb_true_r. apply andb_comm.
Qed.

Lemma trailing_digits_of (kt : string) (u ds : str) :
  numbered_URL kt u ds -> trailing_digits u = ds.
Proof.
  intros (base & o & r & _ & _ & _ & [_ Hd] & ->).
  unfold trailing_digits.
  rewrite !app_assoc. rewrite rev_app_distr.
  rewrite <- !app_assoc. rewrite !rev_app_distr.
  change (rev (lit "/")) with ["/"%char].
  rewrite <- !app_assoc. cbn [app].
  rewrite leading_digits_app.
  - apply rev_involutive.
  - now rewrite forallb_rev.
  - reflexivity.
Qed.

Lemma numbered_URL_dotp (kt : string) (u ds : str) :
  forallb dotp (lit kt) = true ->
  numbered_URL kt u ds -> forallb dotp u = true.
Proof.
  intros Hk (base & o & r & Hb & Ho & Hr & [_ Hd] & ->).
  rewrite !forallb_app.
  rewrite (name_dotp Ho), (name_dotp Hr), (name_dotp (digits_name _ Hd)), Hk.
  destruct Hb as [ -> | [ -> | [ -> | -> ] ] ]; reflexivity.
Qed.

Lemma mention_facts (who : str) :
  is_name who ->
  forallb dotp (lit " - @" ++ who) = true /\ no_slash (lit " - @" ++ who).
Proof.
  intros H. split.
  - rewrite forallb_app, (name_dotp H). reflexivity.
  - unfold no_slash. rewrite forallb_app.
    pose proof (name_no_slash H) as N. unfold no_slash in N. now rewrite N.
Qed.

Lemma entry_tail_facts (kinds : list string) (e : Entry) (after : str) :
  entry_ok kinds e ->
  forallb dotp (e_tail e) = true /\ no_slash (e_tail e)
  /\ stops is_digit (e_tail e ++ CR :: after).
Proof.
  intros [_ [E|(who & Hw & E)]]; rewrite E.
  - repeat split.
  - destruct (mention_facts Hw) as [H1 H2]. repeat split; assumption.
Qed.

Lemma entry_content_app (e : Entry) (after : str) :
  entry_content e ++ after
  = box (e_checked e) ++ lit " " ++ e_url e ++ e_tail e ++ after.
Proof. unfold entry_content. now rewrite <- !app_assoc. Qed.

Lemma entry_exec_at_line (line : regex) (kinds : list string) :
  (forall f u ds lt after kt,
      In kt kinds -> numbered_URL kt u ds ->
      forallb dotp lt = true -> no_slash lt -> stops is_digit (lt ++ after) ->
      stops dotp after ->
      exec_at line (box f ++ lit " " ++ u ++ lt ++ after)
      = Some {| whole := box f ++ lit " " ++ u ++ lt;
                groups := [(2, u ++ lt); (3, ds); (1, mark f)];
                rest := after |}) ->
  forall e after,
    entry_ok kinds e ->
    exec_at line (entry_content e ++ CRLF ++ after)
    = Some {| whole := entry_content e; groups := entry_found e;
              rest := CRLF ++ after |}.
Proof.
  intros Hline e after Hok.
  destruct (entry_tail_facts (LF :: after) Hok) as (Hl & Nl & Sd).
  destruct Hok as [(kt & ds & Hin & Hu) _].
  rewrite entry_content_app. unfold entry_found.
  rewrite (trailing_digits_of Hu).
  now apply (Hline _ _ ds _ _ kt).
Qed.

Lemma PR_LINE_entry (e : Entry) (after : str) :
  entry_ok pull_only e ->
  exec_at PR_LINE (entry_content e ++ CRLF ++ after)
  = Some {| whole := entry_content e; groups := entry_found e;
            rest := CRLF ++ after |}.
Proof.
  apply entry_exec_at_line.
  intros f u ds lt aft kt [ <- | [] ]. apply PR_LINE_exec_at.
Qed.

Lemma INTERNAL_QA_LINE_entry (e : Entry) (after : str) :
  entry_ok pull_only e ->
  exec_at INTERNAL_QA_LINE (entry_content e ++ CRLF ++ after)
  = Some {| whole := entry_content e; groups := entry_found e;
            rest := CRLF ++ after |}.
Proof.
  apply entry_exec_at_line.
  intros f u ds lt aft kt [ <- | [] ]. apply INTERNAL_QA_LINE_exec_at.
Qed.

Lemma DEPLOY_BLOCKER_LINE_entry (e : Entry) (after : str) :
  entry_ok pull_or_issues e ->
  exec_at DEPLOY_BLOCKER_LINE (entry_content e ++ CRLF ++ after)
  = Some {| whole := entry_content e; groups := entry_found e;
            rest := CRLF ++ after |}.
Proof.
  apply entry_exec_at_line.
  intros f u ds lt aft kt [ <- | [ <- | [] ] ] Hu; apply DEPLOY_BLOCKER_LINE_exec_at;
    auto.
Qed.

Lemma kinds_dotp (kinds : list string) (kt : string) :
  kinds = pull_only \/ kinds = pull_or_issues ->
  In kt kinds -> forallb dotp (lit kt) = true.
Proof.
  intros [ -> | -> ] H; simpl in H; intuition (subst; reflexivity).
Qed.

Lemma entry_content_dotp (kinds : list string) (e : Entry) :
  kinds = pull_only \/ kinds = pull_or_issues ->
  entry_ok kinds e ->
  exists w, entry_content e = lit "- [" ++ mark (e_checked e) ++ "]"%char :: w
            /\ forallb dotp w = true.
Proof.
  intros Hk Hok.
  destruct (entry_tail_facts [] Hok) as (Hl & _ & _).
  destruct Hok as [(kt & ds & Hin & Hu) _].
  exists (lit " " ++ e_url e ++ e_tail e). split.
  - unfold entry_content. now destruct (e_checked e).
  - rewrite !forallb_app, Hl.
    rewrite (@numbered_URL_dotp kt _ ds (@kinds_dotp kinds kt Hk Hin) Hu). reflexivity.
Qed.

Lemma entry_content_not_nil (e : Entry) : entry_content e <> [].
Proof. unfold entry_content. now destruct (e_checked e). Qed.

Lemma text_mismatch (A : Type) (h : string) (r : regex) (a x : ascii)
      (s : str) c (k : cont A) :
  hd_error (lit h) = Some a -> a <> x -> m (text h ;; r) (x :: s) c k = None.
Proof.
  intros Hh Hne. rewrite m_Cat. unfold text.
  destruct (lit h) as [|b t]; [discriminate|]. injection Hh as ->.
  cbn [seq_of m chr]. apply Ascii.eqb_neq in Hne. now rewrite Hne.
Qed.

Lemma text_at_end (A : Type) (h : string) (r : regex) (a : ascii)
      c (k : cont A) :
  hd_error (lit h) = Some a -> m (text h ;; r) [] c k = None.
Proof.
  intros Hh. rewrite m_Cat. unfold text.
  destruct (lit h) as [|b t]; [discriminate|]. reflexivity.
Qed.

Lemma Forall_sig (T : Type) (P : T -> Prop) (l : list T) :
  Forall P l -> exists l' : list (sig P), map (@proj1_sig T P) l' = l.
Proof.
  induction 1 as [|x l Hx _ [l' IH]].
  - now exists [].
  - exists (exist P x Hx :: l'). simpl. now rewrite IH.
Qed.

Lemma lines_text_map (X Y : Type) (g : X -> Y) (content : Y -> str)
      (l : list X) :
  lines_text content (map g l) = lines_text (fun x => content (g x)) l.
Proof. unfold lines_text. now rewrite map_map. Qed.

(** The matches of a line expression in the text of a list. *)
Lemma matchAll_entries (line : regex) (kinds : list string)
      (entries : list Entry) :
  (forall e after,
      entry_ok kinds e ->
      exec_at line (entry_content e ++ CRLF ++ after)
      = Some {| whole := entry_content e; groups := entry_found e;
                rest := CRLF ++ after |}) ->
  (forall s, exec_at line (CR :: s) = None /\ exec_at line (LF :: s) = None) ->
  exec_at line [] = None ->
  Forall (entry_ok kinds) entries ->
  map groups (matchAll line (lines_text entry_content entries))
  = map entry_found entries.
Proof.
  intros Hline Hbreak Hend Hok.
  destruct (Forall_sig Hok) as [l' <-].
  rewrite lines_text_map, map_map.
  apply (@matchAll_lines line (sig (entry_ok kinds))
           (fun x => entry_content (proj1_sig x))
           (fun x => entry_found (proj1_sig x))).
  - intros x. apply entry_content_not_nil.
  - intros [e He] after. now apply Hline.
  - exact Hbreak.
  - exact Hend.
Qed.

Lemma line_not_at_break (r : regex) (s : str) :
  exec_at (text "- [" ;; r) (CR :: s) = None
  /\ exec_at (text "- [" ;; r) (LF :: s) = None.
Proof.
  split; apply (@text_mismatch result "- [" r "-"%char); reflexivity || discriminate.
Qed.

Lemma line_not_at_end (r : regex) : exec_at (text "- [" ;; r) [] = None.
Proof. now apply (@text_at_end result "- [" r "-"%char). Qed.

Lemma PR_LINE_matchAll (entries : list Entry) :
  Forall (entry_ok pull_only) entries ->
  map groups (matchAll PR_LINE (lines_text entry_content entries))
  = map entry_found entries.
Proof.
  apply matchAll_entries.
  - intros e after. apply PR_LINE_entry.
  - apply line_not_at_break.
  - apply line_not_at_end.
Qed.

Lemma INTERNAL_QA_LINE_matchAll (entries : list Entry) :
  Forall (entry_ok pull_only) entries ->
  map groups (matchAll INTERNAL_QA_LINE (lines_text entry_content entries))
  = map entry_found entries.
Proof.
  apply matchAll_entries.
  - intros e after. apply INTERNAL_QA_LINE_entry.
  - apply line_not_at_break.
  - apply line_not_at_end.
Qed.

Lemma DEPLOY_BLOCKER_LINE_matchAll (entries : list Entry) :
  Forall (entry_ok pull_or_issues) entries ->
  map groups (matchAll DEPLOY_BLOCKER_LINE (lines_text entry_content entries))
  = map entry_found entries.
Proof.
  apply matchAll_entries.
  - intros e after. apply DEPLOY_BLOCKER_LINE_entry.
  - apply line_not_at_break.
  - apply line_not_at_end.
Qed.

(** ** The sections *)

Lemma m_Cat_Cls (A : Type) (p : ascii -> bool) (x : ascii) (r : regex)
      s c (k : cont A) :
  p x = true -> m (Cls p ;; r) (x :: s) c k = m r s c k.
Proof. intros H. rewrite m_Cat. cbn [m]. now rewrite H. Qed.

Section SectionLines.
Variable A : Type.
Variable kinds : list string.
Hypothesis kinds_known : kinds = pull_only \/ kinds = pull_or_issues.

Lemma dash_line_run (e : Entry) s c (k : cont A) (v : A) :
  entry_ok kinds e -> k s c = Some v ->
  m (chr "-" ;; Star dot ;; eol) (entry_content e ++ CRLF ++ s) c k = Some v.
Proof.
  intros Hok Hk.
  destruct (entry_content_dotp kinds_known Hok) as (w & -> & Hw).
  assert (E : exists u, (lit "- [" ++ mark (e_checked e) ++ "]"%char :: w)
                        ++ CRLF ++ s = "-"%char :: u ++ CRLF ++ s
                        /\ forallb dotp u = true).
  { destruct (e_checked e).
    - exists (" "%char :: "["%char :: "x"%char :: "]"%char :: w).
      split; [reflexivity|]. cbn [forallb]. now rewrite Hw.
    - exists (" "%char :: "["%char :: " "%char :: "]"%char :: w).
      split; [reflexivity|]. cbn [forallb]. now rewrite Hw. }
  destruct E as (u & -> & Hu).
  rewrite m_Cat_chr, m_Cat.
  apply star_Cls_take; [exact Hu | reflexivity | now rewrite m_eol_CRLF].
Qed.

Lemma box_line_run (e : Entry) s c (k : cont A) (v : A) :
  entry_ok kinds e -> k s c = Some v ->
  m (text "- [" ;; Cls (fun a => Ascii.eqb a " " || Ascii.eqb a "x") ;;
     chr "]" ;; Star dot ;; eol)
    (entry_content e ++ CRLF ++ s) c k = Some v.
Proof.
  intros Hok Hk.
  destruct (entry_content_dotp kinds_known Hok) as (w & -> & Hw).
  rewrite <- !app_assoc. rewrite m_Cat_text.
  replace (mark (e_checked e) ++ ("]"%char :: w) ++ CRLF ++ s)
    with (hd " "%char (mark (e_checked e)) :: "]"%char :: w ++ CRLF ++ s)
    by (now destruct (e_checked e)).
  rewrite m_Cat_Cls by (now destruct (e_checked e)).
  rewrite m_Cat_chr, m_Cat.
  apply star_Cls_take; [exact Hw | reflexivity | now rewrite m_eol_CRLF].
Qed.
End SectionLines.

Lemma dash_line_stop (A : Type) s c (k : cont A) :
  m (chr "-" ;; Star dot ;; eol) (CR :: s) c k = None.
Proof. reflexivity. Qed.

Lemma box_line_stop (A : Type) s c (k : cont A) :
  m (text "- [" ;; Cls (fun a => Ascii.eqb a " " || Ascii.eqb a "x") ;;
     chr "]" ;; Star dot ;; eol) (CR :: s) c k = None.
Proof. reflexivity. Qed.

(** The group of a section expression on the lines of a list that a line
    break follows. *)
Lemma group_of_entries (A : Type) (L : regex) (kinds : list string)
      (entries : list Entry) (i : nat) s c (k : cont A) (v : A) :
  (forall e s c (k : cont A) v,
      entry_ok kinds e -> k s c = Some v ->
      m L (entry_content e ++ CRLF ++ s) c k = Some v) ->
  (forall s c (k : cont A), m L (CR :: s) c k = None) ->
  Forall (entry_ok kinds) entries -> entries <> [] ->
  k (CR :: s) ((i, lines_text entry_content entries) :: c) = Some v ->
  m (Grp i (Plus L)) (lines_text entry_content entries ++ CR :: s) c k = Some v.
Proof.
  intros Hrun Hstop Hok Hne Hk.
  destruct (Forall_sig Hok) as [l' E]. subst entries.
  rewrite lines_text_map in *.
  apply (@group_of_lines A L (sig (entry_ok kinds))
           (fun x => entry_content (proj1_sig x))).
  - intros [e He] s0 c0 k0 v0. now apply Hrun.
  - exact Hstop.
  - intros ->. now apply Hne.
  - exact Hk.
Qed.

Lemma after_PR_lines (W : str -> str) (s : str) (c : caps) :
  exists x,
    m (eol ;; Opt (chr CR) ;; Opt (chr LF)) (CRLF ++ s) c
      (fun s' c' => Some (mkResult (W s') c' s')) = Some x
    /\ groups x = c.
Proof.
  rewrite m_Cat, m_eol_CRLF.
  destruct s as [|a [|b s]]; cbn;
    repeat (match goal with
            | |- context [if ?b then _ else _] => destruct b
            end; cbn);
    eexists; split; reflexivity.
Qed.

Lemma PR_LIST_SECTION_at (entries : list Entry) (s : str) :
  Forall (entry_ok pull_only) entries -> entries <> [] ->
  exists x,
    exec_at PR_LIST_SECTION
      (lit "pull requests:**" ++ CRLF ++ lines_text entry_content entries
         ++ CRLF ++ CRLF ++ s) = Some x
    /\ group 1 x = lines_text entry_content entries.
Proof.
  intros Hok Hne.
  unfold exec_at, PR_LIST_SECTION.
  set (W := fun s' : str => firstn (length (lit "pull requests:**" ++ CRLF
              ++ lines_text entry_content entries ++ CRLF ++ CRLF ++ s)
              - length s') (lit "pull requests:**" ++ CRLF
              ++ lines_text entry_content entries ++ CRLF ++ CRLF ++ s)).
  destruct (after_PR_lines W (CRLF ++ s)
              [(1, lines_text entry_content entries)]) as (x & Hx & Gx).
  exists x. split.
  - rewrite m_Cat_text, m_Cat, m_eol_CRLF, m_Cat.
    apply (@group_of_entries result _ pull_only); try assumption.
    + intros e s0 c0 k0 v0. apply dash_line_run. now left.
    + intros s0 c0 k0. apply dash_line_stop.
  - unfold group. now rewrite Gx.
Qed.

Lemma DEPLOY_BLOCKER_SECTION_at (entries : list Entry) (s : str) :
  Forall (entry_ok pull_or_issues) entries -> entries <> [] ->
  exists x,
    exec_at DEPLOY_BLOCKER_SECTION
      (lit "Deploy Blockers:**" ++ CRLF ++ lines_text entry_content entries
         ++ CRLF ++ s) = Some x
    /\ group 1 x = lines_text entry_content entries.
Proof.
  intros Hok Hne. eexists. split.
  - unfold exec_at, DEPLOY_BLOCKER_SECTION.
    rewrite m_Cat_text, m_Cat, m_eol_CRLF.
    apply (@group_of_entries result _ pull_or_issues); try assumption.
    + intros e s0 c0 k0 v0. apply dash_line_run. now right.
    + intros s0 c0 k0. apply dash_line_stop.
    + reflexivity.
  - reflexivity.
Qed.

Lemma INTERNAL_QA_SECTION_at (entries : list Entry) (s : str) :
  Forall (entry_ok pull_only) entries -> entries <> [] ->
  exists x,
    exec_at INTERNAL_QA_SECTION
      (lit "Internal QA:**" ++ CRLF ++ lines_text entry_content entries
         ++ CRLF ++ s) = Some x
    /\ group 1 x = lines_text entry_content entries.
Proof.
  intros Hok Hne. eexists. split.
  - unfold exec_at, INTERNAL_QA_SECTION.
    rewrite m_Cat_text, m_Cat, m_eol_CRLF.
    apply (@group_of_entries result _ pull_only); try assumption.
    + intros e s0 c0 k0 v0. apply box_line_run. now left.
    + intros s0 c0 k0. apply box_line_stop.
    + reflexivity.
  - reflexivity.
Qed.

(** ** A body is its lines *)

Lemma text_of_app (a b : list str) : text_of (a ++ b) = text_of a ++ text_of b.
Proof. unfold text_of, lines_text. now rewrite map_app, concat_app. Qed.

Lemma text_of_cons (l : str) (ls : list str) :
  text_of (l :: ls) = l ++ CRLF ++ text_of ls.
Proof. unfold text_of, lines_text. simpl. now rewrite <- app_assoc. Qed.

Lemma text_of_entries (entries : list Entry) :
  text_of (map entry_content entries) = lines_text entry_content entries.
Proof. unfold text_of. now rewrite lines_text_map. Qed.

Lemma text_of_section (before : list str) (heading : str)
      (entries : list Entry) :
  entries <> [] ->
  text_of (section_lines before heading entries)
  = text_of before ++ heading ++ CRLF ++ lines_text entry_content entries
    ++ CRLF ++ CRLF.
Proof.
  intros Hne. unfold section_lines.
  destruct entries as [|e es]; [congruence|].
  rewrite text_of_app, text_of_cons, text_of_app, text_of_entries.
  reflexivity.
Qed.

Lemma PR_section_lines (verified URLs : list str) :
  PR_section verified URLs
  = text_of (section_lines [[]] PR_heading (PR_entries verified URLs)).
Proof.
  destruct URLs as [|u us]; [reflexivity|].
  rewrite text_of_section by discriminate.
  unfold PR_section, lines_text, PR_entries. rewrite map_map.
  change (text_of [[]]) with CRLF. unfold PR_heading.
  repeat match goal with |- _ ++ _ = _ ++ _ => f_equal end. f_equal.
  apply map_ext. intros a.
  unfold PR_line, entry_content. cbn [e_checked e_url e_tail].
  now rewrite <- !app_assoc.
Qed.

Lemma internalQA_section_lines (resolved : list str) (qa : Obj) :
  internalQA_section resolved qa
  = text_of (section_lines [] QA_heading (QA_entries resolved qa)).
Proof.
  destruct qa as [|[u w] qa]; [reflexivity|].
  rewrite text_of_section by discriminate.
  unfold internalQA_section, lines_text, QA_entries. rewrite map_map.
  change (text_of []) with (@nil ascii). unfold QA_heading.
  cbn [app]. repeat match goal with |- _ ++ _ = _ ++ _ => f_equal end. f_equal.
  apply map_ext. intros [a b].
  unfold internalQA_line, entry_content. cbn [e_checked e_url e_tail fst snd].
  now rewrite <- !app_assoc.
Qed.

Lemma deployBlocker_section_lines (given resolved sorted : list str) :
  (given = [] <-> sorted = []) ->
  deployBlocker_section given resolved sorted
  = text_of (section_lines [] DB_heading (PR_entries resolved sorted)).
Proof.
  intros Hiff. destruct sorted as [|u us].
  - destruct given; [reflexivity|]. destruct Hiff as [_ H].
    specialize (H eq_refl). discriminate.
  - destruct given as [|g gs].
    { destruct Hiff as [H _]. specialize (H eq_refl). discriminate. }
    rewrite text_of_section by discriminate.
    unfold deployBlocker_section, lines_text, PR_entries. rewrite map_map.
    change (text_of []) with (@nil ascii). unfold DB_heading.
    cbn [app]. repeat match goal with |- _ ++ _ = _ ++ _ => f_equal end. f_equal.
    apply map_ext. intros a.
    unfold deployBlocker_line, entry_content. cbn [e_checked e_url e_tail].
    now rewrite <- !app_assoc.
Qed.

Lemma nil_iff_no_member (T : Type) (l : list T) : l = [] <-> forall x, ~ In x l.
Proof.
  split.
  - intros -> x [].
  - intros H. destruct l as [|a l]; [reflexivity|].
    exfalso. apply (H a). now left.
Qed.

Lemma blockerList_nil (i : BodyInput) :
  in_deployBlockers i = [] <-> blockerList i = [].
Proof.
  rewrite !nil_iff_no_member. unfold blockerList.
  split; intros H x Hx; apply (H x).
  - now rewrite sortBy_In, unique_In in Hx.
  - now rewrite sortBy_In, unique_In.
Qed.

Lemma header_lines (tag : str) :
  header tag = text_of [tag_line tag; compare_line].
Proof.
  unfold header, text_of, lines_text, tag_line, compare_line. simpl.
  now rewrite <- !app_assoc.
Qed.

Lemma verifications_lines (timing firebase status : bool) :
  verifications timing firebase status ++ footer
  = text_of (verification_lines timing firebase status).
Proof. destruct timing, firebase, status; reflexivity. Qed.

Lemma body_of_lines (i : BodyInput) (data : list PullRequest) (qa : Obj) :
  body_of i data qa = text_of (body_lines i data qa).
Proof.
  unfold body_of, body_lines, head_lines, PR_lines, QA_lines, DB_lines,
    tail_lines.
  rewrite !text_of_app.
  rewrite <- header_lines, <- PR_section_lines, <- internalQA_section_lines.
  rewrite <- (@deployBlocker_section_lines (in_deployBlockers i)
                (in_resolvedDeployBlockers i) (blockerList i)
                (blockerList_nil i)).
  now rewrite <- verifications_lines.
Qed.

(** ** Looking for a section in the lines of a body *)

Section Scan.
Variable h : string.
Variable R : regex.
Hypothesis h_dotp : forallb dotp (lit h) = true.
Hypothesis h_not_nil : lit h <> [].

Lemma skip_lines (before : list str) (rest : str) :
  Forall (passes h) before ->
  exec (text h ;; eol ;; R) (text_of before ++ rest)
  = exec (text h ;; eol ;; R) rest.
Proof.
  induction 1 as [|l ls [Hd Hn] _ IH]; [reflexivity|].
  rewrite text_of_cons, <- !app_assoc.
  now rewrite (@skip_line h R h_dotp h_not_nil l (text_of ls ++ rest) Hd Hn).
Qed.

Lemma section_absent (lines : list str) :
  Forall (passes h) lines -> exec (text h ;; eol ;; R) (text_of lines) = None.
Proof.
  intros H. rewrite <- (app_nil_r (text_of lines)), skip_lines by exact H.
  cbn [exec]. unfold exec_at.
  destruct (lit h) as [|a t] eqn:E; [congruence|].
  now rewrite (@text_at_end result h _ a) by (now rewrite E).
Qed.

Lemma section_found (before : list str) (pre rest : str) (x : result) :
  Forall (passes h) before -> forallb dotp pre = true ->
  exec_at (text h ;; eol ;; R) (lit h ++ CRLF ++ rest) = Some x ->
  exec (text h ;; eol ;; R)
       (text_of before ++ (pre ++ lit h) ++ CRLF ++ rest) = Some x.
Proof.
  intros Hb Hp Hx. rewrite skip_lines by exact Hb.
  rewrite <- app_assoc.
  exact (@find_heading h R h_dotp pre rest x Hp Hx).
Qed.
End Scan.

(** ** Lines that hold no heading *)

Lemma prefixb_app (h l : str) : prefixb h (h ++ l) = true.
Proof.
  induction h as [|x h IH]; simpl; [reflexivity|].
  now rewrite Ascii.eqb_refl.
Qed.

Lemma not_suffix (h l : str) :
  suffixb h l = false -> forall pre, l <> pre ++ h.
Proof.
  intros H pre ->. unfold suffixb in H.
  rewrite rev_app_distr, prefixb_app in H. discriminate.
Qed.

Lemma no_star_not_suffix (h : string) (l : str) :
  forallb (fun a => negb (Ascii.eqb a "*")) l = true ->
  In "*"%char (lit h) ->
  forall pre, l <> pre ++ lit h.
Proof.
  intros H Hin pre ->. rewrite forallb_forall in H.
  assert (Hs : In "*"%char (pre ++ lit h)) by (apply in_or_app; now right).
  apply H in Hs. discriminate.
Qed.

Lemma name_char_quiet (a : ascii) : name_char a = true -> quiet a = true.
Proof. unfold quiet. now intros ->. Qed.

Lemma quiet_dotp (a : ascii) : quiet a = true -> dotp a = true.
Proof. destruct a as [[] [] [] [] [] [] [] []]; vm_compute; congruence. Qed.

Lemma quiet_no_star (a : ascii) :
  quiet a = true -> negb (Ascii.eqb a "*") = true.
Proof. destruct a as [[] [] [] [] [] [] [] []]; vm_compute; congruence. Qed.

Lemma quiet_no_bracket (a : ascii) :
  quiet a = true -> negb (Ascii.eqb a "[") = true.
Proof. destruct a as [[] [] [] [] [] [] [] []]; vm_compute; congruence. Qed.

Lemma name_quiet (s : str) : is_name s -> forallb quiet s = true.
Proof. apply forallb_impl, name_char_quiet. Qed.

Lemma numbered_URL_quiet (kt : string) (u ds : str) :
  forallb quiet (lit kt) = true ->
  numbered_URL kt u ds ->
  forallb quiet u = true /\ exists t, u = "h"%char :: t.
Proof.
  intros Hk (base & o & r & Hb & Ho & Hr & [_ Hd] & ->). split.
  - rewrite !forallb_app.
    rewrite (name_quiet Ho), (name_quiet Hr), (name_quiet (digits_name _ Hd)), Hk.
    destruct Hb as [ -> | [ -> | [ -> | -> ] ] ]; reflexivity.
  - destruct Hb as [ -> | [ -> | [ -> | -> ] ] ]; eexists; reflexivity.
Qed.

Lemma kinds_quiet (kinds : list string) (kt : string) :
  kinds = pull_only \/ kinds = pull_or_issues ->
  In kt kinds -> forallb quiet (lit kt) = true.
Proof.
  intros [ -> | -> ] H; simpl in H; intuition (subst; reflexivity).
Qed.

(** An entry is its box, a space, and a quiet text that starts with the
    [h] of the URL. *)
Lemma entry_content_quiet (kinds : list string) (e : Entry) :
  kinds = pull_only \/ kinds = pull_or_issues ->
  entry_ok kinds e ->
  exists w, entry_content e
            = lit "- [" ++ mark (e_checked e) ++ lit "] " ++ "h"%char :: w
            /\ forallb quiet w = true.
Proof.
  intros Hk [(kt & ds & Hin & Hu) Ht].
  destruct (@numbered_URL_quiet kt _ ds (@kinds_quiet kinds kt Hk Hin) Hu)
    as [Hq [t Et]].
  exists (t ++ e_tail e). split.
  - unfold entry_content. rewrite Et. now destruct (e_checked e).
  - rewrite Et in Hq. simpl in Hq. rewrite forallb_app, Hq.
    destruct Ht as [ -> | (who & Hw & ->) ]; [reflexivity|].
    rewrite forallb_app, (name_quiet Hw). reflexivity.
Qed.

Lemma entry_passes (kinds : list string) (h : string) (e : Entry) :
  kinds = pull_only \/ kinds = pull_or_issues ->
  In "*"%char (lit h) ->
  entry_ok kinds e -> passes h (entry_content e).
Proof.
  intros Hk Hh Hok.
  destruct (entry_content_quiet Hk Hok) as (w & E & Hq). split.
  - destruct (entry_content_dotp Hk Hok) as (w' & -> & Hw').
    rewrite !forallb_app. cbn [forallb]. rewrite Hw'.
    now destruct (e_checked e).
  - apply no_star_not_suffix; [|exact Hh].
    rewrite E, !forallb_app. cbn [forallb].
    rewrite (@forallb_impl _ quiet _ w quiet_no_star Hq).
    now destruct (e_checked e).
Qed.

Lemma is_digit_tag_char (a : ascii) : is_digit a = true -> tag_char a = true.
Proof. unfold tag_char. now intros ->. Qed.

Lemma version_tag_chars (tag : str) :
  version_tag tag -> forallb tag_char tag = true.
Proof.
  intros (a & b & c & build & -> & [_ Ha] & [_ Hb] & [_ Hc] & Hbuild).
  rewrite !forallb_app.
  rewrite (@forallb_impl _ is_digit tag_char a is_digit_tag_char Ha).
  rewrite (@forallb_impl _ is_digit tag_char b is_digit_tag_char Hb).
  rewrite (@forallb_impl _ is_digit tag_char c is_digit_tag_char Hc).
  destruct Hbuild as [ -> | (d & [_ Hd] & ->) ]; [reflexivity|].
  rewrite forallb_app.
  now rewrite (@forallb_impl _ is_digit tag_char d is_digit_tag_char Hd).
Qed.

Lemma tag_char_dotp (a : ascii) : tag_char a = true -> dotp a = true.
Proof. destruct a as [[] [] [] [] [] [] [] []]; vm_compute; congruence. Qed.

Lemma tag_char_no_bracket (a : ascii) :
  tag_char a = true -> negb (Ascii.eqb a "[") = true.
Proof. destruct a as [[] [] [] [] [] [] [] []]; vm_compute; congruence. Qed.

Lemma tag_char_no_backtick (a : ascii) :
  tag_char a = true -> negb (Ascii.eqb a "`") = true.
Proof. destruct a as [[] [] [] [] [] [] [] []]; vm_compute; congruence. Qed.

Lemma heading_like_facts (h : string) :
  heading_like h -> In "*"%char (lit h) /\ lit h <> [].
Proof.
  intros [_ [h' E]]. split.
  - apply in_rev. rewrite E. now left.
  - intros E'. rewrite E' in E. discriminate.
Qed.

Lemma tag_line_passes (h : string) (tag : str) :
  heading_like h -> version_tag tag -> passes h (tag_line tag).
Proof.
  intros [_ [h' E]] Ht. split.
  - unfold tag_line. rewrite !forallb_app.
    rewrite (@forallb_impl _ tag_char dotp tag tag_char_dotp
               (version_tag_chars Ht)).
    reflexivity.
  - apply not_suffix. unfold suffixb, tag_line.
    rewrite E, !rev_app_distr. reflexivity.
Qed.

Lemma blank_passes (h : string) : heading_like h -> passes h [].
Proof.
  intros Hh. split; [reflexivity|].
  intros pre E. destruct (heading_like_facts Hh) as [_ Hn].
  destruct pre; simpl in E; [now apply Hn | discriminate].
Qed.

Lemma section_passes (h : string) (kinds : list string)
      (before : list str) (heading : str) (entries : list Entry) :
  heading_like h ->
  kinds = pull_only \/ kinds = pull_or_issues ->
  Forall (passes h) before -> passes h heading ->
  Forall (entry_ok kinds) entries ->
  Forall (passes h) (section_lines before heading entries).
Proof.
  intros Hh Hk Hb Hhead Hok. unfold section_lines.
  destruct entries as [|e es]; [constructor|].
  apply Forall_app. split; [exact Hb|].
  constructor; [exact Hhead|].
  apply Forall_app. split.
  - rewrite Forall_map. revert Hok. apply Forall_impl. intros x.
    apply entry_passes; [exact Hk|]. now apply heading_like_facts.
  - repeat constructor; now apply blank_passes.
Qed.

Ltac concrete_passes :=
  split; [vm_compute; reflexivity | apply not_suffix; vm_compute; reflexivity].

Lemma like_PR : heading_like "pull requests:**".
Proof. split; [reflexivity | eexists; reflexivity]. Qed.

Lemma like_QA : heading_like "Internal QA:**".
Proof. split; [reflexivity | eexists; reflexivity]. Qed.

Lemma like_DB : heading_like "Deploy Blockers:**".
Proof. split; [reflexivity | eexists; reflexivity]. Qed.

Section ConcreteLines.
Variable h : string.
Hypothesis h_known :
  h = "pull requests:**"%string \/ h = "Internal QA:**"%string
  \/ h = "Deploy Blockers:**"%string.

Lemma h_like : heading_like h.
Proof.
  destruct h_known as [ -> | [ -> | -> ] ];
    [apply like_PR | apply like_QA | apply like_DB].
Qed.

Lemma head_lines_pass (i : BodyInput) :
  version_tag (in_tag i) -> Forall (passes h) (head_lines i).
Proof.
  intros Ht. constructor; [apply tag_line_passes; [apply h_like | exact Ht]|].
  constructor; [|constructor].
  destruct h_known as [ -> | [ -> | -> ] ]; concrete_passes.
Qed.

Lemma verification_lines_pass (timing firebase status : bool) :
  Forall (passes h) (verification_lines timing firebase status).
Proof.
  destruct h_known as [ -> | [ -> | -> ] ];
    destruct timing, firebase, status;
    repeat (constructor; [concrete_passes|]); constructor.
Qed.
End ConcreteLines.

Lemma PR_heading_passes (h : string) :
  h = "Internal QA:**"%string \/ h = "Deploy Blockers:**"%string ->
  passes h PR_heading.
Proof. intros [ -> | -> ]; concrete_passes. Qed.

Lemma QA_heading_passes (h : string) :
  h = "pull requests:**"%string \/ h = "Deploy Blockers:**"%string ->
  passes h QA_heading.
Proof. intros [ -> | -> ]; concrete_passes. Qed.

Lemma DB_heading_passes (h : string) :
  h = "pull requests:**"%string \/ h = "Internal QA:**"%string ->
  passes h DB_heading.
Proof. intros [ -> | -> ]; concrete_passes. Qed.

(** ** Finding the three sections of a document *)

Lemma head_passes (h : string) (tag : str) :
  a_heading h -> version_tag tag ->
  Forall (passes h) [tag_line tag; compare_line].
Proof.
  intros Hh Ht.
  exact (@head_lines_pass h Hh (mkBodyInput tag [] [] [] [] [] false false false)
           Ht).
Qed.

Lemma PR_section_passes (h : string) (prE : list Entry) :
  h = "Internal QA:**"%string \/ h = "Deploy Blockers:**"%string ->
  Forall (entry_ok pull_only) prE ->
  Forall (passes h) (section_lines [[]] PR_heading prE).
Proof.
  intros Hh Hok.
  assert (Hl : heading_like h)
    by (destruct Hh as [ -> | -> ]; [apply like_QA | apply like_DB]).
  apply (@section_passes _ pull_only); auto.
  - constructor; [now apply blank_passes | constructor].
  - now apply PR_heading_passes.
Qed.

Lemma QA_section_passes (h : string) (qaE : list Entry) :
  h = "pull requests:**"%string \/ h = "Deploy Blockers:**"%string ->
  Forall (entry_ok pull_only) qaE ->
  Forall (passes h) (section_lines [] QA_heading qaE).
Proof.
  intros Hh Hok.
  assert (Hl : heading_like h)
    by (destruct Hh as [ -> | -> ]; [apply like_PR | apply like_DB]).
  apply (@section_passes _ pull_only); auto.
  now apply QA_heading_passes.
Qed.

Lemma DB_section_passes (h : string) (dbE : list Entry) :
  h = "pull requests:**"%string \/ h = "Internal QA:**"%string ->
  Forall (entry_ok pull_or_issues) dbE ->
  Forall (passes h) (section_lines [] DB_heading dbE).
Proof.
  intros Hh Hok.
  assert (Hl : heading_like h)
    by (destruct Hh as [ -> | -> ]; [apply like_PR | apply like_QA]).
  apply (@section_passes _ pull_or_issues); auto.
  now apply DB_heading_passes.
Qed.

Lemma find_PR_section (tag : str) (prE qaE dbE : list Entry)
      (tail : list str) :
  document_ok tag prE qaE dbE tail ->
  match prE with
  | [] => exec PR_LIST_SECTION
               (text_of (document_lines tag prE qaE dbE tail)) = None
  | _ => exists x,
      exec PR_LIST_SECTION (text_of (document_lines tag prE qaE dbE tail))
      = Some x
      /\ group 1 x = lines_text entry_content prE
  end.
Proof.
  intros (Ht & Hpr & Hqa & Hdb & Htail).
  assert (Hh : a_heading "pull requests:**") by now left.
  pose proof like_PR as Hl.
  destruct (heading_like_facts Hl) as [_ Hn]. destruct Hl as [Hd _].
  unfold document_lines, PR_LIST_SECTION.
  destruct prE as [|e es].
  - apply section_absent; [exact Hd | exact Hn |].
    apply Forall_app. split; [now apply head_passes|].
    cbn [section_lines app].
    apply Forall_app. split; [apply QA_section_passes; auto|].
    apply Forall_app. split; [apply DB_section_passes; auto|].
    now apply Htail.
  - assert (Hne : e :: es <> []) by discriminate.
    destruct (@PR_LIST_SECTION_at (e :: es)
                (text_of (section_lines [] QA_heading qaE
                          ++ section_lines [] DB_heading dbE ++ tail))
                Hpr Hne) as (x & Hx & Gx).
    exists x. split; [|exact Gx].
    rewrite !text_of_app, (text_of_section _ _ Hne), <- !text_of_app.
    rewrite <- !app_assoc, app_assoc.
    rewrite <- text_of_app.
    change PR_heading
      with (lit "**This release contains changes from the following "
            ++ lit "pull requests:**").
    apply section_found; try assumption; try reflexivity.
    apply Forall_app. split; [now apply head_passes|].
    constructor; [|constructor]. apply blank_passes, like_PR.
Qed.

Lemma find_QA_section (tag : str) (prE qaE dbE : list Entry)
      (tail : list str) :
  document_ok tag prE qaE dbE tail ->
  match qaE with
  | [] => exec INTERNAL_QA_SECTION
               (text_of (document_lines tag prE qaE dbE tail)) = None
  | _ => exists x,
      exec INTERNAL_QA_SECTION (text_of (document_lines tag prE qaE dbE tail))
      = Some x
      /\ group 1 x = lines_text entry_content qaE
  end.
Proof.
  intros (Ht & Hpr & Hqa & Hdb & Htail).
  assert (Hh : a_heading "Internal QA:**") by (right; now left).
  pose proof like_QA as Hl.
  destruct (heading_like_facts Hl) as [_ Hn]. destruct Hl as [Hd _].
  unfold document_lines, INTERNAL_QA_SECTION.
  destruct qaE as [|e es].
  - apply section_absent; [exact Hd | exact Hn |].
    apply Forall_app. split; [now apply head_passes|].
    apply Forall_app. split; [apply PR_section_passes; auto|].
    cbn [section_lines app].
    apply Forall_app. split; [apply DB_section_passes; auto|].
    now apply Htail.
  - assert (Hne : e :: es <> []) by discriminate.
    destruct (@INTERNAL_QA_SECTION_at (e :: es)
                (CRLF ++ text_of (section_lines [] DB_heading dbE ++ tail))
                Hqa Hne) as (x & Hx & Gx).
    exists x. split; [|exact Gx].
    rewrite app_assoc.
    rewrite (text_of_app ([tag_line tag; compare_line] ++ _)).
    rewrite (text_of_app (section_lines [] QA_heading _)).
    rewrite (text_of_section _ _ Hne).
    change (text_of []) with (@nil ascii). cbn [app].
    change QA_heading with (lit "**" ++ lit "Internal QA:**").
    rewrite <- !app_assoc.
    rewrite (app_assoc (lit "**")).
    apply section_found; try assumption; try reflexivity.
    apply (proj2 (Forall_app _ [tag_line tag; compare_line] _)).
    split; [now apply head_passes|].
    apply PR_section_passes; auto.
Qed.

Lemma find_DB_section (tag : str) (prE qaE dbE : list Entry)
      (tail : list str) :
  document_ok tag prE qaE dbE tail ->
  match dbE with
  | [] => exec DEPLOY_BLOCKER_SECTION
               (text_of (document_lines tag prE qaE dbE tail)) = None
  | _ => exists x,
      exec DEPLOY_BLOCKER_SECTION
           (text_of (document_lines tag prE qaE dbE tail))
      = Some x
      /\ group 1 x = lines_text entry_content dbE
  end.
Proof.
  intros (Ht & Hpr & Hqa & Hdb & Htail).
  assert (Hh : a_heading "Deploy Blockers:**") by (right; now right).
  pose proof like_DB as Hl.
  destruct (heading_like_facts Hl) as [_ Hn]. destruct Hl as [Hd _].
  unfold document_lines, DEPLOY_BLOCKER_SECTION.
  destruct dbE as [|e es].
  - apply section_absent; [exact Hd | exact Hn |].
    apply Forall_app. split; [now apply head_passes|].
    apply Forall_app. split; [apply PR_section_passes; auto|].
    apply Forall_app. split; [apply QA_section_passes; auto|].
    cbn [section_lines app]. now apply Htail.
  - assert (Hne : e :: es <> []) by discriminate.
    destruct (@DEPLOY_BLOCKER_SECTION_at (e :: es) (CRLF ++ text_of tail)
                Hdb Hne) as (x & Hx & Gx).
    exists x. split; [|exact Gx].
    rewrite !app_assoc.
    rewrite (text_of_app _ tail).
    rewrite (text_of_app _ (section_lines [] DB_heading _)).
    rewrite (text_of_section _ _ Hne).
    change (text_of []) with (@nil ascii). cbn [app].
    change DB_heading with (lit "**" ++ lit "Deploy Blockers:**").
    rewrite <- !app_assoc.
    rewrite (app_assoc (lit "**")).
    apply section_found; try assumption; try reflexivity.
    apply (proj2 (Forall_app _ [tag_line tag; compare_line] _)).
    split; [now apply head_passes|].
    apply Forall_app. split.
    + apply PR_section_passes; auto.
    + apply QA_section_passes; auto.
Qed.

(** ** The lists the parser returns *)

Lemma is_x_mark (f : bool) : is_x (mark f) = f.
Proof. now destruct f. Qed.

Lemma parse_PRList (tag : str) (prE qaE dbE : list Entry) (tail : list str)
      (issue : Issue) :
  document_ok tag prE qaE dbE tail ->
  body issue = text_of (document_lines tag prE qaE dbE tail) ->
  getStagingDeployCashPRList issue = Js.sortBy pr_number (map PR_item prE).
Proof.
  intros Hok Hb. pose proof (find_PR_section Hok) as H.
  unfold getStagingDeployCashPRList. rewrite Hb.
  destruct prE as [|e es] eqn:E; [now rewrite H|].
  destruct H as (x & -> & ->). f_equal.
  rewrite <- (map_map groups
                (fun c => mkPRItem
                            (match cap 2 c with Some v => v | None => [] end)
                            (Js.parseInt
                               (match cap 3 c with Some v => v | None => [] end))
                            (is_x (match cap 1 c with Some v => v | None => [] end)))).
  rewrite PR_LINE_matchAll by (destruct Hok as (_ & Hpr & _); exact Hpr).
  rewrite map_map. apply map_ext. intros a.
  unfold PR_item, entry_found. cbn [cap Nat.eqb]. now rewrite is_x_mark.
Qed.

Lemma parse_deployBlockers (tag : str) (prE qaE dbE : list Entry)
      (tail : list str) (issue : Issue) :
  document_ok tag prE qaE dbE tail ->
  body issue = text_of (document_lines tag prE qaE dbE tail) ->
  getStagingDeployCashDeployBlockers issue
  = Js.sortBy item_number (map resolvable_item dbE).
Proof.
  intros Hok Hb. pose proof (find_DB_section Hok) as H.
  unfold getStagingDeployCashDeployBlockers. rewrite Hb.
  destruct dbE as [|e es] eqn:E; [now rewrite H|].
  destruct H as (x & -> & ->). f_equal.
  rewrite <- (map_map groups
                (fun c => mkResolvableItem
                            (match cap 2 c with Some v => v | None => [] end)
                            (Js.parseInt
                               (match cap 3 c with Some v => v | None => [] end))
                            (is_x (match cap 1 c with Some v => v | None => [] end)))).
  rewrite DEPLOY_BLOCKER_LINE_matchAll
    by (destruct Hok as (_ & _ & _ & Hdb & _); exact Hdb).
  rewrite map_map. apply map_ext. intros a.
  unfold resolvable_item, entry_found. cbn [cap Nat.eqb]. now rewrite is_x_mark.
Qed.

Lemma parse_internalQA (tag : str) (prE qaE dbE : list Entry)
      (tail : list str) (issue : Issue) :
  document_ok tag prE qaE dbE tail ->
  body issue = text_of (document_lines tag prE qaE dbE tail) ->
  getStagingDeployCashInternalQA issue
  = Js.sortBy item_number (map QA_item qaE).
Proof.
  intros Hok Hb. pose proof (find_QA_section Hok) as H.
  unfold getStagingDeployCashInternalQA. rewrite Hb.
  destruct qaE as [|e es] eqn:E; [now rewrite H|].
  destruct H as (x & -> & ->). f_equal.
  rewrite <- (map_map groups
                (fun c => mkResolvableItem
                            (Js.trim (Js.before_dash
                               (match cap 2 c with Some v => v | None => [] end)))
                            (Js.parseInt
                               (match cap 3 c with Some v => v | None => [] end))
                            (is_x (match cap 1 c with Some v => v | None => [] end)))).
  rewrite INTERNAL_QA_LINE_matchAll
    by (destruct Hok as (_ & _ & Hqa & _); exact Hqa).
  rewrite map_map. apply map_ext. intros a.
  unfold QA_item, entry_found. cbn [cap Nat.eqb]. now rewrite is_x_mark.
Qed.

(** ** The tag *)

Lemma m_Alt (A : Type) (a b : regex) s c (k : cont A) :
  m (Alt a b) s c k = orelse (m a s c k) (m b s c k).
Proof. reflexivity. Qed.

Lemma versionRegex_not_at (a : ascii) (s : str) :
  is_digit a = false -> exec_at versionRegex (a :: s) = None.
Proof.
  intros Ha. unfold exec_at, versionRegex.
  rewrite m_Cat, m_Grp. unfold Plus. rewrite m_Cat.
  cbn [m digit]. now rewrite Ha.
Qed.

Lemma versionRegex_skip (p rest : str) :
  forallb (fun a => negb (is_digit a)) p = true ->
  exec versionRegex (p ++ rest) = exec versionRegex rest.
Proof.
  induction p as [|a p IH]; intros H; [reflexivity|].
  cbn [forallb] in H. apply andb_true_iff in H as [Ha Hp].
  apply negb_true_iff in Ha. cbn [app].
  rewrite exec_cons_None by (now apply versionRegex_not_at).
  now apply IH.
Qed.

Lemma versionRegex_at_tag (tag rest : str) :
  version_tag tag ->
  exists v, exec_at versionRegex (tag ++ "`"%char :: rest) = Some v
            /\ whole v = tag.
Proof.
  intros (a & b & c & build & -> & [Na Da] & [Nb Db] & [Nc Dc] & Hbuild).
  unfold exec_at.
  set (final := fun (s' : str) (c' : caps) =>
                  Some {| whole := firstn (length ((a ++ lit "." ++ b ++ lit "."
                                     ++ c ++ build) ++ "`"%char :: rest)
                                     - length s')
                                    ((a ++ lit "." ++ b ++ lit "." ++ c ++ build)
                                       ++ "`"%char :: rest);
                          groups := c'; rest := s' |}).
  assert (T : exists v,
             m (Opt (chr "-" ;; Grp 4 (Plus digit)))
               (build ++ "`"%char :: rest)
               [(3, c); (2, b); (1, a)] final = Some v
             /\ whole v = a ++ lit "." ++ b ++ lit "." ++ c ++ build).
  { destruct Hbuild as [ -> | (d & [Nd Dd] & ->) ].
    - eexists. split; [reflexivity|]. cbn [whole]. apply firstn_consumed.
    - assert (E : m (chr "-" ;; Grp 4 (Plus digit))
                    ((lit "-" ++ d) ++ "`"%char :: rest)
                    [(3, c); (2, b); (1, a)] final
                  = final ("`"%char :: rest) [(4, d); (3, c); (2, b); (1, a)]).
      { rewrite <- app_assoc. change (lit "-" ++ d ++ "`"%char :: rest)
          with ("-"%char :: d ++ "`"%char :: rest).
        rewrite m_Cat_chr.
        now apply m_Grp_Plus_take. }
      eexists. split.
      + unfold Opt. rewrite m_Alt, E. reflexivity.
      + cbn [whole]. apply firstn_consumed. }
  destruct T as (v & Hv & Wv). exists v. split; [|exact Wv].
  unfold versionRegex. rewrite <- !app_assoc.
  rewrite m_Cat. apply m_Grp_Plus_take; [exact Na | exact Da | reflexivity |].
  change (lit "." ++ b ++ lit "." ++ c ++ build ++ "`"%char :: rest)
    with ("."%char :: b ++ lit "." ++ c ++ build ++ "`"%char :: rest).
  rewrite m_Cat_chr, m_Cat.
  apply m_Grp_Plus_take; [exact Nb | exact Db | reflexivity |].
  change (lit "." ++ c ++ build ++ "`"%char :: rest)
    with ("."%char :: c ++ build ++ "`"%char :: rest).
  rewrite m_Cat_chr, m_Cat.
  apply m_Grp_Plus_take; [exact Nc | exact Dc | | exact Hv].
  destruct Hbuild as [ -> | (d & _ & ->) ]; reflexivity.
Qed.

Lemma filter_all (T : Type) (P : T -> bool) (l : list T) :
  forallb P l = true -> filter P l = l.
Proof.
  induction l as [|a l IH]; simpl; [reflexivity|].
  intros H. apply andb_true_iff in H as [Ha Hl]. rewrite Ha. f_equal. auto.
Qed.

Lemma tag_found (tag : str) (more : list str) :
  version_tag tag ->
  exists v, exec versionRegex (text_of (tag_line tag :: more)) = Some v
            /\ remove_backticks (whole v) = tag.
Proof.
  intros Ht. rewrite text_of_cons. unfold tag_line.
  rewrite <- !app_assoc. rewrite versionRegex_skip by reflexivity.
  destruct (versionRegex_at_tag (CRLF ++ text_of more) Ht) as (v & Hv & Wv).
  exists v. split.
  - apply exec_of_exec_at. exact Hv.
  - rewrite Wv. apply filter_all.
    exact (@forallb_impl _ tag_char _ tag tag_char_no_backtick
             (version_tag_chars Ht)).
Qed.

(** ** The three verifications *)

Section Checks.
Variable sentence : string.
Hypothesis sentence_I : exists t, lit sentence = "I"%char :: t.

Lemma check_first (a : ascii) (s : str) :
  Ascii.eqb "-" a = false -> exec_at (checked_line sentence) (a :: s) = None.
Proof.
  intros H. unfold exec_at, checked_line, space. rewrite m_Cat. cbn [m chr]. now rewrite H.
Qed.

Lemma check_third (b c : ascii) (t : str) :
  Ascii.eqb "[" c = false ->
  exec_at (checked_line sentence) ("-"%char :: b :: c :: t) = None.
Proof.
  intros H. unfold exec_at, checked_line, space. rewrite m_Cat_chr, m_Cat.
  cbn [m]. destruct (is_space b); [|reflexivity].
  apply (@text_mismatch result "[x]" _ "["%char); [reflexivity|].
  intros E. subst c. now rewrite Ascii.eqb_refl in H.
Qed.

Lemma check_after_break (rest : str) :
  exec (checked_line sentence) (CRLF ++ rest) = exec (checked_line sentence) rest.
Proof.
  unfold CRLF. cbn [app].
  rewrite exec_cons_None by (now apply check_first).
  now rewrite exec_cons_None by (now apply check_first).
Qed.

(** A line without bracket is passed. *)
Lemma check_skip_plain (w rest : str) :
  forallb (fun a => negb (Ascii.eqb a "[")) w = true ->
  exec (checked_line sentence) (w ++ CRLF ++ rest) = exec (checked_line sentence) rest.
Proof.
  induction w as [|a w IH]; intros H; [apply check_after_break|].
  cbn [forallb] in H. apply andb_true_iff in H as [_ Hw].
  cbn [app]. rewrite exec_cons_None; [now apply IH|].
  destruct (Ascii.eqb "-" a) eqn:Ea; [|now apply check_first].
  apply Ascii.eqb_eq in Ea. subst a.
  destruct w as [|b [|c w']].
  - now apply check_third.
  - now apply check_third.
  - apply check_third. cbn [forallb] in Hw.
    apply andb_true_iff in Hw as [_ Hw]. apply andb_true_iff in Hw as [Hc _].
    apply negb_true_iff in Hc. now rewrite Ascii.eqb_sym.
Qed.

Lemma check_not_at_entry (f : bool) (w : str) :
  exec_at (checked_line sentence) (lit "- [" ++ mark f ++ lit "] " ++ "h"%char :: w) = None.
Proof.
  destruct sentence_I as [t Et].
  assert (G : forall s c (k : cont result),
             m (text sentence) ("h"%char :: s) c k = None).
  { intros s c k. unfold text. rewrite Et. cbn [seq_of]. rewrite m_Cat.
    reflexivity. }
  unfold exec_at, checked_line, space. destruct f.
  - change (lit "- [" ++ mark true ++ lit "] " ++ "h"%char :: w)
      with ("-"%char :: " "%char :: lit "[x]" ++ " "%char :: "h"%char :: w).
    rewrite m_Cat_chr, m_Cat_Cls by reflexivity.
    rewrite m_Cat_text, m_Cat_Cls by reflexivity. apply G.
  - reflexivity.
Qed.

(** The line of an entry is passed. *)
Lemma check_skip_entry (kinds : list string) (e : Entry) (rest : str) :
  kinds = pull_only \/ kinds = pull_or_issues ->
  entry_ok kinds e ->
  exec (checked_line sentence) (entry_content e ++ CRLF ++ rest)
  = exec (checked_line sentence) rest.
Proof.
  intros Hk Hok. destruct (entry_content_quiet Hk Hok) as (w & E & Hq).
  pose proof (check_not_at_entry (e_checked e) (w ++ CRLF ++ rest)) as H0.
  rewrite E. clear E.
  assert (Hb : forallb (fun a => negb (Ascii.eqb a "[")) w = true)
    by exact (@forallb_impl _ quiet _ w quiet_no_bracket Hq).
  destruct (e_checked e).
  - change ((lit "- [" ++ mark true ++ lit "] " ++ "h"%char :: w)
            ++ CRLF ++ rest)
      with ("-"%char :: " "%char :: "["%char
            :: ("x"%char :: "]"%char :: " "%char :: "h"%char :: w)
               ++ CRLF ++ rest).
    rewrite exec_cons_None by exact H0.
    rewrite exec_cons_None by (now apply check_first).
    rewrite exec_cons_None by (now apply check_first).
    apply check_skip_plain. cbn [forallb]. now rewrite Hb.
  - change ((lit "- [" ++ mark false ++ lit "] " ++ "h"%char :: w)
            ++ CRLF ++ rest)
      with ("-"%char :: " "%char :: "["%char
            :: (" "%char :: "]"%char :: " "%char :: "h"%char :: w)
               ++ CRLF ++ rest).
    rewrite exec_cons_None by exact H0.
    rewrite exec_cons_None by (now apply check_first).
    rewrite exec_cons_None by (now apply check_first).
    apply check_skip_plain. cbn [forallb]. now rewrite Hb.
Qed.
End Checks.

Section ChecksOfDocument.
Variable sentence : string.
Hypothesis sentence_I : exists t, lit sentence = "I"%char :: t.

Lemma check_skip_lines (ls : list str) (rest : str) :
  Forall (silent sentence) ls ->
  exec (checked_line sentence) (text_of ls ++ rest)
  = exec (checked_line sentence) rest.
Proof.
  induction 1 as [|l ls Hl _ IH]; [reflexivity|].
  rewrite text_of_cons, <- !app_assoc. now rewrite Hl.
Qed.

Lemma plain_silent (l : str) :
  forallb (fun a => negb (Ascii.eqb a "[")) l = true -> silent sentence l.
Proof. intros H rest. now apply check_skip_plain. Qed.

Lemma section_silent (kinds : list string) (before : list str)
      (heading : str) (entries : list Entry) :
  kinds = pull_only \/ kinds = pull_or_issues ->
  Forall (silent sentence) before -> silent sentence heading ->
  Forall (entry_ok kinds) entries ->
  Forall (silent sentence) (section_lines before heading entries).
Proof.
  intros Hk Hb Hh Hok. unfold section_lines.
  destruct entries as [|e es]; [constructor|].
  apply Forall_app. split; [exact Hb|].
  constructor; [exact Hh|].
  apply Forall_app. split.
  - rewrite Forall_map. revert Hok. apply Forall_impl.
    intros x Hx rest.
    exact (@check_skip_entry sentence sentence_I kinds x rest Hk Hx).
  - repeat constructor; now apply plain_silent.
Qed.

(** A match of the expression of a verification is in the last lines. *)
Lemma check_in_tail (tag : str) (prE qaE dbE : list Entry) (tail : list str) :
  document_ok tag prE qaE dbE tail ->
  exec (checked_line sentence) (text_of (document_lines tag prE qaE dbE tail))
  = exec (checked_line sentence) (text_of tail).
Proof.
  intros (Ht & Hpr & Hqa & Hdb & _).
  unfold document_lines. rewrite !app_assoc, text_of_app.
  rewrite <- (app_nil_r (text_of tail)) at 2.
  rewrite <- (app_nil_r (text_of tail)) at 1.
  rewrite <- app_assoc.
  rewrite check_skip_lines; [reflexivity|].
  repeat (apply Forall_app; split).
  - constructor; [|constructor; [|constructor]].
    + apply plain_silent. unfold tag_line. rewrite !forallb_app.
      rewrite (@forallb_impl _ tag_char _ tag tag_char_no_bracket
                 (version_tag_chars Ht)).
      reflexivity.
    + now apply plain_silent.
  - apply (@section_silent pull_only); auto.
    + constructor; [now apply plain_silent | constructor].
    + now apply plain_silent.
  - apply (@section_silent pull_only); auto. now apply plain_silent.
  - apply (@section_silent pull_or_issues); auto. now apply plain_silent.
Qed.
End ChecksOfDocument.

Lemma checks_of_tail (timing firebase status : bool) :
  let t := text_of (verification_lines timing firebase status) in
  test TIMING_DASHBOARD_CHECKED t = timing
  /\ test FIREBASE_CHECKED t = firebase
  /\ test GH_STATUS_CHECKED t = status.
Proof.
  destruct timing, firebase, status; repeat split; vm_compute; reflexivity.
Qed.

(** ** Sorting a sorted list *)

Lemma insert_by_last (T : Type) (key : T -> N) (x : T) (acc : list T) :
  (forall y, In y acc -> (key y <= key x)%N) ->
  Js.insert_by key x acc = acc ++ [x].
Proof.
  induction acc as [|y acc IH]; intros H; simpl; [reflexivity|].
  assert (E : (key y <=? key x)%N = true)
    by (apply N.leb_le, H; now left).
  rewrite E. f_equal. apply IH. intros z Hz. apply H. now right.
Qed.

Lemma fold_insert_sorted_id (T : Type) (key : T -> N) (l : list T) :
  forall acc,
    StronglySorted (key_le key) (acc ++ l) ->
    fold_left (fun a x => Js.insert_by key x a) l acc = acc ++ l.
Proof.
  induction l as [|x l IH]; intros acc Hs; simpl.
  - now rewrite app_nil_r.
  - rewrite insert_by_last.
    + rewrite IH; rewrite <- app_assoc; [reflexivity | exact Hs].
    + intros y Hy. clear IH. induction acc as [|a acc IHa]; [contradiction|].
      simpl in Hs. inversion Hs as [|? ? Hs' Ha]; subst.
      destruct Hy as [<-|Hy].
      * rewrite Forall_forall in Ha. apply Ha, in_or_app. right. now left.
      * now apply IHa.
Qed.

Lemma sortBy_sorted_id (T : Type) (key : T -> N) (l : list T) :
  StronglySorted (key_le key) l -> Js.sortBy key l = l.
Proof. intros H. exact (fold_insert_sorted_id (key := key) l [] H). Qed.

Lemma sorted_map_key (X Y : Type) (g : X -> Y) (kx : X -> N) (ky : Y -> N)
      (l : list X) :
  (forall x, In x l -> ky (g x) = kx x) ->
  StronglySorted (key_le kx) l -> StronglySorted (key_le ky) (map g l).
Proof.
  induction l as [|a l IH]; intros Hk Hs; simpl; [constructor|].
  inversion Hs as [|? ? Hs' Ha]; subst. constructor.
  - apply IH; [|exact Hs']. intros x Hx. apply Hk. now right.
  - rewrite Forall_map. rewrite Forall_forall in *. intros x Hx.
    unfold key_le. rewrite !Hk; [now apply Ha | now right | now left].
Qed.

(** ** The entries of the internal QA map *)

Lemma obj_update_In (o : Obj) (k v : str) (kv : str * str) :
  In kv (obj_update o k v) -> kv = (k, v) \/ In kv o.
Proof.
  induction o as [|[k' v'] o IH]; simpl; [tauto|].
  destruct (str_eqb k' k) eqn:E; simpl.
  - apply str_eqb_spec in E. subst k'. intros [<-|H]; auto.
  - intros [<-|H]; auto. destruct (IH H); auto.
Qed.

Lemma obj_add_index_In (o : Obj) (i : N) (k v : str) (kv : str * str) :
  In kv (obj_add_index o i k v) -> kv = (k, v) \/ In kv o.
Proof.
  induction o as [|[k' v'] o IH]; simpl; [intros [<-|[]]; auto|].
  destruct (array_index k') as [j|]; [destruct (j <? i)%N|]; simpl.
  - intros [<-|H]; auto. destruct (IH H); auto.
  - intros [<-|[<-|H]]; auto.
  - intros [<-|[<-|H]]; auto.
Qed.

Lemma obj_set_In (o : Obj) (k v : str) (kv : str * str) :
  In kv (obj_set o k v) -> kv = (k, v) \/ In kv o.
Proof.
  unfold obj_set. destruct (obj_has o k).
  - apply obj_update_In.
  - destruct (array_index k).
    + apply obj_add_index_In.
    + intros H. apply in_app_or in H as [H|[<-|[]]]; auto.
Qed.

Lemma internalQAPRMap_from_entries (prs : list PullRequest) :
  forall o qa,
    internalQAPRMap_from o prs = inr qa ->
    forall kv, In kv qa ->
      In kv o
      \/ exists pr who, In pr prs /\ merged_by pr = Some who
                        /\ kv = (html_url pr, login who).
Proof.
  induction prs as [|pr prs IH]; intros o qa H kv Hkv; simpl in H.
  - injection H as <-. now left.
  - destruct (merged_by pr) as [who|] eqn:E; [|discriminate].
    destruct (IH _ _ H kv Hkv) as [Hin|(pr' & who' & Hin & Hm & ->)].
    + apply obj_set_In in Hin as [->|Hin]; [|now left].
      right. exists pr, who. split; [now left | auto].
    + right. exists pr', who'. split; [now right | auto].
Qed.

Lemma internalQAPRMap_from_total (prs : list PullRequest) :
  (forall pr, In pr prs -> merged_by pr <> None) ->
  forall o, exists qa, internalQAPRMap_from o prs = inr qa.
Proof.
  induction prs as [|pr prs IH]; intros H o; simpl; [eauto|].
  destruct (merged_by pr) as [who|] eqn:E.
  - apply IH. intros pr' Hpr'. apply H. now right.
  - exfalso. apply (H pr); [now left | exact E].
Qed.

Lemma draft_ok (C : Const) (i : BodyInput) (data : list PullRequest)
      (qa : Obj) :
  internalQAPRMap_from [] (filter (isInternalQA C) data) = inr qa ->
  forallb is_pull_URL
          (Js.unique (Js.difference (in_PRList i) (keys qa))) = true ->
  forallb is_issue_or_pull_URL (Js.unique (in_deployBlockers i)) = true ->
  exists log,
    draft C i (Some data)
    = (log, inr {| issueBody := body_of i data qa;
                   issueAssignees := values qa |}).
Proof.
  intros Hqa Hpr Hdb. unfold draft. rewrite Hqa.
  rewrite (sortBy_throwing_defined getPullRequestNumberFromURL _ Hpr).
  rewrite (sortBy_throwing_defined getIssueOrPullRequestNumberFromURL _ Hdb).
  eexists. reflexivity.
Qed.

(** ** The URL of an internal QA entry *)

Lemma before_dash_app (u s : str) :
  forallb (fun a => negb (Ascii.eqb a "-")) u = true ->
  Js.before_dash (u ++ "-"%char :: s) = u.
Proof.
  induction u as [|a u IH]; simpl; intros H; [reflexivity|].
  apply andb_true_iff in H as [Ha Hu]. apply negb_true_iff in Ha.
  rewrite Ha. f_equal. now apply IH.
Qed.

Lemma trim_start_head (a : ascii) (t : str) :
  is_space a = false -> Js.trim_start (a :: t) = a :: t.
Proof. intros H. simpl. now rewrite H. Qed.

Lemma trim_space_end (s x t : str) (a d : ascii) :
  s = a :: t -> s = x ++ [d] ->
  is_space a = false -> is_space d = false ->
  Js.trim (s ++ [" "%char]) = s.
Proof.
  intros Ea Ed Ha Hd. unfold Js.trim.
  assert (E1 : Js.trim_start (s ++ [" "%char]) = s ++ [" "%char]).
  { rewrite Ea. cbn [app]. now apply trim_start_head. }
  rewrite E1, rev_app_distr.
  change (rev [" "%char] ++ rev s) with (" "%char :: rev s).
  change (Js.trim_start (" "%char :: rev s)) with (Js.trim_start (rev s)).
  assert (E2 : rev s = d :: rev x) by (now rewrite Ed, rev_app_distr).
  rewrite E2, (@trim_start_head d (rev x) Hd), <- E2.
  apply rev_involutive.
Qed.

Lemma numbered_URL_ends (kt : string) (u ds : str) :
  numbered_URL kt u ds ->
  exists t x d, u = "h"%char :: t /\ u = x ++ [d] /\ is_digit d = true.
Proof.
  intros (base & o & r & Hb & _ & _ & [Nd Dd] & ->).
  destruct (exists_last Nd) as (ds' & d & ->).
  assert (Hd : is_digit d = true).
  { rewrite forallb_app in Dd. apply andb_true_iff in Dd as [_ Dd].
    simpl in Dd. now rewrite andb_true_r in Dd. }
  assert (Hh : exists t, base = "h"%char :: t)
    by (destruct Hb as [ -> | [ -> | [ -> | -> ] ] ]; eexists; reflexivity).
  destruct Hh as [t ->].
  eexists. eexists. exists d. split; [reflexivity|]. split; [|exact Hd].
  rewrite !app_assoc. reflexivity.
Qed.

Lemma is_digit_not_space (d : ascii) : is_digit d = true -> is_space d = false.
Proof. destruct d as [[] [] [] [] [] [] [] []]; vm_compute; congruence. Qed.

Lemma trim_QA_URL (u ds who : str) :
  numbered_URL "pull" u ds ->
  forallb (fun a => negb (Ascii.eqb a "-")) u = true ->
  Js.trim (Js.before_dash (u ++ lit " - @" ++ who)) = u.
Proof.
  intros Hu Hd.
  destruct (numbered_URL_ends Hu) as (t & x & d & Eh & Er & Dd).
  change (u ++ lit " - @" ++ who)
    with (u ++ " "%char :: "-"%char :: lit " @" ++ who).
  replace (u ++ " "%char :: "-"%char :: lit " @" ++ who)
    with ((u ++ [" "%char]) ++ "-"%char :: lit " @" ++ who)
    by (now rewrite <- app_assoc).
  rewrite before_dash_app
    by (rewrite forallb_app, Hd; reflexivity).
  apply (@trim_space_end u x t "h"%char d Eh Er eq_refl).
  now apply is_digit_not_space.
Qed.

(** ** The generated body as a document *)

Lemma pull_number_trailing (u : str) :
  pull_URL u -> pull_number u = Js.parseInt (trailing_digits u).
Proof.
  intros [ds H]. unfold pull_number, total.
  now rewrite (pull_number_of H), (trailing_digits_of H).
Qed.

Lemma issue_or_pull_number_trailing (u : str) :
  issue_or_pull_URL u ->
  issue_or_pull_number u = Js.parseInt (trailing_digits u).
Proof.
  intros [ds H]. unfold issue_or_pull_number, total.
  rewrite (issue_or_pull_number_of H).
  destruct H as [H|H]; now rewrite (trailing_digits_of H).
Qed.

Lemma pull_entry_ok (f : bool) (u : str) :
  pull_URL u -> entry_ok pull_only (mkEntry f u []).
Proof.
  intros [ds H]. split; [|now left].
  exists "pull"%string, ds. split; [now left | exact H].
Qed.

Lemma issue_or_pull_entry_ok (f : bool) (u : str) :
  issue_or_pull_URL u -> entry_ok pull_or_issues (mkEntry f u []).
Proof.
  intros [ds [H|H]]; (split; [|now left]).
  - exists "pull"%string, ds. split; [now left | exact H].
  - exists "issues"%string, ds. split; [right; now left | exact H].
Qed.

Lemma mention_entry_ok (f : bool) (u who : str) :
  pull_URL u -> is_name who ->
  entry_ok pull_only (mkEntry f u (lit " - @" ++ who)).
Proof.
  intros [ds H] Hw. split.
  - exists "pull"%string, ds. split; [now left | exact H].
  - right. now exists who.
Qed.

Section Generated.
Variable C : Const.
Variable i : BodyInput.
Variable data : list PullRequest.
Variable qa : Obj.
Hypothesis input_ok : well_formed C i data.
Hypothesis qa_map :
  internalQAPRMap_from [] (filter (isInternalQA C) data) = inr qa.

Lemma qa_entries_ok (um : str * str) :
  In um qa -> pull_URL (fst um) /\ is_name (snd um).
Proof.
  intros Hin. destruct input_ok as (_ & _ & _ & Hdata).
  destruct (internalQAPRMap_from_entries _ _ qa_map um Hin)
    as [[]|(pr & who & Hpr & Hm & ->)].
  apply filter_In in Hpr as [Hpr Hl].
  rewrite Forall_forall in Hdata.
  destruct (Hdata pr Hpr Hl) as (Hu & who' & Hm' & Hw).
  rewrite Hm in Hm'. injection Hm' as ->. now split.
Qed.

Lemma mainList_pull_URL (u : str) : In u (mainList i qa) -> pull_URL u.
Proof.
  unfold mainList. rewrite sortBy_In, unique_In, difference_In.
  intros [Hin _]. destruct input_ok as (_ & Hpr & _).
  rewrite Forall_forall in Hpr. now apply Hpr.
Qed.

Lemma blockerList_URL (u : str) : In u (blockerList i) -> issue_or_pull_URL u.
Proof.
  unfold blockerList. rewrite sortBy_In, unique_In.
  intros Hin. destruct input_ok as (_ & _ & Hdb & _).
  rewrite Forall_forall in Hdb. now apply Hdb.
Qed.

Lemma generated_document_ok :
  document_ok (in_tag i)
    (PR_entries (Js.union (in_verifiedPRList i) (noQAPRs data)) (mainList i qa))
    (QA_entries (in_resolvedInternalQAPRs i) qa)
    (PR_entries (in_resolvedDeployBlockers i) (blockerList i))
    (tail_lines i).
Proof.
  destruct input_ok as (Ht & _).
  split; [exact Ht|]. split; [|split; [|split]].
  - unfold PR_entries. rewrite Forall_map, Forall_forall.
    intros u Hu. apply pull_entry_ok. now apply mainList_pull_URL.
  - unfold QA_entries. rewrite Forall_map, Forall_forall.
    intros um Hum. destruct (qa_entries_ok um Hum).
    now apply mention_entry_ok.
  - unfold PR_entries. rewrite Forall_map, Forall_forall.
    intros u Hu. apply issue_or_pull_entry_ok. now apply blockerList_URL.
  - intros h Hh. now apply verification_lines_pass.
Qed.

Lemma generated_body_document :
  body_of i data qa
  = text_of (document_lines (in_tag i)
               (PR_entries (Js.union (in_verifiedPRList i) (noQAPRs data))
                           (mainList i qa))
               (QA_entries (in_resolvedInternalQAPRs i) qa)
               (PR_entries (in_resolvedDeployBlockers i) (blockerList i))
               (tail_lines i)).
Proof. apply body_of_lines. Qed.
End Generated.

(** ** Parsing a generated body *)

Lemma parsed_lists (C : Const) (i : BodyInput) (data : list PullRequest)
      (qa : Obj) (issue : Issue) :
  well_formed C i data ->
  Forall (fun pr => isInternalQA C pr = true -> dashless (html_url pr)) data ->
  internalQAPRMap_from [] (filter (isInternalQA C) data) = inr qa ->
  body issue = body_of i data qa ->
  getStagingDeployCashPRList issue = PRList (parsed i data qa issue)
  /\ getStagingDeployCashDeployBlockers issue
     = deployBlockers (parsed i data qa issue)
  /\ getStagingDeployCashInternalQA issue
     = internalQAPRList (parsed i data qa issue).
Proof.
  intros Hwf Hdash Hqa Hbody.
  pose proof (@generated_document_ok C i data qa Hwf Hqa) as Hok.
  assert (Hb : body issue = text_of (document_lines (in_tag i)
               (PR_entries (Js.union (in_verifiedPRList i) (noQAPRs data))
                           (mainList i qa))
               (QA_entries (in_resolvedInternalQAPRs i) qa)
               (PR_entries (in_resolvedDeployBlockers i) (blockerList i))
               (tail_lines i)))
    by (rewrite Hbody; apply generated_body_document).
  split; [|split].
  - rewrite (parse_PRList issue Hok Hb). cbn [parsed PRList].
    unfold PR_entries. rewrite map_map.
    rewrite sortBy_sorted_id.
    + apply map_ext_in. intros u Hu. unfold PR_item. cbn [e_url e_tail e_checked].
      rewrite app_nil_r.
      now rewrite (pull_number_trailing (@mainList_pull_URL C i data qa Hwf u Hu)).
    + apply (@sorted_map_key str PRItem _ pull_number pr_number).
      * intros u Hu. cbn. symmetry.
        exact (pull_number_trailing (@mainList_pull_URL C i data qa Hwf u Hu)).
      * apply sortBy_sorted.
  - rewrite (parse_deployBlockers issue Hok Hb). cbn [parsed deployBlockers].
    unfold PR_entries. rewrite map_map.
    rewrite sortBy_sorted_id.
    + apply map_ext_in. intros u Hu. unfold resolvable_item.
      cbn [e_url e_tail e_checked]. rewrite app_nil_r.
      now rewrite (issue_or_pull_number_trailing (@blockerList_URL C i data Hwf u Hu)).
    + apply (@sorted_map_key str ResolvableItem _ issue_or_pull_number
               item_number).
      * intros u Hu. cbn. symmetry.
        exact (issue_or_pull_number_trailing
                 (@blockerList_URL C i data Hwf u Hu)).
      * apply sortBy_sorted.
  - rewrite (parse_internalQA issue Hok Hb). cbn [parsed internalQAPRList].
    unfold QA_entries. rewrite map_map. f_equal.
    apply map_ext_in. intros um Hum. unfold QA_item.
    cbn [e_url e_tail e_checked].
    destruct (@qa_entries_ok C i data qa Hwf Hqa um Hum) as [Hu _].
    f_equal.
    + destruct Hu as [ds Hu]. apply (trim_QA_URL _ Hu).
      destruct (internalQAPRMap_from_entries _ _ Hqa um Hum)
        as [[]|(pr & who & Hpr & _ & ->)].
      apply filter_In in Hpr as [Hpr Hl].
      rewrite Forall_forall in Hdash. now apply Hdash.
    + symmetry. exact (@pull_number_trailing (fst um) Hu).
Qed.

Lemma generate_of_draft (C : Const) (pulls : PullsList) (i : BodyInput)
      (data : list PullRequest) (log : Console) (d : IssueDraft) :
  Forall pull_URL (in_PRList i) ->
  fetch_value (fetchAllPullRequests pulls (map pull_number (in_PRList i)))
  = Some data ->
  draft C i (Some data) = (log, inr d) ->
  exists console requests,
    generateStagingDeployCashBody C pulls i
    = Promise console requests (Some d).
Proof.
  intros Hpr Hf Hd. unfold generateStagingDeployCashBody.
  rewrite (map_throwing_defined getPullRequestNumberFromURL (in_PRList i)).
  - fold pull_number. cbv zeta. rewrite Hf, Hd. eauto.
  - apply forallb_forall. intros u Hu. apply pull_URL_is_pull_URL.
    rewrite Forall_forall in Hpr. auto.
Qed.

Lemma parsed_checks (tag : str) (prE qaE dbE : list Entry)
      (timing firebase status : bool) :
  document_ok tag prE qaE dbE (verification_lines timing firebase status) ->
  let b := text_of (document_lines tag prE qaE dbE
                      (verification_lines timing firebase status)) in
  test TIMING_DASHBOARD_CHECKED b = timing
  /\ test FIREBASE_CHECKED b = firebase
  /\ test GH_STATUS_CHECKED b = status.
Proof.
  intros Hok b.
  destruct (checks_of_tail timing firebase status) as (H1 & H2 & H3).
  unfold test in *. subst b.
  change TIMING_DASHBOARD_CHECKED
    with (checked_line "I checked the [App Timing Dashboard]") in *.
  change FIREBASE_CHECKED
    with (checked_line "I checked [Firebase Crashlytics]") in *.
  change GH_STATUS_CHECKED
    with (checked_line "I checked [GitHub Status]") in *.
  rewrite !check_in_tail by (assumption || (eexists; reflexivity)).
  auto.
Qed.

(** C1, amended: for a version tag, URLs of pull requests of a repository
    in the list, URLs of issues or pull requests as blockers, and fetched
    internal QA pull requests with such a URL, without a dash, and a
    merger with a name, the body is generated, and parsing a ticket with
    this body gives back the tag, the three verifications, the main list
    and the blockers in ascending order of number with their boxes (a
    box of the main list is checked when the pull request is verified or
    its title says that it needs no QA), and the internal QA entries in
    ascending order of number with their URLs and their boxes, without
    the assignee. *)
Theorem parse_of_generated_body
        (C : Const) (i : BodyInput) (pulls : PullsList)
        (data : list PullRequest)
        (Hfetch : fetch_value
                    (fetchAllPullRequests pulls
                       (map pull_number (in_PRList i))) = Some data)
        (Hwf : well_formed C i data)
        (Hdash : Forall (fun pr => isInternalQA C pr = true ->
                                   dashless (html_url pr)) data) :
  exists console requests qa,
    internalQAPRMap_from [] (filter (isInternalQA C) data) = inr qa
    /\ generateStagingDeployCashBody C pulls i
       = Promise console requests
                 (Some {| issueBody := body_of i data qa;
                          issueAssignees := values qa |})
    /\ forall issue,
         body issue = body_of i data qa ->
         is_issue_or_pull_URL (issue_url issue) = true ->
         getStagingDeployCashData C issue = inr (parsed i data qa issue).
Proof.
  assert (Hq : exists qa,
             internalQAPRMap_from [] (filter (isInternalQA C) data) = inr qa).
  { apply internalQAPRMap_from_total. intros pr Hpr.
    apply filter_In in Hpr as [Hpr Hl].
    destruct Hwf as (_ & _ & _ & Hdata). rewrite Forall_forall in Hdata.
    destruct (Hdata pr Hpr Hl) as (_ & who & -> & _). discriminate. }
  destruct Hq as [qa Hqa].
  assert (Hd : exists log,
             draft C i (Some data)
             = (log, inr {| issueBody := body_of i data qa;
                            issueAssignees := values qa |})).
  { apply draft_ok; [exact Hqa | |].
    - apply forallb_forall. intros u Hu. apply pull_URL_is_pull_URL.
      rewrite unique_In, difference_In in Hu. destruct Hu as [Hu _].
      destruct Hwf as (_ & Hpr & _). rewrite Forall_forall in Hpr. auto.
    - apply forallb_forall. intros u Hu. apply issue_or_pull_URL_is.
      rewrite unique_In in Hu.
      destruct Hwf as (_ & _ & Hdb & _). rewrite Forall_forall in Hdb. auto. }
  destruct Hd as [log Hd].
  destruct (@generate_of_draft C pulls i data log _
              (proj1 (proj2 Hwf)) Hfetch Hd) as (console & requests & Hg).
  exists console, requests, qa. split; [exact Hqa|]. split; [exact Hg|].
  - intros issue Hbody Hurl.
    pose proof (@generated_document_ok C i data qa Hwf Hqa) as Hok.
    destruct (parsed_lists issue Hwf Hdash Hqa Hbody) as (L1 & L2 & L3).
    destruct (parsed_checks Hok) as (K1 & K2 & K3).
    destruct Hwf as (Ht & _).
    unfold getStagingDeployCashData.
    assert (K1' : test TIMING_DASHBOARD_CHECKED (body issue)
                  = in_isTimingDashboardChecked i)
      by (rewrite Hbody, generated_body_document; exact K1).
    assert (K2' : test FIREBASE_CHECKED (body issue)
                  = in_isFirebaseChecked i)
      by (rewrite Hbody, generated_body_document; exact K2).
    assert (K3' : test GH_STATUS_CHECKED (body issue)
                  = in_isGHStatusChecked i)
      by (rewrite Hbody, generated_body_document; exact K3).
    destruct (tag_found
                (compare_line
                 :: section_lines [[]] PR_heading
                      (PR_entries (Js.union (in_verifiedPRList i) (noQAPRs data))
                                  (mainList i qa))
                    ++ section_lines [] QA_heading
                         (QA_entries (in_resolvedInternalQAPRs i) qa)
                    ++ section_lines [] DB_heading
                         (PR_entries (in_resolvedDeployBlockers i) (blockerList i))
                    ++ tail_lines i) Ht) as (v & Hv & Tv).
    assert (Hv' : exec versionRegex (body issue) = Some v)
      by (rewrite Hbody, generated_body_document; exact Hv).
    rewrite Hv', Tv. unfold parsed, issue_or_pull_number, total.
    unfold is_issue_or_pull_URL, defined in Hurl.
    destruct (getIssueOrPullRequestNumberFromURL (issue_url issue));
      [discriminate|].
    rewrite L1, L2, L3, K1', K2', K3'. reflexivity.
Qed.

Lemma sample_pull_URL (n : string) :
  digits (lit n) -> pull_URL (Sample.pull n).
Proof.
  intros Hn. exists (lit n), (lit "https://github.com"), (lit "Expensify"), (lit "App").
  repeat split; try reflexivity; try apply Hn. now left.
Qed.

Lemma parse_of_generated_body_witness :
  let i := {| in_tag := lit "1.2.3-4";
              in_PRList := [Sample.pull "101"; Sample.pull "100";
                            Sample.pull "99"];
              in_verifiedPRList := [Sample.pull "100"];
              in_deployBlockers := [];
              in_resolvedDeployBlockers := [];
              in_resolvedInternalQAPRs := [];
              in_isTimingDashboardChecked := true;
              in_isFirebaseChecked := false;
              in_isGHStatusChecked := false |} in
  let data := [Sample.fetched 101 (Sample.pull "101") "[No QA] b" [] "bob";
               Sample.fetched 99 (Sample.pull "99") "a" ["InternalQA"%string]
                              "alice"] in
  let pulls : PullsList := fun _ => listing [data] in
  let qa := [(Sample.pull "99", lit "alice")] in
  let issue := ticket (body_of i data qa) in
  exists console requests,
    generateStagingDeployCashBody Sample.expensify pulls i
    = Promise console requests
              (Some {| issueBody := body_of i data qa;
                       issueAssignees := [lit "alice"] |})
    /\ getStagingDeployCashData Sample.expensify issue
       = inr (parsed i data qa issue)
    /\ PRList (parsed i data qa issue)
       = [{| pr_url := Sample.pull "100"; pr_number := 100%N;
             isVerified := true |};
          {| pr_url := Sample.pull "101"; pr_number := 101%N;
             isVerified := true |}]
    /\ internalQAPRList (parsed i data qa issue)
       = [{| item_url := Sample.pull "99"; item_number := 99%N;
             isResolved := false |}].
Proof.
  intros i data pulls qa0 issue.
  assert (Hwf : well_formed Sample.expensify i data).
  { split; [|split; [|split]].
    - exists (lit "1"), (lit "2"), (lit "3"), (lit "-4").
      repeat split; try discriminate; try reflexivity.
      right. exists (lit "4"). repeat split. discriminate.
    - repeat constructor; apply sample_pull_URL; split;
        discriminate || reflexivity.
    - constructor.
    - constructor; [discriminate|]. constructor; [|constructor].
      intros _. split.
      + apply sample_pull_URL. split; discriminate || reflexivity.
      + exists (lit "alice"). split; reflexivity. }
  assert (Hdash : Forall (fun pr => isInternalQA Sample.expensify pr = true ->
                                    dashless (html_url pr)) data)
    by (repeat constructor).
  assert (Hf : fetch_value
                 (fetchAllPullRequests pulls (map pull_number (in_PRList i)))
               = Some data) by (vm_compute; reflexivity).
  destruct (@parse_of_generated_body Sample.expensify i pulls data Hf Hwf
              Hdash)
    as (console & requests & qa & Hqa & Hg & Hp).
  assert (Eqa : qa = qa0)
    by (vm_compute in Hqa; injection Hqa as <-; reflexivity).
  subst qa.
  exists console, requests. split; [exact Hg|].
  split; [apply Hp; [reflexivity | vm_compute; reflexivity]|].
  split; vm_compute; reflexivity.
Defined.

(** C1, on the code: pull request 101, not verified but with a title
    that says it needs no QA, and the internal QA pull request 100 of
    the same repository, merged by bob or by alice.  The body names the
    merger, who is assigned; parsing it gives the same data for both
    mergers, so that nothing of the merger is in it; and the box of 101
    comes back checked. *)
Lemma internal_QA_entry_not_reconstructed :
  let i := Sample.input "1.2.3-4" [Sample.pull "101"; Sample.pull "100"] in
  let data who :=
    [Sample.fetched 101 (Sample.pull "101") "[No QA] Bump version" [] "carol";
     Sample.fetched 100 (Sample.pull "100") "Fix" ["InternalQA"%string] who] in
  in_verifiedPRList i = []
  /\ exists log d log' d' parsed,
      draft Sample.expensify i (Some (data "bob"%string)) = (log, inr d)
      /\ draft Sample.expensify i (Some (data "alice"%string)) = (log', inr d')
      /\ issueAssignees d = [lit "bob"]
      /\ issueAssignees d' = [lit "alice"]
      /\ getStagingDeployCashData Sample.expensify (ticket (issueBody d))
         = inr parsed
      /\ getStagingDeployCashData Sample.expensify (ticket (issueBody d'))
         = inr parsed
      /\ PRList parsed
         = [{| pr_url := Sample.pull "101"; pr_number := 101%N;
               isVerified := true |}]
      /\ internalQAPRList parsed
         = [{| item_url := Sample.pull "100"; item_number := 100%N;
               isResolved := false |}].
Proof.
  cbv zeta. split; [reflexivity|].
  eexists. eexists. eexists. eexists. eexists.
  split; [vm_compute; reflexivity|].
  split; [vm_compute; reflexivity|].
  split; [reflexivity|]. split; [reflexivity|].
  split; [vm_compute; reflexivity|].
  split; [vm_compute; reflexivity|].
  split; reflexivity.
Qed.

(** ** The order of the lines in the text *)

Lemma group_2_found (l : list result) :
  map (group 2) l
  = map (fun c => match cap 2 c with Some v => v | None => [] end)
        (map groups l).
Proof. now rewrite map_map. Qed.

Lemma entry_found_line (entries : list Entry) :
  map (fun c => match cap 2 c with Some v => v | None => [] end)
      (map entry_found entries)
  = map (fun e => e_url e ++ e_tail e) entries.
Proof. rewrite map_map. apply map_ext. reflexivity. Qed.

Lemma lines_read_document (tag : str) (prE qaE dbE : list Entry)
      (tail : list str) :
  document_ok tag prE qaE dbE tail ->
  let body := text_of (document_lines tag prE qaE dbE tail) in
  lines_read PR_LIST_SECTION PR_LINE body
  = map (fun e => e_url e ++ e_tail e) prE
  /\ lines_read INTERNAL_QA_SECTION INTERNAL_QA_LINE body
     = map (fun e => e_url e ++ e_tail e) qaE
  /\ lines_read DEPLOY_BLOCKER_SECTION DEPLOY_BLOCKER_LINE body
     = map (fun e => e_url e ++ e_tail e) dbE.
Proof.
  intros Hok body. unfold lines_read, body.
  pose proof (find_PR_section Hok) as Hpr.
  pose proof (find_QA_section Hok) as Hqa.
  pose proof (find_DB_section Hok) as Hdb.
  destruct Hok as (_ & Opr & Oqa & Odb & _).
  split; [|split].
  - destruct prE as [|e es]; [now rewrite Hpr|].
    destruct Hpr as (x & -> & ->).
    now rewrite group_2_found, (PR_LINE_matchAll Opr), entry_found_line.
  - destruct qaE as [|e es]; [now rewrite Hqa|].
    destruct Hqa as (x & -> & ->).
    now rewrite group_2_found, (INTERNAL_QA_LINE_matchAll Oqa),
      entry_found_line.
  - destruct dbE as [|e es]; [now rewrite Hdb|].
    destruct Hdb as (x & -> & ->).
    now rewrite group_2_found, (DEPLOY_BLOCKER_LINE_matchAll Odb),
      entry_found_line.
Qed.

(** C4, on the code: given the [http] and the [https] URL of pull
    request 5, which is fetched, the body has a line for each, one after
    the other: the list holds the number twice and is not in strictly
    ascending order. *)
Lemma same_number_twice_in_the_main_list :
  let a := lit "http://github.com/Expensify/App/pull/5" in
  let b := lit "https://github.com/Expensify/App/pull/5" in
  pull_number a = 5%N /\ pull_number b = 5%N
  /\ exists log d,
      draft Sample.expensify (Sample.input "1.2.3-4" [a; b])
            (Some [Sample.fetched 5 b "Fix" [] "carol"])
      = (log, inr d)
      /\ lines_read PR_LIST_SECTION PR_LINE (issueBody d) = [a; b].
Proof.
  cbv zeta. split; [vm_compute; reflexivity|]. split; [vm_compute; reflexivity|].
  eexists. eexists. split; vm_compute; reflexivity.
Qed.

(** C4, amended: in a body generated from URLs of the platform, the
    lines of the main list and those of the list of deploy blockers, read
    in the order in which they stand in the text, hold each URL once and
    are in ascending order of the number in the URL, strictly when
    different URLs of the list have different numbers; every deploy
    blocker given has its line, every line of the main list is of a pull
    request given, and the internal QA list holds each URL once. *)
Theorem main_and_blocker_lists_sorted
        (C : Const) (i : BodyInput) (data : option (list PullRequest))
        (log : Console) (d : IssueDraft)
        (Hwf : well_formed C i (or_empty data))
        (H : draft C i data = (log, inr d)) :
  let main := lines_read PR_LIST_SECTION PR_LINE (issueBody d) in
  let blockers :=
    lines_read DEPLOY_BLOCKER_SECTION DEPLOY_BLOCKER_LINE (issueBody d) in
  let internal :=
    lines_read INTERNAL_QA_SECTION INTERNAL_QA_LINE (issueBody d) in
  (StronglySorted (key_le pull_number) main
   /\ NoDup main
   /\ (forall u, In u main -> In u (in_PRList i))
   /\ ((forall a b, In a main -> In b main ->
                    pull_number a = pull_number b -> a = b) ->
       StronglySorted (key_lt pull_number) main))
  /\ (StronglySorted (key_le issue_or_pull_number) blockers
      /\ NoDup blockers
      /\ (forall u, In u blockers <-> In u (in_deployBlockers i))
      /\ ((forall a b, In a blockers -> In b blockers ->
                       issue_or_pull_number a = issue_or_pull_number b ->
                       a = b) ->
          StronglySorted (key_lt issue_or_pull_number) blockers))
  /\ exists entries,
       internal = map (fun um => fst um ++ lit " - @" ++ snd um) entries
       /\ NoDup (map fst entries).
Proof.
  apply draft_shape in H as (qa & Hqa & _ & _ & Hbody & _).
  pose proof (@generated_document_ok C i (or_empty data) qa Hwf Hqa) as Hok.
  destruct (lines_read_document Hok) as (Rpr & Rqa & Rdb).
  rewrite <- generated_body_document, <- Hbody in Rpr, Rqa, Rdb.
  intros main blockers internal.
  assert (Em : main = mainList i qa).
  { unfold main. rewrite Rpr. unfold PR_entries. rewrite map_map.
    cbn [e_url e_tail]. rewrite <- (map_id (mainList i qa)) at 2.
    apply map_ext. intros u. apply app_nil_r. }
  assert (Eb : blockers = blockerList i).
  { unfold blockers. rewrite Rdb. unfold PR_entries. rewrite map_map.
    cbn [e_url e_tail]. rewrite <- (map_id (blockerList i)) at 2.
    apply map_ext. intros u. apply app_nil_r. }
  assert (Ei : internal = map (fun um => fst um ++ lit " - @" ++ snd um) qa).
  { unfold internal. rewrite Rqa. unfold QA_entries. now rewrite map_map. }
  rewrite Em, Eb.
  assert (S1 : StronglySorted (key_le pull_number) (mainList i qa))
    by apply sortBy_sorted.
  assert (N1 : NoDup (mainList i qa)) by apply sortBy_unique_NoDup.
  assert (S2 : StronglySorted (key_le issue_or_pull_number) (blockerList i))
    by apply sortBy_sorted.
  assert (N2 : NoDup (blockerList i)) by apply sortBy_unique_NoDup.
  split; [|split].
  - split; [exact S1|]. split; [exact N1|]. split.
    + intros u Hu. unfold mainList in Hu.
      apply sortBy_In, unique_In, difference_In in Hu. apply Hu.
    + now apply strictly_sorted.
  - split; [exact S2|]. split; [exact N2|]. split.
    + intros u. unfold blockerList. now rewrite sortBy_In, unique_In.
    + now apply strictly_sorted.
  - exists qa. split; [exact Ei|].
    apply (internalQAPRMap_from_keys _ _ Hqa). constructor.
Qed.

Lemma main_and_blocker_lists_sorted_witness :
  let issue n := lit "https://github.com/Expensify/App/issues/" ++ lit n in
  let i := {| in_tag := lit "1.2.3-4";
              in_PRList := [Sample.pull "101"; Sample.pull "100";
                            Sample.pull "101"; Sample.pull "99"];
              in_verifiedPRList := [];
              in_deployBlockers := [issue "7"%string; issue "5"%string;
                                    issue "7"%string];
              in_resolvedDeployBlockers := [];
              in_resolvedInternalQAPRs := [];
              in_isTimingDashboardChecked := false;
              in_isFirebaseChecked := false;
              in_isGHStatusChecked := false |} in
  let data := [Sample.fetched 99 (Sample.pull "99") "a" ["InternalQA"%string]
                              "alice"] in
  exists log d,
    draft Sample.expensify i (Some data) = (log, inr d)
    /\ lines_read PR_LIST_SECTION PR_LINE (issueBody d)
       = [Sample.pull "100"; Sample.pull "101"]
    /\ lines_read DEPLOY_BLOCKER_SECTION DEPLOY_BLOCKER_LINE (issueBody d)
       = [issue "5"%string; issue "7"%string]
    /\ StronglySorted (key_le pull_number)
         (lines_read PR_LIST_SECTION PR_LINE (issueBody d))
    /\ NoDup (lines_read DEPLOY_BLOCKER_SECTION DEPLOY_BLOCKER_LINE
                         (issueBody d)).
Proof.
  intros issue i data.
  assert (Hwf : well_formed Sample.expensify i (or_empty (Some data))).
  { split; [|split; [|split]].
    - exists (lit "1"), (lit "2"), (lit "3"), (lit "-4").
      repeat split; try discriminate; try reflexivity.
      right. exists (lit "4"). repeat split. discriminate.
    - repeat constructor; apply sample_pull_URL; split;
        discriminate || reflexivity.
    - assert (I : forall n, digits (lit n) -> issue_or_pull_URL (issue n)).
      { intros n Hn. exists (lit n). right.
        exists (lit "https://github.com"), (lit "Expensify"), (lit "App").
        repeat split; try reflexivity; try apply Hn. now left. }
      repeat constructor; apply I; split; discriminate || reflexivity.
    - constructor; [|constructor]. intros _. split.
      + apply sample_pull_URL. split; discriminate || reflexivity.
      + exists (lit "alice"). split; reflexivity. }
  destruct (draft Sample.expensify i (Some data)) as [log [e|d]] eqn:E;
    [vm_compute in E; discriminate|].
  exists log, d. split; [reflexivity|].
  destruct (@main_and_blocker_lists_sorted Sample.expensify i (Some data)
              log d Hwf E) as ((S1 & _) & (_ & N2 & _) & _).
  assert (Eb : issueBody d = body_of i data [(Sample.pull "99", lit "alice")]).
  { vm_compute in E. injection E as _ <-. vm_compute. reflexivity. }
  split; [rewrite Eb; vm_compute; reflexivity|].
  split; [rewrite Eb; vm_compute; reflexivity|].
  split; [exact S1 | exact N2].
Defined.

(** ** The lines of the internal QA list *)






(** ** Finding the ticket *)






(** * Further properties *)

(** ** The retry loop *)

Lemma attempts_app (a b : list Event) :
  attempts (a ++ b) = attempts a + attempts b.
Proof. unfold attempts. now rewrite filter_app, length_app. Qed.

Lemma attempts_printed (l : Console) : attempts (map Printed l) = 0.
Proof. induction l as [|x l IH]; [reflexivity | exact IH]. Qed.

Lemma slept_app (a b : list Event) : slept (a ++ b) = slept a ++ slept b.
Proof. unfold slept. apply flat_map_app. Qed.

Lemma slept_printed (l : Console) : slept (map Printed l) = [].
Proof. induction l as [|x l IH]; [reflexivity | exact IH]. Qed.

Lemma request_limited (fuel : nat) (answers : nat -> Answer) (rc : nat)
      (e : Error) (d : N) :
  answers rc = RateLimited e d -> rc <= 5 ->
  request (S fuel) answers rc
  = match request fuel answers (S rc) with
    | Some (events', outcome) =>
        Some ((Attempt rc :: map Printed (fst (onRateLimit d rc)))
                ++ Slept (d * retryAfterBaseValue) :: events', outcome)
    | None => None
    end.
Proof.
  intros Ha Hrc. cbn [request]. rewrite Ha. unfold handle, onRateLimit.
  apply Nat.leb_le in Hrc. rewrite Hrc. reflexivity.
Qed.

Lemma request_settles (fuel : nat) (answers : nat -> Answer) (rc : nat) :
  (forall e d, answers rc <> RateLimited e d) ->
  exists events,
    request (S fuel) answers rc = Some (events, settles (answers rc))
    /\ attempts events = 1 /\ slept events = [].
Proof.
  intros Ha. cbn [request].
  destruct (answers rc) as [|e d|e d|e] eqn:E.
  - eexists. repeat split.
  - exfalso. now apply (Ha e d).
  - eexists. repeat split.
  - eexists. repeat split.
Qed.

Lemma request_last (fuel : nat) (answers : nat -> Answer) (rc : nat) :
  (forall e d, answers rc <> RateLimited e d) \/ 6 <= rc ->
  exists events,
    request (S fuel) answers rc = Some (events, settles (answers rc))
    /\ attempts events = 1 /\ slept events = [].
Proof.
  intros [Ha|Hrc]; [now apply request_settles|].
  cbn [request].
  destruct (answers rc) as [|e d|e d|e] eqn:E.
  - eexists. repeat split.
  - unfold handle, onRateLimit.
    replace (Nat.leb rc 5) with false by (symmetry; apply Nat.leb_gt; lia).
    eexists. repeat split.
  - eexists. repeat split.
  - eexists. repeat split.
Qed.

Lemma retried_until_answer (answers : nat -> Answer)
      (errs : nat -> Error) (delays : nat -> N) (k : nat) :
  forall rc fuel,
    k = 0 \/ rc + k <= 6 -> k < fuel ->
    (forall j, j < k -> answers (rc + j) = RateLimited (errs (rc + j)) (delays (rc + j))) ->
    (forall e d, answers (rc + k) <> RateLimited e d) \/ 6 <= rc + k ->
    exists events,
      request fuel answers rc = Some (events, settles (answers (rc + k)))
      /\ attempts events = S k
      /\ slept events
         = map (fun j => N.mul (delays (rc + j)) retryAfterBaseValue) (seq 0 k).
Proof.
  induction k as [|k IH]; intros rc fuel Hrc Hfuel Hl Ha.
  - destruct fuel as [|fuel]; [lia|]. rewrite Nat.add_0_r in *.
    now apply request_last.
  - destruct fuel as [|fuel]; [lia|].
    assert (H0 : answers rc = RateLimited (errs rc) (delays rc)).
    { specialize (Hl 0). rewrite Nat.add_0_r in Hl. apply Hl. lia. }
    rewrite (request_limited fuel answers H0) by lia.
    destruct (IH (S rc) fuel) as (events & E & Hat & Hsl).
    + lia.
    + lia.
    + intros j Hj. replace (S rc + j) with (rc + S j) by lia. apply Hl. lia.
    + replace (S rc + k) with (rc + S k) by lia. exact Ha.
    + rewrite E. replace (S rc + k) with (rc + S k) by lia.
      eexists. split; [reflexivity|]. split.
      * rewrite attempts_app.
        change (attempts (Attempt rc
                            :: map Printed (fst (onRateLimit (delays rc) rc))))
          with (S (attempts (map Printed (fst (onRateLimit (delays rc) rc))))).
        rewrite attempts_printed.
        change (attempts (Slept (delays rc * retryAfterBaseValue) :: events))
          with (attempts events).
        rewrite Hat. reflexivity.
      * rewrite slept_app.
        change (slept (Attempt rc
                         :: map Printed (fst (onRateLimit (delays rc) rc))))
          with (slept (map Printed (fst (onRateLimit (delays rc) rc)))).
        rewrite slept_printed.
        change (slept (Slept (delays rc * retryAfterBaseValue) :: events))
          with ((delays rc * retryAfterBaseValue)%N :: slept events).
        rewrite Hsl.
        cbn [seq map app]. rewrite Nat.add_0_r. f_equal.
        rewrite <- seq_shift, map_map.
        apply map_ext. intros j. do 2 f_equal. lia.
Qed.

Lemma request_bounded (answers : nat -> Answer) (d : nat) :
  forall rc fuel,
    rc + d = 6 -> d < fuel ->
    exists events outcome,
      request fuel answers rc = Some (events, outcome)
      /\ attempts events <= S d /\ length (slept events) <= d.
Proof.
  induction d as [|d IH]; intros rc fuel Hrc Hfuel;
    (destruct fuel as [|fuel]; [lia|]).
  - assert (rc = 6) by lia. subst rc. cbn [request].
    destruct (answers 6) as [|e r|e r|e];
      eexists; eexists; (split; [reflexivity|]); split; cbn; lia.
  - destruct (answers rc) as [|e r|e r|e] eqn:E.
    + cbn [request]. rewrite E.
      eexists; eexists; (split; [reflexivity|]); split; cbn; lia.
    + rewrite (request_limited fuel answers E) by lia.
      destruct (IH (S rc) fuel) as (events & outcome & Er & Hat & Hsl);
        [lia | lia |].
      rewrite Er. eexists; eexists; (split; [reflexivity|]). split.
      * rewrite attempts_app.
        change (attempts (Attempt rc :: map Printed (fst (onRateLimit r rc))))
          with (S (attempts (map Printed (fst (onRateLimit r rc))))).
        rewrite attempts_printed.
        change (attempts (Slept (r * retryAfterBaseValue) :: events))
          with (attempts events). lia.
      * rewrite slept_app.
        change (slept (Attempt rc :: map Printed (fst (onRateLimit r rc))))
          with (slept (map Printed (fst (onRateLimit r rc)))).
        rewrite slept_printed.
        change (slept (Slept (r * retryAfterBaseValue) :: events))
          with ((r * retryAfterBaseValue)%N :: slept events).
        cbn [app length]. lia.
    + cbn [request]. rewrite E.
      eexists; eexists; (split; [reflexivity|]); split; cbn; lia.
    + cbn [request]. rewrite E.
      eexists; eexists; (split; [reflexivity|]); split; cbn; lia.
Qed.

(** X1: whatever retry count [rc] a request carries when it is first
    sent, if it hits the rate limit on its first [k] attempts, made with
    the counts [rc] to [rc + k - 1], all of them at most 5, and the next
    attempt gets another answer or is made with a count of 6 or more,
    then the request ends on that attempt: it is fulfilled when the
    answer is a response, and rejected with the error of that attempt
    when the attempt fails, hits the abuse limit, which is never retried,
    or hits the rate limit with a count above 5.  It is sent [k + 1]
    times, and before each retry the plug-in waits the delay the server
    asked for times [retryAfterBaseValue]. *)
Theorem request_ends_on_first_other_answer
        (answers : nat -> Answer) (errs : nat -> Error) (delays : nat -> N)
        (rc k n : nat)
        (Hk : k = 0 \/ rc + k <= 6)
        (Hlimited : forall j, j < k ->
                      answers (rc + j)
                      = RateLimited (errs (rc + j)) (delays (rc + j)))
        (Hother : (forall e d, answers (rc + k) <> RateLimited e d)
                  \/ 6 <= rc + k) :
  exists events,
    request (S k + n) answers rc = Some (events, settles (answers (rc + k)))
    /\ attempts events = S k
    /\ slept events
       = map (fun j => N.mul (delays (rc + j)) retryAfterBaseValue) (seq 0 k).
Proof.
  apply (@retried_until_answer answers errs delays k rc (S k + n));
    [exact Hk | lia | exact Hlimited | exact Hother].
Qed.

Lemma request_ends_on_first_other_answer_witness :
  let answers := fun j => if Nat.ltb j 2
                          then RateLimited Sample.unavailable 3%N
                          else AbuseLimited Sample.unavailable 1%N in
  let limited := fun _ : nat => RateLimited Sample.unavailable 3%N in
  (exists events,
      request 3 answers 0 = Some (events, Rejected Sample.unavailable)
      /\ attempts events = 3
      /\ slept events = [6000%N; 6000%N])
  /\ (exists events,
         request 5 limited 2 = Some (events, Rejected Sample.unavailable)
         /\ attempts events = 5
         /\ slept events = [6000%N; 6000%N; 6000%N; 6000%N]).
Proof.
  intros answers limited. split.
  - assert (Hl : forall j, j < 2 ->
                   answers (0 + j)
                   = RateLimited ((fun _ => Sample.unavailable) (0 + j))
                                 ((fun _ => 3%N) (0 + j))).
    { intros j Hj. unfold answers. cbn [Nat.add].
      destruct (Nat.ltb j 2) eqn:E; [reflexivity|].
      apply Nat.ltb_ge in E. lia. }
    assert (Ho : (forall e d, answers (0 + 2) <> RateLimited e d)
                 \/ 6 <= 0 + 2)
      by (left; intros e d; discriminate).
    exact (@request_ends_on_first_other_answer answers
             (fun _ => Sample.unavailable) (fun _ => 3%N) 0 2 0
             (or_intror (le_S _ _ (le_S _ _ (le_S _ _ (le_S _ _ (le_n 2))))))
             Hl Ho).
  - assert (Hl : forall j, j < 4 ->
                   limited (2 + j)
                   = RateLimited ((fun _ => Sample.unavailable) (2 + j))
                                 ((fun _ => 3%N) (2 + j)))
      by reflexivity.
    exact (@request_ends_on_first_other_answer limited
             (fun _ => Sample.unavailable) (fun _ => 3%N) 2 4 0
             (or_intror (le_n 6)) Hl (or_intror (le_n 6))).
Defined.

(** X2: whatever the remote answers, a request is sent 7 times at most,
    with 6 waits at most, and then settles. *)
Theorem request_is_sent_seven_times_at_most (answers : nat -> Answer) (n : nat) :
  exists events outcome,
    request (7 + n) answers 0 = Some (events, outcome)
    /\ attempts events <= 7 /\ length (slept events) <= 6.
Proof.
  apply request_bounded; lia.
Qed.

(** ** The pages the fetch of pull requests asks for *)

Lemma filter_none (T : Type) (f : T -> bool) (l : list T) :
  (forall x, In x l -> f x = false) -> filter f l = [].
Proof.
  induction l as [|x l IH]; intros H; simpl; [reflexivity|].
  rewrite (H x) by now left. apply IH. intros y Hy. apply H. now right.
Qed.

(** X3: asked for no pull request, [fetchAllPullRequests] still requests
    every page of the listing, and is fulfilled with an empty list. *)
Theorem fetch_of_no_number_requests_every_page
        (pulls : PullsList) (p : list PullRequest)
        (ps : list (list PullRequest))
        (Hlist : pulls pulls_list_parameters = listing (p :: ps)) :
  fetchAllPullRequests pulls [] = mkFetched [] (S (length ps)) (Some []).
Proof.
  unfold fetchAllPullRequests, paginate. rewrite Hlist.
  cbn [listing first_page next_pages].
  rewrite gather_exhausts.
  - f_equal. f_equal. apply filter_none. reflexivity.
  - apply Forall_forall. intros q _. unfold oldestPR. cbn.
    induction q as [|x q IH]; [reflexivity | exact IH].
Qed.

Lemma fetch_of_no_number_requests_every_page_witness :
  fetchAllPullRequests
    (fun _ => listing [[Sample.fetched 3 (Sample.pull "3") "a" [] "x"];
                       [Sample.fetched 2 (Sample.pull "2") "b" [] "y"];
                       [Sample.fetched 1 (Sample.pull "1") "c" [] "z"]])
    []
  = mkFetched [] 3 (Some []).
Proof.
  exact (@fetch_of_no_number_requests_every_page
           (fun _ => listing [[Sample.fetched 3 (Sample.pull "3") "a" [] "x"];
                              [Sample.fetched 2 (Sample.pull "2") "b" [] "y"];
                              [Sample.fetched 1 (Sample.pull "1") "c" [] "z"]])
           _ _ eq_refl).
Defined.

(** X4: when a page cannot be fetched before the oldest requested number
    has shown up, the pull requests of the pages fetched before it are
    lost: the failure is written to the console and the result is
    [undefined]. *)
Theorem fetch_fails_on_failed_page
        (pulls : PullsList) (target : list N)
        (before : list (list PullRequest)) (e : Error)
        (after : list PageResponse)
        (Hremote : page_responses (pulls pulls_list_parameters)
                   = map PageOk before ++ PageFail e :: after)
        (Hbefore : Forall (fun q => existsb (is_oldest (oldestPR target)) q
                                    = false) before) :
  fetchAllPullRequests pulls target
  = mkFetched [(ERROR, "Failed to get PR list"%string)]
              (S (length before)) None.
Proof.
  unfold fetchAllPullRequests, paginate.
  rewrite (@gather_skips (oldestPR target) before [] 0 _ _ (PageFail e) after
             Hremote Hbefore).
  destruct after; reflexivity.
Qed.

Lemma fetch_fails_on_failed_page_witness :
  fetchAllPullRequests
    (fun _ => mkRemote (PageOk [Sample.fetched 9 (Sample.pull "9") "a" [] "x"])
                       [PageFail Sample.unavailable; PageOk []])
    [9%N; 7%N]
  = mkFetched [(ERROR, "Failed to get PR list"%string)] 2 None.
Proof.
  apply (@fetch_fails_on_failed_page
           (fun _ => mkRemote
                       (PageOk [Sample.fetched 9 (Sample.pull "9") "a" [] "x"])
                       [PageFail Sample.unavailable; PageOk []])
           [9%N; 7%N]
           [[Sample.fetched 9 (Sample.pull "9") "a" [] "x"]]
           Sample.unavailable [PageOk []] eq_refl).
  repeat constructor.
Defined.

(** X5: the page on which the oldest requested number shows up is the
    last one requested, whatever the remote would answer to requests
    for the pages behind it, failures included. *)
Theorem fetch_never_asks_behind_oldest
        (pulls : PullsList) (target : list N) (o : N)
        (before : list (list PullRequest)) (page : list PullRequest)
        (after : list PageResponse)
        (Hremote : page_responses (pulls pulls_list_parameters)
                   = map PageOk before ++ PageOk page :: after)
        (Holdest : oldestPR target = Some o)
        (Hbefore : Forall (fun q => has_number o q = false) before)
        (Hpage : has_number o page = true) :
  fetchAllPullRequests pulls target
  = mkFetched [] (S (length before))
              (Some (filter (requested target) (concat (before ++ [page])))).
Proof.
  unfold fetchAllPullRequests, paginate. rewrite Holdest.
  rewrite (@gather_skips (Some o) before [] 0 _ _ (PageOk page) after
             Hremote Hbefore).
  rewrite gather_page_stop by exact Hpage.
  rewrite concat_app. cbn [concat app]. rewrite app_nil_r. reflexivity.
Qed.

Lemma fetch_never_asks_behind_oldest_witness :
  fetch_requests
    (fetchAllPullRequests
       (fun _ => mkRemote (PageOk [Sample.fetched 9 (Sample.pull "9") "a" [] "x"])
                          [PageOk [Sample.fetched 7 (Sample.pull "7") "b" [] "y"];
                           PageFail Sample.unavailable])
       [9%N; 7%N])
  = 2.
Proof.
  assert (Hb : Forall (fun q => has_number 7%N q = false)
                      [[Sample.fetched 9 (Sample.pull "9") "a" [] "x"]])
    by (repeat constructor).
  rewrite (@fetch_never_asks_behind_oldest
             (fun _ => mkRemote
                         (PageOk [Sample.fetched 9 (Sample.pull "9") "a" [] "x"])
                         [PageOk [Sample.fetched 7 (Sample.pull "7") "b" [] "y"];
                          PageFail Sample.unavailable])
             [9%N; 7%N] 7%N
             [[Sample.fetched 9 (Sample.pull "9") "a" [] "x"]]
             [Sample.fetched 7 (Sample.pull "7") "b" [] "y"]
             [PageFail Sample.unavailable] eq_refl eq_refl
             Hb eq_refl).
  reflexivity.
Defined.

(** ** The other listings *)

Section Routes.
Variables D T : Type.
Variable f : list D -> list T.

Lemma gather_route_all (ps : list (list D)) :
  forall p results requests,
    gather_route (fun data => (f data, false)) results requests
                 (Ok p) (map Ok ps)
    = (Fulfilled (results ++ flat_map f (p :: ps)), requests + S (length ps)).
Proof.
  induction ps as [|q ps IH]; intros p results requests; cbn [map gather_route].
  - simpl. rewrite app_nil_r. f_equal. lia.
  - rewrite IH. cbn [flat_map length]. rewrite <- app_assoc. f_equal. lia.
Qed.

Lemma gather_route_fails (before : list (list D)) (e : Error) :
  forall after first more results requests,
    first :: more = map Ok before ++ Fail e :: after ->
    gather_route (fun data => (f data, false)) results requests first more
    = (Rejected e, requests + S (length before)).
Proof.
  induction before as [|b before IH];
    intros after first more results requests E; simpl in E.
  - injection E as -> ->. destruct after; simpl; f_equal; lia.
  - injection E as -> ->.
    destruct (map Ok before ++ Fail e :: after) as [|q more'] eqn:Em;
      [now destruct before|].
    cbn [gather_route].
    rewrite (IH after q more' _ _ (eq_sym Em)). cbn [length]. f_equal. lia.
Qed.

Lemma paginate_route_all (p : list D) (ps : list (list D)) :
  paginate_route (fun data => (f data, false)) (pages_route (p :: ps))
  = (Fulfilled (flat_map f (p :: ps)), S (length ps)).
Proof.
  unfold paginate_route. cbn [pages_route first_response next_responses].
  now rewrite gather_route_all.
Qed.

Lemma paginate_route_fails (route : Route D) (before : list (list D))
      (e : Error) (after : list (Response D)) :
  responses route = map Ok before ++ Fail e :: after ->
  paginate_route (fun data => (f data, false)) route
  = (Rejected e, S (length before)).
Proof.
  intros H. unfold paginate_route.
  now rewrite (@gather_route_fails before e after _ _ [] 0 H).
Qed.
End Routes.

Lemma flat_map_map (X Y : Type) (g : X -> Y) (l : list (list X)) :
  flat_map (map g) l = map g (concat l).
Proof.
  induction l as [|x l IH]; simpl; [reflexivity|].
  now rewrite IH, map_app.
Qed.

Lemma flat_map_as_is (X : Type) (l : list (list X)) :
  flat_map (fun data => data) l = concat l.
Proof.
  induction l as [|x l IH]; simpl; [reflexivity | now rewrite IH].
Qed.

(** X6: [getAllComments] and [getAllReviewComments] request every page
    of the listing and are fulfilled with the bodies of all its comments
    or reviews, in the order of the listing. *)
Theorem all_comments_of_every_page
        (C : Const)
        (listComments : NumberParameters -> Route Comment)
        (listReviews : NumberParameters -> Route Review)
        (n : N)
        (c : list Comment) (cs : list (list Comment))
        (r : list Review) (rs : list (list Review))
        (Hcomments : listComments (number_parameters C n)
                     = pages_route (c :: cs))
        (Hreviews : listReviews (number_parameters C n)
                    = pages_route (r :: rs)) :
  getAllComments C listComments n
  = (Fulfilled (map comment_body (concat (c :: cs))), S (length cs))
  /\ getAllReviewComments C listReviews n
     = (Fulfilled (map review_body (concat (r :: rs))), S (length rs)).
Proof.
  unfold getAllComments, getAllReviewComments.
  rewrite Hcomments, Hreviews, !paginate_route_all, !flat_map_map.
  split; reflexivity.
Qed.

Lemma all_comments_of_every_page_witness :
  getAllComments Sample.expensify
    (fun _ => pages_route [[mkComment 1 (lit "a"); mkComment 2 (lit "b")];
                           [mkComment 3 (lit "c")]]) 7%N
  = (Fulfilled [lit "a"; lit "b"; lit "c"], 2).
Proof.
  exact (proj1 (@all_comments_of_every_page Sample.expensify
                  (fun _ => pages_route [[mkComment 1 (lit "a");
                                          mkComment 2 (lit "b")];
                                         [mkComment 3 (lit "c")]])
                  (fun _ => pages_route [[mkReview 1 (lit "r")]])
                  7%N _ _ _ _ eq_refl eq_refl)).
Defined.

Lemma last_app (T : Type) (l : list T) (x : T) : Js.last (l ++ [x]) = Some x.
Proof.
  induction l as [|y l IH]; [reflexivity|].
  cbn [app Js.last]. destruct (l ++ [x]) eqn:E; [now destruct l | exact IH].
Qed.

(** X7: [getActorWhoClosedIssue] is fulfilled with the login of the
    actor of the last [closed] event of the whole timeline of the issue,
    every page of which it requests, and with the empty string when that
    event has no actor or when no event is a [closed] one. *)
Theorem actor_of_last_closed_event
        (C : Const) (listEvents : NumberParameters -> Route IssueEvent)
        (issueNumber : N)
        (p : list IssueEvent) (ps : list (list IssueEvent))
        (Hlist : listEvents (number_parameters C issueNumber)
                 = pages_route (p :: ps)) :
  (forallb (fun ev => negb (is_closed ev)) (concat (p :: ps)) = true ->
   getActorWhoClosedIssue C listEvents issueNumber
   = (Fulfilled [], S (length ps)))
  /\ (forall before ev after,
        concat (p :: ps) = before ++ ev :: after ->
        is_closed ev = true ->
        forallb (fun ev' => negb (is_closed ev')) after = true ->
        getActorWhoClosedIssue C listEvents issueNumber
        = (Fulfilled (match actor ev with
                      | Some u => login u
                      | None => []
                      end), S (length ps))).
Proof.
  unfold getActorWhoClosedIssue, as_is.
  rewrite Hlist, paginate_route_all, flat_map_as_is. cbn [then_].
  split.
  - intros H. rewrite filter_none; [reflexivity|].
    intros x Hx. rewrite forallb_forall in H.
    apply negb_true_iff. now apply H.
  - intros before ev after E Hev Hafter. rewrite E, filter_app.
    cbn [filter]. rewrite Hev.
    rewrite (@filter_none _ is_closed after).
    + now rewrite last_app.
    + intros x Hx. rewrite forallb_forall in Hafter.
      apply negb_true_iff. now apply Hafter.
Qed.

Lemma actor_of_last_closed_event_witness :
  getActorWhoClosedIssue Sample.expensify
    (fun _ => pages_route
                [[mkIssueEvent (lit "closed") (Some (mkUser (lit "ann")));
                  mkIssueEvent (lit "reopened") (Some (mkUser (lit "bob")))];
                 [mkIssueEvent (lit "closed") (Some (mkUser (lit "cat")));
                  mkIssueEvent (lit "labeled") None]]) 7%N
  = (Fulfilled (lit "cat"), 2).
Proof.
  exact (proj2 (@actor_of_last_closed_event Sample.expensify
                  (fun _ => pages_route
                     [[mkIssueEvent (lit "closed") (Some (mkUser (lit "ann")));
                       mkIssueEvent (lit "reopened") (Some (mkUser (lit "bob")))];
                      [mkIssueEvent (lit "closed") (Some (mkUser (lit "cat")));
                       mkIssueEvent (lit "labeled") None]])
                  7%N _ _ eq_refl)
               [mkIssueEvent (lit "closed") (Some (mkUser (lit "ann")));
                mkIssueEvent (lit "reopened") (Some (mkUser (lit "bob")))]
               (mkIssueEvent (lit "closed") (Some (mkUser (lit "cat"))))
               [mkIssueEvent (lit "labeled") None]
               eq_refl eq_refl eq_refl).
Defined.

Lemma find_first (T : Type) (f : T -> bool) (before after : list T) (x : T) :
  forallb (fun y => negb (f y)) before = true -> f x = true ->
  find f (before ++ x :: after) = Some x.
Proof.
  induction before as [|y before IH]; simpl; intros Hb Hx.
  - now rewrite Hx.
  - apply andb_true_iff in Hb as [Hy Hb]. apply negb_true_iff in Hy.
    rewrite Hy. now apply IH.
Qed.

Lemma find_none (T : Type) (f : T -> bool) (l : list T) :
  forallb (fun y => negb (f y)) l = true -> find f l = None.
Proof.
  induction l as [|y l IH]; simpl; intros H; [reflexivity|].
  apply andb_true_iff in H as [Hy Hl]. apply negb_true_iff in Hy.
  rewrite Hy. now apply IH.
Qed.

(** X8: [getArtifactByName] requests every page of the listing of the
    artifacts, also when an artifact of the name is on an earlier page,
    and is fulfilled with the first artifact of that name in the order
    of the listing, or with [undefined] when there is none. *)
Theorem first_artifact_of_the_name
        (C : Const) (listArtifactsForRepo : RepoParameters -> Route Artifact)
        (artefactName : str)
        (p : list Artifact) (ps : list (list Artifact))
        (Hlist : listArtifactsForRepo
                   {| rp_owner := GITHUB_OWNER C; rp_repo := APP_REPO C;
                      rp_per_page := 100 |}
                 = pages_route (p :: ps)) :
  (forall before a after,
      concat (p :: ps) = before ++ a :: after ->
      artifact_name a = artefactName ->
      Forall (fun b => artifact_name b <> artefactName) before ->
      getArtifactByName C listArtifactsForRepo artefactName
      = (Fulfilled (Some a), S (length ps)))
  /\ (Forall (fun b => artifact_name b <> artefactName) (concat (p :: ps)) ->
      getArtifactByName C listArtifactsForRepo artefactName
      = (Fulfilled None, S (length ps))).
Proof.
  assert (N : forall l,
             Forall (fun b => artifact_name b <> artefactName) l ->
             forallb (fun y => negb (str_eqb (artifact_name y) artefactName)) l
             = true).
  { intros l H. apply forallb_forall. intros x Hx.
    rewrite Forall_forall in H. apply negb_true_iff, str_eqb_neq. now apply H. }
  unfold getArtifactByName, as_is.
  rewrite Hlist, paginate_route_all, flat_map_as_is. cbn [then_].
  split.
  - intros before a after E Ha Hb. rewrite E.
    rewrite find_first; [reflexivity | now apply N |].
    now apply str_eqb_spec.
  - intros H. rewrite find_none; [reflexivity | now apply N].
Qed.

Lemma first_artifact_of_the_name_witness :
  getArtifactByName Sample.expensify
    (fun _ => pages_route [[mkArtifact 1 (lit "ios"); mkArtifact 2 (lit "web")];
                           [mkArtifact 3 (lit "web")]])
    (lit "web")
  = (Fulfilled (Some (mkArtifact 2 (lit "web"))), 2).
Proof.
  assert (H : Forall (fun b => artifact_name b <> lit "web")
                     [mkArtifact 1 (lit "ios")])
    by (repeat constructor; discriminate).
  exact (proj1 (@first_artifact_of_the_name Sample.expensify
                  (fun _ => pages_route [[mkArtifact 1 (lit "ios");
                                          mkArtifact 2 (lit "web")];
                                         [mkArtifact 3 (lit "web")]])
                  (lit "web") _ _ eq_refl)
               [mkArtifact 1 (lit "ios")] (mkArtifact 2 (lit "web"))
               [mkArtifact 3 (lit "web")] eq_refl eq_refl H).
Defined.

(** X9: the listings that have no [catch] are rejected when a page
    cannot be fetched, with the error of that request and without
    asking for a further page: [getActorWhoClosedIssue] does not answer
    the empty string, [getArtifactByName] does not answer [undefined],
    and [getAllComments] keeps nothing of the pages it has read. *)
Theorem failed_page_rejects_the_listing
        (C : Const)
        (listEvents : NumberParameters -> Route IssueEvent)
        (listArtifactsForRepo : RepoParameters -> Route Artifact)
        (listComments : NumberParameters -> Route Comment)
        (n : N) (artefactName : str) (e : Error)
        (events : list (list IssueEvent)) (events' : list (Response IssueEvent))
        (artifacts : list (list Artifact)) (artifacts' : list (Response Artifact))
        (comments : list (list Comment)) (comments' : list (Response Comment))
        (Hevents : responses (listEvents (number_parameters C n))
                   = map Ok events ++ Fail e :: events')
        (Hartifacts : responses (listArtifactsForRepo
                                   {| rp_owner := GITHUB_OWNER C;
                                      rp_repo := APP_REPO C;
                                      rp_per_page := 100 |})
                      = map Ok artifacts ++ Fail e :: artifacts')
        (Hcomments : responses (listComments (number_parameters C n))
                     = map Ok comments ++ Fail e :: comments') :
  getActorWhoClosedIssue C listEvents n = (Rejected e, S (length events))
  /\ getArtifactByName C listArtifactsForRepo artefactName
     = (Rejected e, S (length artifacts))
  /\ getAllComments C listComments n = (Rejected e, S (length comments)).
Proof.
  unfold getActorWhoClosedIssue, getArtifactByName, getAllComments, as_is.
  rewrite (@paginate_route_fails _ _ (fun d => d) _ _ _ _ Hevents).
  rewrite (@paginate_route_fails _ _ (fun d => d) _ _ _ _ Hartifacts).
  rewrite (@paginate_route_fails _ _ (map comment_body) _ _ _ _ Hcomments).
  repeat split.
Qed.

Lemma failed_page_rejects_the_listing_witness :
  getActorWhoClosedIssue Sample.expensify
    (fun _ => mkRoute (Ok [mkIssueEvent (lit "closed")
                                        (Some (mkUser (lit "ann")))])
                      [Fail Sample.unavailable]) 7%N
  = (Rejected Sample.unavailable, 2).
Proof.
  exact (proj1 (@failed_page_rejects_the_listing Sample.expensify
                  (fun _ => mkRoute (Ok [mkIssueEvent (lit "closed")
                                           (Some (mkUser (lit "ann")))])
                                    [Fail Sample.unavailable])
                  (fun _ => mkRoute (Fail Sample.unavailable) [])
                  (fun _ => mkRoute (Fail Sample.unavailable) [])
                  7%N (lit "web") Sample.unavailable
                  [[mkIssueEvent (lit "closed") (Some (mkUser (lit "ann")))]] []
                  [] [] [] [] eq_refl eq_refl eq_refl)).
Defined.

(** ** The client *)

Lemma uses_kept (l : list (Part * str)) (o : Octokit) :
  uses l (Some o) = map (fun a => inr (fst a, o)) l.
Proof.
  induction l as [|[part token] l IH]; [reflexivity|].
  cbn [uses getter map fst]. now rewrite IH.
Qed.

Lemma initOctokit_no_token (value : str) :
  Js.trim value = [] -> initOctokit value = inl (no_token value).
Proof.
  intros H. unfold initOctokit, getInput.
  destruct value as [|a value]; [reflexivity|]. now rewrite H.
Qed.

Lemma initOctokit_token (value : str) :
  Js.trim value <> [] ->
  initOctokit value = inr (mkOctokit (lit "token " ++ Js.trim value)).
Proof.
  intros H. unfold initOctokit, getInput.
  destruct value as [|a value]; [now contradiction H|].
  unfold getOctokitOptions.
  destruct (Js.trim (a :: value)) as [|b t]; [now contradiction H|].
  reflexivity.
Qed.

(** X10: the getters [octokit], [graphql] and [paginate] share one
    client: as long as the token input is empty, or holds white space
    only, each use throws (that the input is required, or that a token
    is) and no client is kept; the first use with a token builds the
    client with the authorization [token <token>] of that token,
    trimmed, and every later use returns a part of that same client,
    whatever the input has become. *)
Theorem client_is_built_once
        (before : list (Part * str)) (part : Part) (token : str)
        (after : list (Part * str))
        (Hbefore : Forall (fun a => Js.trim (snd a) = []) before)
        (Htoken : Js.trim token <> []) :
  uses (before ++ (part, token) :: after) None
  = map (fun a => inl (no_token (snd a))) before
    ++ map (fun a => inr (fst a, mkOctokit (lit "token " ++ Js.trim token)))
           ((part, token) :: after).
Proof.
  induction before as [|[part' token'] before IH]; cbn [app map].
  - cbn [uses getter]. rewrite (@initOctokit_token token Htoken).
    now rewrite uses_kept.
  - inversion Hbefore as [|? ? H0 H1]; subst. cbn [snd] in H0.
    cbn [uses getter snd]. rewrite (@initOctokit_no_token token' H0).
    now rewrite (IH H1).
Qed.

Lemma client_is_built_once_witness :
  uses [(Rest, []); (Graphql, lit "  "); (Paginate, lit " t1 ");
        (Graphql, []); (Rest, lit "t2")]
       None
  = [inl input_required;
     inl auth_required;
     inr (Paginate, mkOctokit (lit "token t1"));
     inr (Graphql, mkOctokit (lit "token t1"));
     inr (Rest, mkOctokit (lit "token t1"))].
Proof.
  assert (H : Forall (fun a : Part * str => Js.trim (snd a) = [])
                     [(Rest, []); (Graphql, lit "  ")])
    by (repeat constructor).
  assert (T : Js.trim (lit " t1 ") <> []) by (vm_compute; discriminate).
  exact (@client_is_built_once [(Rest, []); (Graphql, lit "  ")] Paginate
           (lit " t1 ") [(Graphql, []); (Rest, lit "t2")] H T).
Defined.

(** ** When a body is generated *)

Lemma map_throwing_first (f : str -> Error + N) (good rest : list str)
      (bad : str) (e : Error) :
  forallb (defined f) good = true -> f bad = inl e ->
  map_throwing f (good ++ bad :: rest) = inl e.
Proof.
  induction good as [|x good IH]; simpl; intros Hg Hb.
  - now rewrite Hb.
  - apply andb_true_iff in Hg as [Hx Hg]. unfold defined in Hx.
    destruct (f x); [discriminate|]. now rewrite (IH Hg Hb).
Qed.

(** X11: when a URL of the list of pull requests is not one of a pull
    request, [generateStagingDeployCashBody] throws, before any request
    and outside the promise whose [catch] swallows errors; the error
    names the first such URL. *)
Theorem generate_throws_on_a_URL_that_is_no_pull_request
        (C : Const) (pulls : PullsList) (i : BodyInput)
        (good : list str) (bad : str) (rest : list str)
        (Hlist : in_PRList i = good ++ bad :: rest)
        (Hgood : forallb is_pull_URL good = true)
        (Hbad : is_pull_URL bad = false) :
  generateStagingDeployCashBody C pulls i
  = Throws (mkError (lit "Provided URL " ++ bad
                       ++ lit " is not a Github Pull Request!") None).
Proof.
  unfold generateStagingDeployCashBody. rewrite Hlist.
  rewrite (@map_throwing_first getPullRequestNumberFromURL good rest bad
             (mkError (lit "Provided URL " ++ bad
                         ++ lit " is not a Github Pull Request!") None));
    [reflexivity | exact Hgood |].
  unfold is_pull_URL, defined, getPullRequestNumberFromURL, number_from_URL
    in *.
  destruct (exec PULL_REQUEST_REGEX bad); [discriminate | reflexivity].
Qed.

Lemma generate_throws_on_a_URL_that_is_no_pull_request_witness :
  generateStagingDeployCashBody Sample.expensify Sample.failing
    (Sample.input "1.0.0-1"
       [Sample.pull "5"; lit "https://github.com/Expensify/App/issues/6"])
  = Throws (mkError (lit "Provided URL https://github.com/Expensify/App/issues/6 is not a Github Pull Request!") None).
Proof.
  exact (@generate_throws_on_a_URL_that_is_no_pull_request
           Sample.expensify Sample.failing
           (Sample.input "1.0.0-1"
              [Sample.pull "5";
               lit "https://github.com/Expensify/App/issues/6"])
           [Sample.pull "5"] (lit "https://github.com/Expensify/App/issues/6")
           [] eq_refl eq_refl eq_refl).
Defined.

Lemma draft_or_empty (C : Const) (i : BodyInput)
      (data : option (list PullRequest)) :
  draft C i data = draft C i (Some (or_empty data)).
Proof. now destruct data. Qed.

Lemma internalQAPRMap_from_inr (prs : list PullRequest) :
  forall o qa, internalQAPRMap_from o prs = inr qa ->
               forall pr, In pr prs -> merged_by pr <> None.
Proof.
  induction prs as [|pr prs IH]; intros o qa H x Hx; simpl in *; [easy|].
  destruct (merged_by pr) as [who|] eqn:E; [|discriminate].
  destruct Hx as [<-|Hx]; [congruence | now apply (IH _ _ H)].
Qed.

Lemma forallb_unique (f : str -> bool) (l : list str) :
  forallb f (Js.unique l) = true <-> forallb f l = true.
Proof.
  rewrite !forallb_forall. split; intros H x Hx; apply H.
  - apply unique_In. exact Hx.
  - exact (proj1 (unique_In _ _) Hx).
Qed.

(** X12: [generateStagingDeployCashBody] is fulfilled with a body
    exactly when every URL of the list of pull requests is one of a pull
    request, every deploy blocker is the URL of an issue or of a pull
    request, and every fetched pull request that carries the internal QA
    label has been merged by somebody. *)
Theorem generate_gives_a_body_exactly_when
        (C : Const) (pulls : PullsList) (i : BodyInput) :
  (exists console requests d,
      generateStagingDeployCashBody C pulls i
      = Promise console requests (Some d))
  <-> forallb is_pull_URL (in_PRList i) = true
      /\ forallb is_issue_or_pull_URL (in_deployBlockers i) = true
      /\ (forall pr,
             In pr (or_empty (fetch_value
                                (fetchAllPullRequests pulls
                                   (map pull_number (in_PRList i))))) ->
             isInternalQA C pr = true -> merged_by pr <> None).
Proof.
  unfold generateStagingDeployCashBody. split.
  - intros (console & requests & d & H).
    destruct (map_throwing getPullRequestNumberFromURL (in_PRList i))
      as [e|numbers] eqn:En; [discriminate|].
    pose proof (map_throwing_inr _ _ En) as Hprs.
    rewrite (map_throwing_defined _ _ Hprs) in En. injection En as <-.
    fold pull_number in H. cbv zeta in H.
    destruct (draft C i _) as [log [err|issue]] eqn:Ed; [discriminate|].
    apply draft_shape in Ed as (qa & Hqa & _ & Hdb & _).
    split; [exact Hprs|]. split; [now apply forallb_unique|].
    intros pr Hpr Hl. apply (internalQAPRMap_from_inr _ _ Hqa).
    apply filter_In. auto.
  - intros (Hprs & Hdb & Hm).
    rewrite (map_throwing_defined _ _ Hprs). fold pull_number. cbv zeta.
    rewrite draft_or_empty.
    destruct (@internalQAPRMap_from_total
                (filter (isInternalQA C)
                   (or_empty (fetch_value
                                (fetchAllPullRequests pulls
                                   (map pull_number (in_PRList i))))))
                (fun pr Hpr => Hm pr (proj1 (proj1 (filter_In _ _ _) Hpr))
                                  (proj2 (proj1 (filter_In _ _ _) Hpr)))
                []) as [qa Hqa].
    destruct (@draft_ok C i _ qa Hqa) as [log Hd].
    + apply forallb_unique. revert Hprs. apply forallb_incl.
      intros x Hx. now apply difference_In in Hx.
    + now apply forallb_unique.
    + rewrite Hd. eauto.
Qed.

Lemma draft_bad_blocker (C : Const) (i : BodyInput)
      (data : option (list PullRequest)) :
  forallb is_issue_or_pull_URL (in_deployBlockers i) = false ->
  exists log err, draft C i data = (log, inl err).
Proof.
  intros Hbad. unfold draft.
  destruct (internalQAPRMap_from [] _) as [e|qa]; [eauto|].
  destruct (sortBy_throwing getPullRequestNumberFromURL _) as [e|prs];
    [eauto|].
  destruct (sortBy_throwing getIssueOrPullRequestNumberFromURL _)
    as [e|blockers] eqn:Eb; [eauto|].
  apply sortBy_throwing_inr in Eb as [Hd _].
  apply (proj1 (forallb_unique _ _)) in Hd.
  unfold is_issue_or_pull_URL in Hbad. congruence.
Qed.

(** X13: a deploy blocker that is not the URL of an issue or of a pull
    request costs the whole body: the promise is fulfilled with
    [undefined], after the fetch, and the last line on the console is
    the warning of the [catch]. *)
Theorem generate_gives_nothing_on_a_bad_blocker
        (C : Const) (pulls : PullsList) (i : BodyInput)
        (Hprs : forallb is_pull_URL (in_PRList i) = true)
        (Hbad : forallb is_issue_or_pull_URL (in_deployBlockers i) = false) :
  exists console,
    generateStagingDeployCashBody C pulls i
    = Promise (console ++
               [(WARN, "Error generating StagingDeployCash issue body! Continuing..."%string)])
              (fetch_requests (fetchAllPullRequests pulls
                                 (map pull_number (in_PRList i))))
              None.
Proof.
  unfold generateStagingDeployCashBody.
  rewrite (map_throwing_defined _ _ Hprs). fold pull_number. cbv zeta.
  destruct (@draft_bad_blocker C i
              (fetch_value (fetchAllPullRequests pulls
                              (map pull_number (in_PRList i)))) Hbad)
    as (log & err & Hd).
  rewrite Hd, app_assoc. eauto.
Qed.

Lemma generate_gives_nothing_on_a_bad_blocker_witness :
  let i := {| in_tag := lit "1.0.0-1";
              in_PRList := [Sample.pull "5"];
              in_verifiedPRList := [];
              in_deployBlockers := [lit "https://example.com/issues/6"];
              in_resolvedDeployBlockers := [];
              in_resolvedInternalQAPRs := [];
              in_isTimingDashboardChecked := false;
              in_isFirebaseChecked := false;
              in_isGHStatusChecked := false |} in
  exists console requests,
    generateStagingDeployCashBody Sample.expensify
      (fun _ => listing [[Sample.fetched 5 (Sample.pull "5") "a" [] "x"]]) i
    = Promise console requests None.
Proof.
  intros i.
  destruct (@generate_gives_nothing_on_a_bad_blocker Sample.expensify
              (fun _ => listing [[Sample.fetched 5 (Sample.pull "5") "a" [] "x"]])
              i eq_refl eq_refl) as [console H].
  eauto.
Defined.

Lemma In_values (o : Obj) (a : str) :
  In a (values o) -> exists u, In (u, a) o.
Proof.
  unfold values. intros H. apply in_map_iff in H as ([u b] & E & H).
  simpl in E. subst b. eauto.
Qed.

(** X14: everybody [generateStagingDeployCashBody] assigns the ticket
    to is who merged a fetched pull request that carries the internal
    QA label and whose number is the number of a URL of the list of
    pull requests. *)
Theorem assignees_merged_an_internal_QA_pull_request
        (C : Const) (pulls : PullsList) (i : BodyInput)
        (console : Console) (requests : nat) (d : IssueDraft)
        (Hd : generateStagingDeployCashBody C pulls i
              = Promise console requests (Some d)) :
  forall a, In a (issueAssignees d) ->
    exists data pr,
      fetch_value (fetchAllPullRequests pulls (map pull_number (in_PRList i)))
      = Some data
      /\ In pr data
      /\ isInternalQA C pr = true
      /\ merged_by pr = Some (mkUser a)
      /\ In (number pr) (map pull_number (in_PRList i)).
Proof.
  intros a Ha. unfold generateStagingDeployCashBody in Hd.
  destruct (map_throwing getPullRequestNumberFromURL (in_PRList i))
    as [e|numbers] eqn:En; [discriminate|].
  pose proof (map_throwing_inr _ _ En) as Hprs.
  rewrite (map_throwing_defined _ _ Hprs) in En. injection En as <-.
  fold pull_number in Hd. cbv zeta in Hd.
  destruct (draft C i _) as [log [err|issue]] eqn:Ed; [discriminate|].
  injection Hd as _ _ <-.
  apply draft_shape in Ed as (qa & Hqa & _ & _ & _ & Hv).
  rewrite Hv in Ha. apply In_values in Ha as [u Hu].
  destruct (internalQAPRMap_from_entries _ _ Hqa _ Hu)
    as [[]|(pr & who & Hpr & Hm & E)].
  injection E as -> ->.
  apply filter_In in Hpr as [Hpr Hl].
  destruct (fetch_value (fetchAllPullRequests pulls
                           (map pull_number (in_PRList i))))
    as [data|] eqn:Ef; [|destruct Hpr].
  exists data, pr. repeat split; try assumption.
  - rewrite Hm. now destruct who.
  - unfold fetchAllPullRequests in Ef.
    destruct (paginate _ _) as [[prList|err] n]; simpl in Ef;
      [|discriminate].
    injection Ef as <-. apply filter_In in Hpr as [_ Hr].
    now apply requested_In.
Qed.

Lemma assignees_merged_an_internal_QA_pull_request_witness :
  let i := Sample.input "1.0.0-1" [Sample.pull "5"; Sample.pull "4"] in
  let pulls : PullsList :=
    fun _ => listing [[Sample.fetched 5 (Sample.pull "5") "a"
                                      ["InternalQA"%string] "ann";
                       Sample.fetched 4 (Sample.pull "4") "b" [] "bob"]] in
  exists pr,
    isInternalQA Sample.expensify pr = true
    /\ merged_by pr = Some (mkUser (lit "ann")).
Proof.
  intros i pulls.
  destruct (generateStagingDeployCashBody Sample.expensify pulls i)
    as [e|console requests [d|]] eqn:E; try (vm_compute in E; discriminate).
  assert (Ha : In (lit "ann") (issueAssignees d)).
  { vm_compute in E. injection E as _ _ <-. now left. }
  destruct (@assignees_merged_an_internal_QA_pull_request
              Sample.expensify pulls i console requests d E (lit "ann") Ha)
    as (data & pr & _ & _ & Hl & Hm & _).
  exists pr. split; assumption.
Defined.

(** ** What the parser returns on any ticket *)

(** X15: whatever the body of the ticket, the three lists of the data
    parsed from it are in ascending order of number. *)
Theorem parsed_lists_are_sorted
        (C : Const) (issue : Issue) (d : StagingDeployCashData)
        (Hd : getStagingDeployCashData C issue = inr d) :
  StronglySorted (key_le pr_number) (PRList d)
  /\ StronglySorted (key_le item_number) (deployBlockers d)
  /\ StronglySorted (key_le item_number) (internalQAPRList d).
Proof.
  unfold getStagingDeployCashData in Hd.
  destruct (exec versionRegex (body issue)); [|discriminate].
  destruct (getIssueOrPullRequestNumberFromURL (issue_url issue));
    [discriminate|].
  injection Hd as <-. cbn [PRList deployBlockers internalQAPRList].
  unfold getStagingDeployCashPRList, getStagingDeployCashDeployBlockers,
    getStagingDeployCashInternalQA.
  repeat split.
  - destruct (exec PR_LIST_SECTION (body issue));
      [apply sortBy_sorted | constructor].
  - destruct (exec DEPLOY_BLOCKER_SECTION (body issue));
      [apply sortBy_sorted | constructor].
  - destruct (exec INTERNAL_QA_SECTION (body issue));
      [apply sortBy_sorted | constructor].
Qed.

Lemma parsed_lists_are_sorted_witness :
  let issue :=
    ticket (lit "1.2.3 pull requests:**" ++ CRLF
              ++ lit "- [x] " ++ Sample.pull "12" ++ CRLF
              ++ lit "- [ ] " ++ Sample.pull "7" ++ CRLF ++ CRLF) in
  exists d,
    getStagingDeployCashData Sample.expensify issue = inr d
    /\ map pr_number (PRList d) = [7%N; 12%N]
    /\ StronglySorted (key_le pr_number) (PRList d).
Proof.
  intros issue.
  destruct (getStagingDeployCashData Sample.expensify issue) as [e|d] eqn:E;
    [vm_compute in E; discriminate|].
  exists d. split; [reflexivity|]. split.
  - vm_compute in E. injection E as <-. reflexivity.
  - exact (proj1 (@parsed_lists_are_sorted Sample.expensify issue d E)).
Defined.

Lemma before_dash_no_dash (s : str) :
  forallb (fun a => negb (Ascii.eqb a "-")) (Js.before_dash s) = true.
Proof.
  induction s as [|a s IH]; simpl; [reflexivity|].
  destruct (Ascii.eqb a "-") eqn:E; simpl; [reflexivity|].
  now rewrite E, IH.
Qed.

Lemma trim_start_suffix (s : str) : exists w, s = w ++ Js.trim_start s.
Proof.
  induction s as [|a s [w IH]]; simpl; [now exists []|].
  destruct (is_space a).
  - exists (a :: w). simpl. now f_equal.
  - now exists [].
Qed.

Lemma trim_start_stops (s : str) : stops is_space (Js.trim_start s).
Proof.
  induction s as [|a s IH]; simpl; [exact I|].
  destruct (is_space a) eqn:E; [exact IH | exact E].
Qed.

Lemma forallb_trim_start (P : ascii -> bool) (s : str) :
  forallb P s = true -> forallb P (Js.trim_start s) = true.
Proof.
  destruct (trim_start_suffix s) as [w E]. intros H.
  rewrite E, forallb_app in H. now apply andb_true_iff in H.
Qed.

Lemma forallb_trim (P : ascii -> bool) (s : str) :
  forallb P s = true -> forallb P (Js.trim s) = true.
Proof.
  intros H. unfold Js.trim. rewrite forallb_rev.
  apply forallb_trim_start. rewrite forallb_rev.
  now apply forallb_trim_start.
Qed.

Lemma trim_stops (s : str) :
  stops is_space (Js.trim s) /\ stops is_space (rev (Js.trim s)).
Proof.
  unfold Js.trim. rewrite rev_involutive. split; [|apply trim_start_stops].
  pose proof (trim_start_stops s) as Hs.
  destruct (trim_start_suffix (rev (Js.trim_start s))) as [w E].
  destruct (Js.trim_start (rev (Js.trim_start s))) as [|x r] eqn:Er;
    [exact I|].
  apply (f_equal (@rev ascii)) in E.
  rewrite rev_involutive, rev_app_distr in E. rewrite E in Hs.
  destruct (rev (x :: r)) as [|y t]; [exact I | exact Hs].
Qed.

(** X16: whatever the body of the ticket, the URL of an internal QA
    entry holds no dash and neither starts nor ends with white space:
    it is what the line has between its box and the first dash. *)
Theorem internal_QA_URL_holds_no_dash (issue : Issue) (item : ResolvableItem)
        (Hitem : In item (getStagingDeployCashInternalQA issue)) :
  forallb (fun a => negb (Ascii.eqb a "-")) (item_url item) = true
  /\ stops is_space (item_url item)
  /\ stops is_space (rev (item_url item)).
Proof.
  unfold getStagingDeployCashInternalQA in Hitem.
  destruct (exec INTERNAL_QA_SECTION (body issue)) as [section|];
    [|destruct Hitem].
  apply sortBy_In, in_map_iff in Hitem as (mt & <- & _).
  cbn [item_url]. split.
  - apply forallb_trim, before_dash_no_dash.
  - apply trim_stops.
Qed.

Lemma internal_QA_URL_holds_no_dash_witness :
  let issue :=
    ticket (lit "Internal QA:**" ++ CRLF ++ lit "- [x] "
              ++ lit "https://github.com/Expensify/react-native/pull/12 - @ann"
              ++ CRLF) in
  exists item,
    getStagingDeployCashInternalQA issue = [item]
    /\ item_url item = lit "https://github.com/Expensify/react"
    /\ forallb (fun a => negb (Ascii.eqb a "-")) (item_url item) = true.
Proof.
  intros issue.
  destruct (getStagingDeployCashInternalQA issue) as [|item [|]] eqn:E;
    try (vm_compute in E; discriminate).
  exists item. split; [reflexivity|]. split.
  - vm_compute in E. injection E as <-. reflexivity.
  - assert (Hin : In item (getStagingDeployCashInternalQA issue))
      by (rewrite E; now left).
    exact (proj1 (@internal_QA_URL_holds_no_dash issue item Hin)).
Defined.

(** X17: [getStagingDeployCashData] fails exactly when the body holds no
    version token or the URL of the ticket is not one of an issue or of
    a pull request, and in both cases with the same error: what is
    thrown inside the [try] never reaches the caller. *)
Theorem parse_fails_with_one_error (C : Const) (issue : Issue) (e : Error) :
  getStagingDeployCashData C issue = inl e
  <-> e = incorrect_data C
      /\ (~ has_version (body issue)
          \/ is_issue_or_pull_URL (issue_url issue) = false).
Proof.
  unfold getStagingDeployCashData, is_issue_or_pull_URL, defined.
  destruct (exec versionRegex (body issue)) as [v|] eqn:Ev.
  - apply versionRegex_Some in Ev.
    destruct (getIssueOrPullRequestNumberFromURL (issue_url issue)).
    + split.
      * intros H. injection H as <-. auto.
      * intros [-> _]. reflexivity.
    + split; [discriminate|]. intros [_ [H|H]]; [contradiction | discriminate].
  - apply versionRegex_None in Ev. split.
    + intros H. injection H as <-. auto.
    + intros [-> _]. reflexivity.
Qed.

(** ** The tag *)

Lemma exec_at_whole (r : regex) (s : str) (x : result) :
  exec_at r s = Some x -> s = whole x ++ rest x /\ matches r s (rest x).
Proof.
  unfold exec_at. intros H.
  apply m_sound in H as (s' & c' & M & H). injection H as <-.
  cbn [whole rest]. split; [|exact M].
  destruct (matches_suffix M) as [u ->]. now rewrite firstn_consumed.
Qed.

(** [exec] returns the match at the first place where there is one. *)
Lemma exec_leftmost (r : regex) (s : str) (x : result) :
  exec r s = Some x ->
  exists pre,
    s = pre ++ whole x ++ rest x
    /\ exec_at r (whole x ++ rest x) = Some x
    /\ forall pre1 t, pre = pre1 ++ t -> t <> [] ->
                      exec_at r (t ++ whole x ++ rest x) = None.
Proof.
  induction s as [|a s IH]; simpl.
  - destruct (exec_at r []) eqn:E; [|discriminate].
    intros H. injection H as ->.
    destruct (exec_at_whole _ _ E) as [W _].
    exists []. rewrite <- W. repeat split; [exact E|].
    intros pre1 t E' Ht. now destruct pre1, t.
  - destruct (exec_at r (a :: s)) eqn:E.
    + intros H. injection H as ->.
      destruct (exec_at_whole _ _ E) as [W _].
      exists []. rewrite <- W. repeat split; [exact E|].
      intros pre1 t E' Ht. now destruct pre1, t.
    + intros H. destruct (IH H) as (pre & Hs & Hx & Hleft).
      exists (a :: pre). split; [simpl; now f_equal|].
      split; [exact Hx|].
      intros pre1 t E' Ht. destruct pre1 as [|b pre1]; simpl in E'.
      * subst t. simpl. rewrite <- Hs. exact E.
      * injection E' as _ ->. now apply (Hleft pre1).
Qed.

Lemma versionRegex_whole (t s' : str) :
  matches versionRegex t s' -> exists tag, t = tag ++ s' /\ version_tag tag.
Proof.
  unfold versionRegex. intros H.
  apply matches_Cat_inv in H as (s1 & H1 & H).
  apply matches_Grp_inv, matches_Plus_Cls_inv in H1 as (a & -> & Ha & Da).
  apply matches_Cat_inv in H as (s2 & H2 & H).
  apply matches_chr_inv in H2 as ->.
  apply matches_Cat_inv in H as (s3 & H3 & H).
  apply matches_Grp_inv, matches_Plus_Cls_inv in H3 as (b & -> & Hb & Db).
  apply matches_Cat_inv in H as (s4 & H4 & H).
  apply matches_chr_inv in H4 as ->.
  apply matches_Cat_inv in H as (s5 & H5 & H).
  apply matches_Grp_inv, matches_Plus_Cls_inv in H5 as (c & -> & Hc & Dc).
  apply matches_Alt_inv in H as [H|H].
  - apply matches_Cat_inv in H as (s6 & H6 & H).
    apply matches_chr_inv in H6 as ->.
    apply matches_Grp_inv, matches_Plus_Cls_inv in H as (d & -> & Hd & Dd).
    exists (a ++ lit "." ++ b ++ lit "." ++ c ++ lit "-" ++ d). split.
    + now rewrite <- !app_assoc.
    + exists a, b, c, (lit "-" ++ d). unfold digits. repeat split; auto.
      right. exists d. repeat split; auto.
  - apply matches_Eps_inv in H as ->.
    exists (a ++ lit "." ++ b ++ lit "." ++ c). split.
    + now rewrite <- !app_assoc.
    + exists a, b, c, []. unfold digits. rewrite app_nil_r.
      repeat split; auto.
Qed.

(** A repetition of a class followed by something that always accepts
    takes the whole run. *)
Lemma star_Cls_greedy (A : Type) (p : ascii -> bool) (k : cont A) :
  (forall s c, k s c <> None) ->
  forall s c v,
    m (Star (Cls p)) s c k = Some v ->
    exists s', stops p s' /\ k s' c = Some v.
Proof.
  intros Hk. induction s as [|y s IH]; intros c v H.
  - rewrite star_Cls_nil in H. exists []. split; [exact I | exact H].
  - rewrite star_Cls_cons in H. destruct (p y) eqn:E.
    + destruct (m (Star (Cls p)) s c k) as [v'|] eqn:R.
      * simpl in H. injection H as ->. now apply IH.
      * exfalso. revert R.
        apply (proj1 (@m_complete A (Star (Cls p)) s s (M_Star0 _ _))).
        intros c'. apply Hk.
    + exists (y :: s). split; [exact E | exact H].
Qed.

Lemma versionRegex_rest (t : str) (v : result) :
  exec_at versionRegex t = Some v -> stops is_digit (rest v).
Proof.
  unfold exec_at, versionRegex. intros H.
  rewrite m_Cat in H. apply m_sound in H as (s1 & c1 & _ & H).
  rewrite m_Cat in H. apply m_sound in H as (s2 & c2 & _ & H).
  rewrite m_Cat in H. apply m_sound in H as (s3 & c3 & _ & H).
  rewrite m_Cat in H. apply m_sound in H as (s4 & c4 & _ & H).
  rewrite m_Cat, m_Grp in H. unfold Plus in H. rewrite m_Cat in H.
  apply m_sound in H as (s5 & c5 & _ & H).
  apply star_Cls_greedy in H as (s6 & S6 & H).
  - unfold Opt in H. rewrite m_Alt in H.
    apply orelse_Some in H as [H|[_ H]].
    + rewrite m_Cat in H. apply m_sound in H as (s7 & c7 & _ & H).
      rewrite m_Grp, m_Cat in H. apply m_sound in H as (s8 & c8 & _ & H).
      apply star_Cls_greedy in H as (s9 & S9 & H); [|discriminate].
      injection H as <-. exact S9.
    + injection H as <-. exact S6.
  - intros s c. unfold Opt. rewrite m_Alt.
    apply orelse_not_None_r. discriminate.
Qed.

(** X18: the tag of the parsed data is a text of the body of the shape
    [N.N.N] or [N.N.N-N]; no version token starts before it in the body,
    so that the tag is read at the first place where there is one,
    wherever that is; and what follows the tag in the body does not go
    on with a digit. *)
Theorem tag_is_the_first_version_token
        (C : Const) (issue : Issue) (d : StagingDeployCashData)
        (Hd : getStagingDeployCashData C issue = inr d) :
  exists pre post,
    body issue = pre ++ tag d ++ post
    /\ version_tag (tag d)
    /\ (forall pre1 t, pre = pre1 ++ t -> t <> [] ->
                       ~ version_at (t ++ tag d ++ post))
    /\ stops is_digit post.
Proof.
  unfold getStagingDeployCashData in Hd.
  destruct (exec versionRegex (body issue)) as [v|] eqn:Ev; [|discriminate].
  destruct (getIssueOrPullRequestNumberFromURL (issue_url issue));
    [discriminate|].
  injection Hd as <-. cbn [tag].
  apply exec_leftmost in Ev as (pre & Hs & Hx & Hleft).
  destruct (exec_at_whole _ _ Hx) as [_ M].
  apply versionRegex_whole in M as (tg & E & Ht).
  apply app_inv_tail in E. subst tg.
  assert (F : remove_backticks (whole v) = whole v).
  { apply filter_all.
    exact (@forallb_impl _ tag_char _ (whole v) tag_char_no_backtick
             (version_tag_chars Ht)). }
  rewrite F. exists pre, (rest v). split; [exact Hs|]. split; [exact Ht|].
  split; [|exact (versionRegex_rest _ Hx)].
  intros pre1 t E Hne V.
  assert (M : exists s', matches versionRegex (t ++ whole v ++ rest v) s')
    by (apply versionRegex_matches; exact V).
  destruct M as [s' M]. apply exec_at_matches in M.
  apply M. now apply (Hleft pre1).
Qed.

Lemma tag_is_the_first_version_token_witness :
  let issue := ticket (lit "see build 7 of `10.2.33-4`, not 1.0.0") in
  exists d,
    getStagingDeployCashData Sample.expensify issue = inr d
    /\ tag d = lit "10.2.33-4" /\ version_tag (tag d).
Proof.
  intros issue.
  destruct (getStagingDeployCashData Sample.expensify issue) as [e|d] eqn:E;
    [vm_compute in E; discriminate|].
  exists d. split; [reflexivity|]. split.
  - vm_compute in E. injection E as <-. reflexivity.
  - destruct (@tag_is_the_first_version_token Sample.expensify issue d E)
      as (pre & post & _ & H & _).
    exact H.
Defined.

(** ** From a number to its URL and back *)

Lemma numeral_app (fuel : nat) :
  forall n acc, Js.numeral fuel n acc = Js.numeral fuel n [] ++ acc.
Proof.
  induction fuel as [|fuel IH]; intros n acc; cbn [Js.numeral].
  - reflexivity.
  - destruct (n <? 10)%N; [reflexivity|].
    rewrite (IH _ (_ :: acc)), (IH _ [_]). now rewrite <- app_assoc.
Qed.

Lemma digit_char (d : N) :
  (d < 10)%N ->
  is_digit (ascii_of_N (48 + d)) = true
  /\ Js.digit_val (ascii_of_N (48 + d)) = d.
Proof.
  intros H.
  assert (E : (d = 0 \/ d = 1 \/ d = 2 \/ d = 3 \/ d = 4 \/ d = 5 \/ d = 6
               \/ d = 7 \/ d = 8 \/ d = 9)%N) by lia.
  repeat (destruct E as [->|E]; [split; reflexivity|]).
  subst d. split; reflexivity.
Qed.

Lemma parseInt_snoc (s : str) (a : ascii) :
  Js.parseInt (s ++ [a]) = (Js.parseInt s * 10 + Js.digit_val a)%N.
Proof. unfold Js.parseInt. now rewrite fold_left_app. Qed.

Lemma numeral_spec (fuel : nat) :
  forall n,
    (n < 2 ^ N.of_nat (S fuel))%N ->
    Js.parseInt (Js.numeral fuel n []) = n
    /\ forallb is_digit (Js.numeral fuel n []) = true
    /\ Js.numeral fuel n [] <> [].
Proof.
  assert (One : forall n, (n < 10)%N ->
            Js.parseInt [ascii_of_N (48 + n mod 10)] = n
            /\ forallb is_digit [ascii_of_N (48 + n mod 10)] = true
            /\ [ascii_of_N (48 + n mod 10)] <> []).
  { intros n Hn. rewrite N.mod_small by exact Hn.
    destruct (digit_char Hn) as [D V].
    cbn [forallb]. rewrite D. unfold Js.parseInt. cbn [fold_left].
    rewrite V. split; [lia|]. split; [reflexivity | discriminate]. }
  induction fuel as [|fuel IH]; intros n Hn; cbn [Js.numeral].
  - apply One. change (2 ^ N.of_nat 1)%N with 2%N in Hn. lia.
  - destruct (n <? 10)%N eqn:E.
    + apply One. now apply N.ltb_lt.
    + apply N.ltb_ge in E. rewrite numeral_app.
      assert (Hq : (n / 10 < 2 ^ N.of_nat (S fuel))%N).
      { apply N.Div0.div_lt_upper_bound.
        replace (N.of_nat (S (S fuel))) with (N.succ (N.of_nat (S fuel)))
          in Hn by lia.
        rewrite N.pow_succ_r' in Hn. lia. }
      destruct (IH _ Hq) as (P & D & Ne).
      assert (Hr : (n mod 10 < 10)%N) by (apply N.mod_lt; lia).
      destruct (digit_char Hr) as [Dr Vr].
      rewrite parseInt_snoc, P, Vr, forallb_app, D. cbn [forallb].
      rewrite Dr. repeat split.
      * pose proof (N.div_mod n 10). lia.
      * intros H. now apply app_eq_nil in H as [H _].
Qed.

Lemma toString_spec (n : N) :
  Js.parseInt (Js.toString n) = n /\ digits (Js.toString n).
Proof.
  unfold Js.toString, digits.
  assert (H : (n < 2 ^ N.of_nat (S (N.to_nat (N.log2 n))))%N).
  { replace (N.of_nat (S (N.to_nat (N.log2 n)))) with (N.succ (N.log2 n))
      by lia.
    destruct (N.eq_dec n 0) as [->|Hn]; [reflexivity|].
    apply N.log2_spec. lia. }
  destruct (numeral_spec H) as (P & D & Ne). auto.
Qed.

Lemma repository_pull_URL (C : Const) (n : N) :
  repository_URL (APP_REPO_URL C) ->
  numbered_URL "pull" (getPullRequestURLFromNumber C n) (Js.toString n).
Proof.
  intros (base & o & r & Hb & Ho & Hr & E).
  exists base, o, r. repeat split; try assumption; try apply toString_spec.
  unfold getPullRequestURLFromNumber. rewrite E.
  now rewrite <- !app_assoc.
Qed.

(** X19: when [APP_REPO_URL] is the URL of a repository on GitHub, the
    number read from the URL [getPullRequestURLFromNumber] gives for a
    safe integer (a number below 2^53) is that number, by
    [getPullRequestNumberFromURL] and by
    [getIssueOrPullRequestNumberFromURL]. *)
Theorem number_of_the_URL_of_a_number
        (C : Const) (n : N)
        (Hsafe : safe_integer n)
        (Hrepo : repository_URL (APP_REPO_URL C)) :
  getPullRequestNumberFromURL (getPullRequestURLFromNumber C n) = inr n
  /\ getIssueOrPullRequestNumberFromURL (getPullRequestURLFromNumber C n)
     = inr n.
Proof.
  pose proof (@repository_pull_URL C n Hrepo) as H.
  rewrite (pull_number_of H), (issue_or_pull_number_of (or_introl H)).
  now rewrite (proj1 (toString_spec n)).
Qed.

Lemma sample_repository_URL : repository_URL (APP_REPO_URL Sample.expensify).
Proof.
  exists (lit "https://github.com"), (lit "Expensify"), (lit "App").
  repeat split. now left.
Qed.

Lemma number_of_the_URL_of_a_number_witness :
  getPullRequestURLFromNumber Sample.expensify 9641
  = lit "https://github.com/Expensify/App/pull/9641"
  /\ getPullRequestNumberFromURL
       (getPullRequestURLFromNumber Sample.expensify 9641) = inr 9641%N.
Proof.
  split; [reflexivity|].
  assert (Hsafe : safe_integer 9641) by (vm_compute; reflexivity).
  exact (proj1 (@number_of_the_URL_of_a_number Sample.expensify 9641
                  Hsafe sample_repository_URL)).
Defined.

Lemma join_app (sep : str) (before : list str) (x : str) (after : list str) :
  Js.join sep (before ++ x :: after)
  = match before with [] => [] | _ => Js.join sep before ++ sep end
    ++ x
    ++ match after with [] => [] | _ => sep ++ Js.join sep after end.
Proof.
  induction before as [|b before IH].
  - cbn [app Js.join]. destruct after; [now rewrite app_nil_r | reflexivity].
  - change ((b :: before) ++ x :: after) with (b :: before ++ x :: after).
    cbn [Js.join]. rewrite IH.
    destruct (before ++ x :: after) as [|y l] eqn:E;
      [now destruct before|].
    destruct before as [|b' before]; cbn [app]; now rewrite <- ?app_assoc.
Qed.

(** X20: in the body of a release of pull requests whose numbers are
    safe integers (below 2^53), every pull request has a line of its own,
    a dash and its URL, set off from the lines of the pull requests
    before and after it by line breaks, with no line break at the end of
    the body; and the number read from the line is that of the pull
    request. *)
Theorem release_body_has_a_line_for_each_pull_request
        (C : Const) (before : list N) (n : N) (after : list N)
        (Hsafe : Forall safe_integer (before ++ n :: after))
        (Hrepo : repository_URL (APP_REPO_URL C)) :
  let line := lit "- " ++ getPullRequestURLFromNumber C n in
  getReleaseBody C (before ++ n :: after)
  = match before with [] => [] | _ => getReleaseBody C before ++ CRLF end
    ++ line
    ++ match after with [] => [] | _ => CRLF ++ getReleaseBody C after end
  /\ forallb dotp line = true
  /\ getPullRequestNumberFromURL line = inr n.
Proof.
  intros line. split; [|split].
  - unfold getReleaseBody. rewrite map_app. cbn [map]. rewrite join_app.
    destruct before, after; reflexivity.
  - unfold line. rewrite forallb_app.
    now rewrite (@numbered_URL_dotp "pull" _ _ eq_refl
                   (@repository_pull_URL C n Hrepo)).
  - pose proof (pull_number_of (@repository_pull_URL C n Hrepo)) as H.
    rewrite (proj1 (toString_spec n)) in H.
    unfold line, getPullRequestNumberFromURL, number_from_URL in *.
    change (lit "- " ++ getPullRequestURLFromNumber C n)
      with ("-"%char :: " "%char :: getPullRequestURLFromNumber C n).
    rewrite !exec_cons_None by reflexivity.
    destruct (exec PULL_REQUEST_REGEX (getPullRequestURLFromNumber C n));
      [exact H | discriminate].
Qed.

Lemma release_body_has_a_line_for_each_pull_request_witness :
  getReleaseBody Sample.expensify [12%N; 7%N]
  = lit "- https://github.com/Expensify/App/pull/12" ++ CRLF
    ++ lit "- https://github.com/Expensify/App/pull/7"
  /\ getPullRequestNumberFromURL
       (lit "- https://github.com/Expensify/App/pull/7") = inr 7%N.
Proof.
  split; [reflexivity|].
  assert (Hsafe : Forall safe_integer ([12%N] ++ 7%N :: []))
    by (repeat constructor).
  exact (proj2 (proj2 (@release_body_has_a_line_for_each_pull_request
                         Sample.expensify [12%N] 7%N [] Hsafe
                         sample_repository_URL))).
Defined.

(** ** The URLs the three extractors accept *)

Lemma base_matches (t s' : str) :
  matches GITHUB_BASE_URL_SOURCE t s'
  <-> exists base, is_base base /\ t = base ++ s'.
Proof.
  unfold GITHUB_BASE_URL_SOURCE, is_base. split.
  - intros H.
    apply matches_Cat_inv in H as (s1 & H1 & H).
    apply matches_text_inv in H1 as ->.
    apply matches_Cat_inv in H as (s2 & H2 & H).
    apply matches_Cat_inv in H as (s3 & H3 & H).
    apply matches_text_inv in H3 as ->.
    apply matches_Alt_inv in H as [H|H]; apply matches_text_inv in H as ->;
      (apply matches_Alt_inv in H2 as [H2|H2];
       [apply matches_chr_inv in H2 | apply matches_Eps_inv in H2]); subst s1;
      [exists (lit "https://github.com") | exists (lit "http://github.com")
       | exists (lit "https://api.github.com")
       | exists (lit "http://api.github.com")];
      (split; [auto | reflexivity]).
  - intros (base & Hb & ->).
    assert (Hs : forall x, matches (Opt (chr "s")) ("s"%char :: x) x)
      by (intros x; apply M_AltL; constructor; reflexivity).
    assert (He : forall x, matches (Opt (chr "s")) x x)
      by (intros x; apply M_AltR; constructor).
    destruct Hb as [ -> | [ -> | [ -> | -> ] ] ].
    + apply M_Cat with (s1 := "s"%char :: lit "://github.com" ++ s');
        [apply (matches_seq_chr (lit "http"))|].
      apply M_Cat with (s1 := lit "://github.com" ++ s'); [apply Hs|].
      apply M_Cat with (s1 := lit "github.com" ++ s');
        [apply (matches_seq_chr (lit "://"))|].
      apply M_AltL, (matches_seq_chr (lit "github.com")).
    + apply M_Cat with (s1 := lit "://github.com" ++ s');
        [apply (matches_seq_chr (lit "http"))|].
      apply M_Cat with (s1 := lit "://github.com" ++ s'); [apply He|].
      apply M_Cat with (s1 := lit "github.com" ++ s');
        [apply (matches_seq_chr (lit "://"))|].
      apply M_AltL, (matches_seq_chr (lit "github.com")).
    + apply M_Cat with (s1 := "s"%char :: lit "://api.github.com" ++ s');
        [apply (matches_seq_chr (lit "http"))|].
      apply M_Cat with (s1 := lit "://api.github.com" ++ s'); [apply Hs|].
      apply M_Cat with (s1 := lit "api.github.com" ++ s');
        [apply (matches_seq_chr (lit "://"))|].
      apply M_AltR, (matches_seq_chr (lit "api.github.com")).
    + apply M_Cat with (s1 := lit "://api.github.com" ++ s');
        [apply (matches_seq_chr (lit "http"))|].
      apply M_Cat with (s1 := lit "://api.github.com" ++ s'); [apply He|].
      apply M_Cat with (s1 := lit "api.github.com" ++ s');
        [apply (matches_seq_chr (lit "://"))|].
      apply M_AltR, (matches_seq_chr (lit "api.github.com")).
Qed.

Lemma defined_matches (r : regex) (what : string) (u : str) :
  defined (number_from_URL r what) u = true
  <-> exists pre t s', u = pre ++ t /\ matches r t s'.
Proof.
  unfold defined, number_from_URL.
  destruct (exec r u) as [x|] eqn:E.
  - split; [intros _ | reflexivity].
    apply exec_Some in E as (pre & t & Hu & M). eauto.
  - split; [discriminate|]. intros (pre & t & s' & Hu & M).
    exfalso. exact (proj1 (exec_None r u) E pre t s' Hu M).
Qed.

Section Accepts.
Variable K : regex.
Variable kinds : list string.
Hypothesis K_spec :
  forall t s', matches K t s'
               <-> exists kind, In kind kinds /\ t = lit kind ++ s'.

Lemma source_matches (g : nat) (t : str) :
  (exists s', matches (numbered_url_source K g) t s')
  <-> exists base a b kind d post,
        In kind kinds /\ is_base base
        /\ forallb dotp a = true /\ forallb dotp b = true
        /\ is_digit d = true
        /\ t = base ++ lit "/" ++ a ++ lit "/" ++ b ++ lit "/"
                 ++ lit kind ++ lit "/" ++ d :: post.
Proof.
  unfold numbered_url_source. split.
  - intros [s' H].
    apply matches_Cat_inv in H as (s1 & H1 & H).
    apply base_matches in H1 as (base & Hb & ->).
    apply matches_Cat_inv in H as (s2 & H2 & H).
    apply matches_chr_inv in H2 as ->.
    apply matches_Cat_inv in H as (s3 & H3 & H).
    apply matches_Star_Cls_inv in H3 as (a & -> & Ha).
    apply matches_Cat_inv in H as (s4 & H4 & H).
    apply matches_chr_inv in H4 as ->.
    apply matches_Cat_inv in H as (s5 & H5 & H).
    apply matches_Star_Cls_inv in H5 as (b & -> & Hb').
    apply matches_Cat_inv in H as (s6 & H6 & H).
    apply matches_chr_inv in H6 as ->.
    apply matches_Cat_inv in H as (s7 & H7 & H).
    apply K_spec in H7 as (kind & Hk & ->).
    apply matches_Cat_inv in H as (s8 & H8 & H).
    apply matches_chr_inv in H8 as ->.
    apply matches_Cat_inv in H as (s9 & H9 & H).
    apply matches_Grp_inv, matches_Plus_Cls_inv in H9 as (ds & -> & Hne & Hd).
    destruct ds as [|d ds]; [congruence|].
    simpl in Hd. apply andb_true_iff in Hd as [Hd _].
    exists base, a, b, kind, d, (ds ++ s9). repeat split; assumption.
  - intros (base & a & b & kind & d & post & Hk & Hb & Ha & Hb' & Hd & ->).
    exists post.
    apply M_Cat with (s1 := lit "/" ++ a ++ lit "/" ++ b ++ lit "/"
                              ++ lit kind ++ lit "/" ++ d :: post).
    { apply base_matches. eauto. }
    apply M_Cat with (s1 := a ++ lit "/" ++ b ++ lit "/"
                              ++ lit kind ++ lit "/" ++ d :: post).
    { constructor. reflexivity. }
    apply M_Cat with (s1 := lit "/" ++ b ++ lit "/"
                              ++ lit kind ++ lit "/" ++ d :: post).
    { now apply matches_Star_Cls. }
    apply M_Cat with (s1 := b ++ lit "/" ++ lit kind ++ lit "/" ++ d :: post).
    { constructor. reflexivity. }
    apply M_Cat with (s1 := lit "/" ++ lit kind ++ lit "/" ++ d :: post).
    { now apply matches_Star_Cls. }
    apply M_Cat with (s1 := lit kind ++ lit "/" ++ d :: post).
    { constructor. reflexivity. }
    apply M_Cat with (s1 := lit "/" ++ d :: post).
    { apply K_spec. eauto. }
    apply M_Cat with (s1 := d :: post).
    { constructor. reflexivity. }
    apply M_Cat with (s1 := post).
    { apply M_Grp. apply (@matches_Plus_Cls is_digit [d] post);
        [discriminate | simpl; now rewrite Hd]. }
    constructor.
Qed.

Lemma defined_holds (g : nat) (what : string) (u : str) :
  defined (number_from_URL (numbered_url_source K g) what) u = true
  <-> holds_numbered_URL kinds u.
Proof.
  rewrite defined_matches. unfold holds_numbered_URL. split.
  - intros (pre & t & s' & -> & M).
    assert (M' : exists s', matches (numbered_url_source K g) t s') by eauto.
    apply source_matches in M'
      as (base & a & b & kind & d & post & Hk & Hb & Ha & Hb' & Hd & ->).
    exists pre, base, a, b, kind, d, post. repeat split; assumption.
  - intros (pre & base & a & b & kind & d & post
            & Hk & Hb & Ha & Hb' & Hd & ->).
    assert (M : exists s',
               matches (numbered_url_source K g)
                 (base ++ lit "/" ++ a ++ lit "/" ++ b ++ lit "/"
                    ++ lit kind ++ lit "/" ++ d :: post) s').
    { apply source_matches.
      exists base, a, b, kind, d, post. repeat split; assumption. }
    destruct M as [s' M]. eauto.
Qed.
End Accepts.

Lemma text_kind (kind : string) (t s' : str) :
  matches (text kind) t s'
  <-> exists k, In k [kind] /\ t = lit k ++ s'.
Proof.
  split.
  - intros H. apply matches_text_inv in H. exists kind. split; [now left|auto].
  - intros (k & [<-|[]] & ->). apply matches_seq_chr.
Qed.

Lemma either_kind (t s' : str) :
  matches (Alt (text "pull") (text "issues")) t s'
  <-> exists k, In k ["pull"%string; "issues"%string] /\ t = lit k ++ s'.
Proof.
  split.
  - intros H. apply matches_Alt_inv in H as [H|H];
      apply matches_text_inv in H; eexists; (split; [|exact H]); simpl; auto.
  - intros (k & [<-|[<-|[]]] & ->).
    + apply M_AltL, (matches_seq_chr (lit "pull")).
    + apply M_AltR, (matches_seq_chr (lit "issues")).
Qed.

(** X21: the three extractors do not anchor the URL: each accepts
    exactly the texts that hold, anywhere, one of the four bases, a
    slash, two slash-separated segments without line break (a segment
    may be empty or hold slashes itself), [/pull/] or [/issues/]
    according to the extractor, and a digit, whatever comes before and
    after; so the extractor of issues or pull requests accepts a URL
    exactly when one of the other two does. *)
Theorem URLs_the_extractors_accept (u : str) :
  (is_pull_URL u = true <-> holds_numbered_URL ["pull"%string] u)
  /\ (is_issue_URL u = true <-> holds_numbered_URL ["issues"%string] u)
  /\ (is_issue_or_pull_URL u = true
      <-> holds_numbered_URL ["pull"%string; "issues"%string] u)
  /\ is_issue_or_pull_URL u = is_pull_URL u || is_issue_URL u.
Proof.
  assert (P : is_pull_URL u = true <-> holds_numbered_URL ["pull"%string] u)
    by (apply (@defined_holds _ _ (text_kind "pull") 1 _ u)).
  assert (I : is_issue_URL u = true <-> holds_numbered_URL ["issues"%string] u)
    by (apply (@defined_holds _ _ (text_kind "issues") 1 _ u)).
  assert (E : is_issue_or_pull_URL u = true
              <-> holds_numbered_URL ["pull"%string; "issues"%string] u)
    by (apply (@defined_holds _ _ either_kind 1 _ u)).
  repeat split; try apply P; try apply I; try apply E.
  apply eq_true_iff_eq. rewrite orb_true_iff, P, I, E.
  unfold holds_numbered_URL. split.
  - intros (pre & base & a & b & kind & d & post & Hk & H).
    destruct Hk as [<-|[<-|[]]]; [left | right];
      eexists pre, base, a, b, _, d, post; (split; [now left | exact H]).
  - intros [H|H]; destruct H as (pre & base & a & b & kind & d & post & Hk & H);
      destruct Hk as [<-|[]];
      eexists pre, base, a, b, _, d, post; (split; [|exact H]); simpl; auto.
Qed.

(** ** The search does not depend on what it is part of *)

Section Search.
Variable A : Type.
Implicit Types (k : cont A) (c : caps) (s : str).

Lemma star_ext (step : str -> caps -> cont A -> option A) :
  (forall s c k1 k2, (forall s' c', k1 s' c' = k2 s' c') ->
                     step s c k1 = step s c k2) ->
  forall n s c k1 k2,
    (forall s' c', k1 s' c' = k2 s' c') ->
    star step n s c k1 = star step n s c k2.
Proof.
  intros Hstep. induction n as [|n IH]; intros s c k1 k2 H; cbn [star].
  - apply H.
  - rewrite (H s c). f_equal. apply Hstep. intros s' c'.
    destruct (Nat.ltb (length s') (length s)); [now apply IH | reflexivity].
Qed.

Lemma m_ext (r : regex) :
  forall s c k1 k2,
    (forall s' c', k1 s' c' = k2 s' c') -> m r s c k1 = m r s c k2.
Proof.
  induction r as [|p|a IHa b IHb|a IHa b IHb|a IHa|i a IHa];
    intros s c k1 k2 H; cbn [m].
  - apply H.
  - destruct s as [|x s]; [reflexivity|]. destruct (p x); [apply H | reflexivity].
  - apply IHa. intros s' c'. now apply IHb.
  - now rewrite (IHa s c k1 k2 H), (IHb s c k1 k2 H).
  - now apply star_ext.
  - apply IHa. intros s' c'. apply H.
Qed.

Lemma m_none (r : regex) :
  forall s c, m (A:=A) r s c (fun _ _ => None) = None.
Proof.
  induction r as [|p|a IHa b IHb|a IHa b IHb|a IHa|i a IHa];
    intros s c; cbn [m].
  - reflexivity.
  - destruct s as [|x s]; [reflexivity|]. now destruct (p x).
  - rewrite (m_ext a s c _ (fun _ _ => None)); [apply IHa|].
    intros s' c'. apply IHb.
  - now rewrite IHa, IHb.
  - generalize (length s) at 1. intros n. revert s c.
    induction n as [|n IH]; intros s c; cbn [star]; [reflexivity|].
    rewrite (m_ext a s c _ (fun _ _ => None)); [now rewrite IHa|].
    intros s' c'.
    destruct (Nat.ltb (length s') (length s)); [apply IH | reflexivity].
  - apply IHa.
Qed.

(** The fuel of a repetition is enough from the length of the text on. *)
Lemma star_fuel (a : regex) (k : cont A) :
  forall n n' s c,
    length s <= n -> length s <= n' ->
    star (m a) n s c k = star (m a) n' s c k.
Proof.
  assert (Z : forall n s c, length s = 0 -> star (m a) n s c k = k s c).
  { intros [|n] s c Hs; cbn [star]; [reflexivity|].
    rewrite (m_ext a s c _ (fun _ _ => None)); [now rewrite m_none|].
    intros s' c'. rewrite Hs.
    now destruct (Nat.ltb (length s') 0) eqn:E; [apply Nat.ltb_lt in E; lia|]. }
  induction n as [|n IH]; intros n' s c Hn Hn'.
  - rewrite !Z by lia. reflexivity.
  - destruct n' as [|n']; [rewrite !Z by lia; reflexivity|].
    cbn [star]. f_equal. apply m_ext. intros s' c'.
    destruct (Nat.ltb (length s') (length s)) eqn:E; [|reflexivity].
    apply Nat.ltb_lt in E. apply IH; lia.
Qed.
End Search.

Lemma option_map_orelse (A B : Type) (f : A -> B) (x y : option A) :
  option_map f (orelse x y) = orelse (option_map f x) (option_map f y).
Proof. now destruct x. Qed.

(** What is made of the result of the search can be made afterwards. *)
Lemma m_cont_map (A B : Type) (f : A -> B) (r : regex) :
  forall s c (k : cont A),
    m r s c (fun s' c' => option_map f (k s' c')) = option_map f (m r s c k).
Proof.
  induction r as [|p|a IHa b IHb|a IHa b IHb|a IHa|i a IHa];
    intros s c k; cbn [m].
  - reflexivity.
  - destruct s as [|x s]; [reflexivity|]. now destruct (p x).
  - rewrite <- IHa. apply m_ext. intros s' c'. apply IHb.
  - now rewrite option_map_orelse, IHa, IHb.
  - generalize (length s). intros n. revert s c.
    induction n as [|n IH]; intros s c; cbn [star]; [reflexivity|].
    rewrite option_map_orelse, <- IHa. f_equal. apply m_ext. intros s' c'.
    destruct (Nat.ltb (length s') (length s)); [apply IH | reflexivity].
  - apply (IHa s c (fun s' c' => k s' ((i, firstn (length s - length s') s) :: c'))).
Qed.

Lemma m_total (B : Type) (F : str -> caps -> B) (r : regex) (s : str)
      (c : caps) :
  m r s c (fun s' c' => Some (F s' c'))
  = option_map (fun p => F (fst p) (snd p)) (run r s c).
Proof.
  exact (@m_cont_map (str * caps) B (fun p => F (fst p) (snd p)) r s c
           (fun s' c' => Some (s', c'))).
Qed.

Section Regroup.
Variable A : Type.
Variable f : nat -> nat.
Variable T : caps -> caps.
Hypothesis T_cons : forall i v c, T ((i, v) :: c) = (f i, v) :: T c.

(** The numbers of the groups and the captures the search starts with
    only show in the captures it ends with. *)
Lemma m_regroup (r : regex) :
  forall s c (k : cont A),
    m (regroup f r) s (T c) k = m r s c (fun s' c' => k s' (T c')).
Proof.
  induction r as [|p|a IHa b IHb|a IHa b IHb|a IHa|i a IHa];
    intros s c k; cbn [m regroup].
  - reflexivity.
  - destruct s as [|x s]; [reflexivity|]. now destruct (p x).
  - rewrite IHa. apply m_ext. intros s' c'. apply IHb.
  - now rewrite IHa, IHb.
  - generalize (length s). intros n. revert s c.
    induction n as [|n IH]; intros s c; cbn [star]; [reflexivity|].
    rewrite IHa. f_equal. apply m_ext. intros s' c'.
    destruct (Nat.ltb (length s') (length s)); [apply IH | reflexivity].
  - rewrite IHa. apply m_ext. intros s' c'. now rewrite T_cons.
Qed.
End Regroup.

Lemma regroup_groupless (f : nat -> nat) (r : regex) :
  groupless r = true -> regroup f r = r.
Proof.
  induction r as [|p|a IHa b IHb|a IHa b IHb|a IHa|i a IHa]; simpl;
    intros H; try reflexivity; try discriminate.
  - apply andb_true_iff in H as [Ha Hb]. now rewrite IHa, IHb.
  - apply andb_true_iff in H as [Ha Hb]. now rewrite IHa, IHb.
  - now rewrite IHa.
Qed.

Lemma regroup_source (f : nat -> nat) (kind : regex) (g : nat) :
  groupless kind = true ->
  regroup f (numbered_url_source kind g) = numbered_url_source kind (f g).
Proof.
  intros H. unfold numbered_url_source. cbn [regroup].
  rewrite (regroup_groupless f GITHUB_BASE_URL_SOURCE) by reflexivity.
  rewrite (regroup_groupless f (chr "/")) by reflexivity.
  rewrite (regroup_groupless f dot) by reflexivity.
  rewrite (regroup_groupless f (Plus digit)) by reflexivity.
  now rewrite (regroup_groupless f kind) by exact H.
Qed.

Section Tail.
Variable A : Type.
Variable x : ascii.
Variable t : str.

Lemma ltb_tail (a b : str) :
  Nat.ltb (length (a ++ x :: t)) (length (b ++ x :: t))
  = Nat.ltb (length a) (length b).
Proof.
  rewrite !length_app.
  destruct (Nat.ltb (length a) (length b)) eqn:E.
  - apply Nat.ltb_lt in E. apply Nat.ltb_lt. lia.
  - apply Nat.ltb_ge in E. apply Nat.ltb_ge. lia.
Qed.

Lemma firstn_tail (a b : str) :
  firstn (length (a ++ x :: t) - length (b ++ x :: t)) (a ++ x :: t)
  = firstn (length a - length b) a.
Proof.
  rewrite !length_app.
  replace (length a + length (x :: t) - (length b + length (x :: t)))
    with (length a - length b) by lia.
  rewrite firstn_app.
  replace (length a - length b - length a) with 0 by lia.
  cbn [firstn]. apply app_nil_r.
Qed.

(** An expression that cannot read a character searches the text up
    to that character as it searches that text alone. *)
Lemma m_tail (r : regex) :
  blind x r = true ->
  forall s c (k : cont A),
    m r (s ++ x :: t) c k = m r s c (fun s' c' => k (s' ++ x :: t) c').
Proof.
  induction r as [|p|a IHa b IHb|a IHa b IHb|a IHa|i a IHa];
    cbn [blind]; intros Hb s c k; cbn [m].
  - reflexivity.
  - apply negb_true_iff in Hb. destruct s as [|y s]; cbn [app].
    + now rewrite Hb.
    + reflexivity.
  - apply andb_true_iff in Hb as [Ha Hb]. rewrite (IHa Ha).
    apply m_ext. intros s' c'. now apply IHb.
  - apply andb_true_iff in Hb as [Ha Hb]. now rewrite (IHa Ha), (IHb Hb).
  - rewrite (@star_fuel A a (fun s' c' => k (s' ++ x :: t) c')
               (length s) (length (s ++ x :: t)) s c)
      by (rewrite ?length_app; lia).
    generalize (length (s ++ x :: t)). intros n. revert s c.
    induction n as [|n IH]; intros s c; cbn [star]; [reflexivity|].
    rewrite (IHa Hb). f_equal. apply m_ext. intros s' c'.
    rewrite ltb_tail.
    destruct (Nat.ltb (length s') (length s)); [apply IH | reflexivity].
  - rewrite (IHa Hb). apply m_ext. intros s' c'. now rewrite firstn_tail.
Qed.
End Tail.

Lemma m_sound_groupless (A : Type) (r : regex) :
  groupless r = true ->
  forall s c (k : cont A) v,
    m r s c k = Some v -> exists s', matches r s s' /\ k s' c = Some v.
Proof.
  induction r as [|p|a IHa b IHb|a IHa b IHb|a IHa|i a IHa];
    cbn [groupless]; intros Hg s c k v H; cbn [m] in H.
  - exists s. split; [constructor | exact H].
  - destruct s as [|y s]; [discriminate|].
    destruct (p y) eqn:E; [|discriminate].
    exists s. split; [now constructor | exact H].
  - apply andb_true_iff in Hg as [Ha Hb].
    apply (IHa Ha) in H as (s1 & M1 & H).
    apply (IHb Hb) in H as (s2 & M2 & H).
    exists s2. split; [now apply M_Cat with (s1 := s1) | exact H].
  - apply andb_true_iff in Hg as [Ha Hb].
    apply orelse_Some in H as [H|[_ H]].
    + apply (IHa Ha) in H as (s' & M & H). exists s'. split; [now apply M_AltL | exact H].
    + apply (IHb Hb) in H as (s' & M & H). exists s'. split; [now apply M_AltR | exact H].
  - revert H. generalize (length s). intros n. revert s c.
    induction n as [|n IH]; intros s c H; cbn [star] in H.
    + exists s. split; [constructor | exact H].
    + apply orelse_Some in H as [H|[_ H]].
      * apply (IHa Hg) in H as (s1 & M1 & H).
        destruct (Nat.ltb (length s1) (length s)) eqn:E; [|discriminate].
        apply Nat.ltb_lt in E. apply IH in H as (s2 & M2 & H).
        exists s2. split; [now apply M_StarS with (s1 := s1) | exact H].
      * exists s. split; [constructor | exact H].
  - discriminate.
Qed.

Lemma star_Cls_run (p : ascii -> bool) (s : str) (c : caps) (s' : str)
      (c' : caps) :
  run (Star (Cls p)) s c = Some (s', c') -> stops p s'.
Proof.
  unfold run. induction s as [|y s IH].
  - rewrite star_Cls_nil. intros H. injection H as <- _. exact I.
  - rewrite star_Cls_cons. destruct (p y) eqn:E.
    + destruct (m (Star (Cls p)) s c (fun s0 c0 => Some (s0, c0))) eqn:R.
      * simpl. intros H. apply IH. now rewrite <- H.
      * exfalso. revert R.
        apply (proj1 (@m_complete (str * caps) (Star (Cls p)) s s
                        (M_Star0 _ _))).
        discriminate.
    + intros H. injection H as <- _. exact E.
Qed.

(** What the search for a numbered URL ends with: the rest of the text
    starts a new line, and the one capture added is the number. *)
Lemma source_run_shape (kind : regex) (g : nat) (s : str) (c : caps)
      (s' : str) (c' : caps) :
  groupless kind = true ->
  run (numbered_url_source kind g) s c = Some (s', c') ->
  stops dotp s' /\ exists ds, c' = (g, ds) :: c.
Proof.
  intros Hk H. unfold run, numbered_url_source in H.
  rewrite m_Cat in H.
  apply m_sound_groupless in H as (s1 & _ & H); [|reflexivity].
  rewrite m_Cat in H.
  apply m_sound_groupless in H as (s2 & _ & H); [|reflexivity].
  rewrite m_Cat in H.
  apply m_sound_groupless in H as (s3 & _ & H); [|reflexivity].
  rewrite m_Cat in H.
  apply m_sound_groupless in H as (s4 & _ & H); [|reflexivity].
  rewrite m_Cat in H.
  apply m_sound_groupless in H as (s5 & _ & H); [|reflexivity].
  rewrite m_Cat in H.
  apply m_sound_groupless in H as (s6 & _ & H); [|reflexivity].
  rewrite m_Cat in H.
  apply m_sound_groupless in H as (s7 & _ & H); [|exact Hk].
  rewrite m_Cat in H.
  apply m_sound_groupless in H as (s8 & _ & H); [|reflexivity].
  rewrite m_Cat, m_Grp in H.
  apply m_sound_groupless in H as (s9 & _ & H); [|reflexivity].
  split.
  - exact (star_Cls_run _ _ _ H).
  - apply m_sound_groupless in H as (s10 & _ & H); [|reflexivity].
    injection H as _ <-. eauto.
Qed.

Lemma matchAll_exec_at (r : regex) :
  forall n s x, In x (matchAll_fuel n r s) -> exists t, exec_at r t = Some x.
Proof.
  induction n as [|n IH]; intros s x H; cbn [matchAll_fuel] in H; [destruct H|].
  destruct (exec r s) as [y|] eqn:E; [|destruct H].
  destruct H as [<-|H].
  - apply exec_leftmost in E as (pre & _ & E & _). eauto.
  - destruct (whole y), (rest y); try destruct H; eauto.
Qed.

Lemma blind_source (kind : regex) (g : nat) (x : ascii) :
  dotp x = false -> blind LF kind = true -> blind CR kind = true ->
  blind x (numbered_url_source kind g) = true.
Proof.
  intros Hx Hl Hc. unfold dotp, is_line_terminator in Hx.
  apply negb_false_iff, orb_true_iff in Hx as [Hx|Hx];
    apply Ascii.eqb_eq in Hx; subst x;
    unfold numbered_url_source; cbn [blind]; rewrite ?Hl, ?Hc; reflexivity.
Qed.

(** The URL of a line, searched for its number on its own, gives the
    number the line was found to have. *)
Lemma url_group (kind : regex) (W : str -> str) (s1 : str) (c1 : caps)
      (mt : result) :
  groupless kind = true -> blind LF kind = true -> blind CR kind = true ->
  m (Grp 2 (numbered_url_source kind 3)) s1 c1
    (fun s' c' => Some (mkResult (W s') c' s')) = Some mt ->
  exists x, exec (numbered_url_source kind 1) (group 2 mt) = Some x
            /\ group 1 x = group 3 mt.
Proof.
  intros Hg Hl Hc H. rewrite m_Grp in H.
  rewrite (m_total (fun s' c' =>
                      mkResult (W s')
                               ((2, firstn (length s1 - length s') s1) :: c')
                               s')) in H.
  destruct (run (numbered_url_source kind 3) s1 c1) as [[s3 c3]|] eqn:R;
    [|discriminate].
  cbn [option_map fst snd] in H. injection H as <-.
  destruct (@source_run_shape _ _ _ _ _ _ Hg R) as [Hstop [ds ->]].
  unfold group at 1 3. cbn [groups cap Nat.eqb].
  assert (Hu : exists u, s1 = u ++ s3).
  { unfold run in R. apply m_sound in R as (s' & c' & M & E).
    injection E as -> _. now apply matches_suffix in M. }
  destruct Hu as [u ->]. rewrite firstn_consumed.
  set (T := fun c : caps => map (fun iv : nat * str => (3, snd iv)) c ++ c1).
  assert (R1 : exists c0,
             run (numbered_url_source kind 1) (u ++ s3) [] = Some (s3, c0)
             /\ T c0 = (3, ds) :: c1).
  { pose proof (@m_regroup (str * caps) (fun _ => 3) T
                  (fun i v c => eq_refl)
                  (numbered_url_source kind 1) (u ++ s3) []
                  (fun s' c' => Some (s', c'))) as E.
    rewrite (@regroup_source (fun _ => 3) kind 1 Hg) in E. change (T []) with c1 in E.
    fold (run (numbered_url_source kind 3) (u ++ s3) c1) in E.
    rewrite R in E.
    rewrite (m_total (fun s' c' => (s', T c'))) in E.
    destruct (run (numbered_url_source kind 1) (u ++ s3) []) as [[s0 c0]|];
      [|discriminate].
    cbn [option_map fst snd] in E. injection E as <- E. eauto. }
  destruct R1 as (c0 & R1 & HT).
  destruct (@source_run_shape _ _ _ _ _ _ Hg R1) as [_ [ds0 ->]].
  injection HT as <-.
  assert (R2 : run (numbered_url_source kind 1) u [] = Some ([], [(1, ds0)])).
  { destruct s3 as [|x t3].
    - now rewrite app_nil_r in R1.
    - simpl in Hstop. unfold run in R1.
      rewrite (@m_tail _ x t3 _ (@blind_source kind 1 x Hstop Hl Hc)) in R1.
      rewrite (m_total (fun s' c' => (s' ++ x :: t3, c'))) in R1.
      destruct (run (numbered_url_source kind 1) u []) as [[s0 c0]|];
        [|discriminate].
      cbn [option_map fst snd] in R1. injection R1 as E ->.
      assert (E0 : s0 = []) by (apply (app_inv_tail (x :: t3)); exact E).
      now subst s0. }
  exists (mkResult u [(1, ds0)] []). split; [|reflexivity].
  apply exec_of_exec_at. unfold exec_at.
  rewrite (m_total (fun s' c' =>
                      mkResult (firstn (length u - length s') u) c' s')), R2.
  cbn [option_map fst snd length]. now rewrite Nat.sub_0_r, firstn_all.
Qed.

(** X22: whatever the body of the ticket, the number of an entry of the
    parsed list of pull requests is the number
    [getPullRequestNumberFromURL] reads from the URL of the entry, and
    the number of a parsed deploy blocker is the number
    [getIssueOrPullRequestNumberFromURL] reads from its URL. *)
Theorem parsed_number_is_the_number_of_the_URL (issue : Issue) :
  Forall (fun p => getPullRequestNumberFromURL (pr_url p)
                   = inr (pr_number p))
         (getStagingDeployCashPRList issue)
  /\ Forall (fun b => getIssueOrPullRequestNumberFromURL (item_url b)
                      = inr (item_number b))
            (getStagingDeployCashDeployBlockers issue).
Proof.
  split; apply Forall_forall; intros item Hitem.
  - unfold getStagingDeployCashPRList in Hitem.
    destruct (exec PR_LIST_SECTION (body issue)) as [section|];
      [|destruct Hitem].
    apply sortBy_In, in_map_iff in Hitem as (mt & <- & Hmt).
    cbn [pr_url pr_number]. unfold matchAll in Hmt.
    apply matchAll_exec_at in Hmt as [t Hmt].
    unfold exec_at, PR_LINE in Hmt.
    rewrite m_Cat in Hmt. apply m_sound in Hmt as (s1 & c1 & _ & Hmt).
    rewrite m_Cat in Hmt. apply m_sound in Hmt as (s2 & c2 & _ & Hmt).
    rewrite m_Cat in Hmt. apply m_sound in Hmt as (s3 & c3 & _ & Hmt).
    destruct (@url_group (text "pull")
                (fun s' => firstn (length t - length s') t) s3 c3 mt
                eq_refl eq_refl eq_refl Hmt) as (x & E & G).
    unfold getPullRequestNumberFromURL, number_from_URL, PULL_REQUEST_REGEX,
      PULL_REQUEST_SOURCE.
    now rewrite E, G.
  - unfold getStagingDeployCashDeployBlockers in Hitem.
    destruct (exec DEPLOY_BLOCKER_SECTION (body issue)) as [section|];
      [|destruct Hitem].
    apply sortBy_In, in_map_iff in Hitem as (mt & <- & Hmt).
    cbn [item_url item_number]. unfold matchAll in Hmt.
    apply matchAll_exec_at in Hmt as [t Hmt].
    unfold exec_at, DEPLOY_BLOCKER_LINE in Hmt.
    rewrite m_Cat in Hmt. apply m_sound in Hmt as (s1 & c1 & _ & Hmt).
    rewrite m_Cat in Hmt. apply m_sound in Hmt as (s2 & c2 & _ & Hmt).
    rewrite m_Cat in Hmt. apply m_sound in Hmt as (s3 & c3 & _ & Hmt).
    rewrite m_Cat in Hmt. apply m_sound in Hmt as (s4 & c4 & _ & Hmt).
    destruct (@url_group (Alt (text "pull") (text "issues"))
                (fun s' => firstn (length t - length s') t) s4 c4 mt
                eq_refl eq_refl eq_refl Hmt) as (x & E & G).
    unfold getIssueOrPullRequestNumberFromURL, number_from_URL,
      ISSUE_OR_PULL_REQUEST_REGEX, ISSUE_OR_PULL_REQUEST_SOURCE.
    now rewrite E, G.
Qed.

(** X23: whatever the body of the ticket, the number of a parsed
    internal QA entry is the number [getPullRequestNumberFromURL] reads
    from the whole URL of its line (the URL with all that follows it on
    the line), of which the URL of the entry is only the part before the
    first dash. *)
Theorem internal_QA_number_is_that_of_the_whole_URL
        (issue : Issue) (item : ResolvableItem)
        (Hitem : In item (getStagingDeployCashInternalQA issue)) :
  exists URL,
    item_url item = Js.trim (Js.before_dash URL)
    /\ getPullRequestNumberFromURL URL = inr (item_number item).
Proof.
  unfold getStagingDeployCashInternalQA in Hitem.
  destruct (exec INTERNAL_QA_SECTION (body issue)) as [section|];
    [|destruct Hitem].
  apply sortBy_In, in_map_iff in Hitem as (mt & <- & Hmt).
  cbn [item_url item_number]. unfold matchAll in Hmt.
  apply matchAll_exec_at in Hmt as [t Hmt].
  unfold exec_at, INTERNAL_QA_LINE in Hmt.
  rewrite m_Cat in Hmt. apply m_sound in Hmt as (s1 & c1 & _ & Hmt).
  rewrite m_Cat in Hmt. apply m_sound in Hmt as (s2 & c2 & _ & Hmt).
  rewrite m_Cat in Hmt. apply m_sound in Hmt as (s3 & c3 & _ & Hmt).
  rewrite m_Cat in Hmt. apply m_sound in Hmt as (s4 & c4 & _ & Hmt).
  destruct (@url_group (text "pull")
              (fun s' => firstn (length t - length s') t) s4 c4 mt
              eq_refl eq_refl eq_refl Hmt) as (x & E & G).
  exists (group 2 mt). split; [reflexivity|].
  unfold getPullRequestNumberFromURL, number_from_URL, PULL_REQUEST_REGEX,
    PULL_REQUEST_SOURCE.
  now rewrite E, G.
Qed.

Lemma internal_QA_number_is_that_of_the_whole_URL_witness :
  let issue :=
    ticket (lit "Internal QA:**" ++ CRLF ++ lit "- [x] "
              ++ lit "https://github.com/Expensify/react-native/pull/12 - @ann"
              ++ CRLF) in
  exists item URL,
    getStagingDeployCashInternalQA issue = [item]
    /\ item_number item = 12%N
    /\ item_url item = Js.trim (Js.before_dash URL)
    /\ getPullRequestNumberFromURL URL = inr 12%N.
Proof.
  intros issue.
  destruct (getStagingDeployCashInternalQA issue) as [|item [|]] eqn:E;
    try (vm_compute in E; discriminate).
  assert (Hin : In item (getStagingDeployCashInternalQA issue))
    by (rewrite E; now left).
  destruct (@internal_QA_number_is_that_of_the_whole_URL issue item Hin)
    as (URL & Hu & Hn).
  assert (N12 : item_number item = 12%N)
    by (vm_compute in E; injection E as <-; reflexivity).
  exists item, URL. split; [reflexivity|]. split; [exact N12|].
  split; [exact Hu|]. now rewrite Hn, N12.
Defined.

(** ** The empty line after the list of pull requests *)

Lemma matches_eol (s s' : str) :
  matches eol s s' -> s = LF :: s' \/ s = CR :: LF :: s'.
Proof.
  intros M. apply matches_Cat_inv in M as (s1 & M1 & M2).
  apply matches_chr_inv in M2 as ->.
  apply matches_Alt_inv in M1 as [M1|M1].
  - apply matches_chr_inv in M1 as ->. now right.
  - apply matches_Eps_inv in M1 as ->. now left.
Qed.

Lemma dash_line_ends (s s' : str) :
  matches (chr "-" ;; Star dot ;; eol) s s' -> exists w, s = w ++ LF :: s'.
Proof.
  intros M. apply matches_Cat_inv in M as (s1 & M1 & M).
  apply matches_chr_inv in M1 as ->.
  apply matches_Cat_inv in M as (s2 & M2 & M).
  apply matches_Star_Cls_inv in M2 as (a & -> & _).
  apply matches_eol in M as [->| ->].
  - exists ("-"%char :: a). reflexivity.
  - exists ("-"%char :: a ++ [CR]). cbn [app]. now rewrite <- app_assoc.
Qed.

Lemma dash_lines_end (s s' : str) :
  matches (Star (chr "-" ;; Star dot ;; eol)) s s' ->
  s = s' \/ exists w, s = w ++ LF :: s'.
Proof.
  intros M. remember (Star (chr "-" ;; Star dot ;; eol)) as r eqn:E.
  induction M as [| | | | |a s|a s s1 s2 Ha _ _ _ IH|]; try discriminate.
  - now left.
  - injection E as ->. right.
    apply dash_line_ends in Ha as [w0 ->].
    destruct (IH eq_refl) as [->|[w ->]].
    + now exists w0.
    + exists (w0 ++ LF :: w). now rewrite <- app_assoc.
Qed.

Lemma infixb_app (h pre post : str) : infixb h (pre ++ h ++ post) = true.
Proof.
  induction pre as [|a pre IH]; cbn [app].
  - destruct (h ++ post) eqn:E; cbn [infixb]; rewrite <- E, prefixb_app;
      reflexivity.
  - cbn [infixb]. rewrite IH. apply orb_true_r.
Qed.

(** X24: the list of pull requests is only read when an empty line
    follows it: on a body that holds no line feed followed at once by
    the line break of an empty line, [getStagingDeployCashPRList]
    returns an empty list, whatever the lines under the heading. *)
Theorem PR_list_needs_an_empty_line
        (issue : Issue)
        (Hlf : forall pre post, body issue <> pre ++ LF :: LF :: post)
        (Hcrlf : forall pre post, body issue <> pre ++ LF :: CR :: LF :: post) :
  getStagingDeployCashPRList issue = [].
Proof.
  unfold getStagingDeployCashPRList.
  destruct (exec PR_LIST_SECTION (body issue)) as [x|] eqn:E; [|reflexivity].
  exfalso. apply exec_Some in E as (pre & t & Hb & M).
  unfold PR_LIST_SECTION in M.
  apply matches_Cat_inv in M as (s1 & M1 & M).
  apply matches_text_inv in M1 as ->.
  apply matches_Cat_inv in M as (s2 & M2 & M).
  apply matches_Cat_inv in M as (s3 & M3 & M).
  apply matches_Grp_inv, matches_Cat_inv in M3 as (s4 & M4 & M3).
  apply dash_line_ends in M4 as [w0 E4].
  assert (L : exists w, s2 = w ++ LF :: s3).
  { apply dash_lines_end in M3 as [->|[w ->]].
    - now exists w0.
    - exists (w0 ++ LF :: w). rewrite E4. now rewrite <- app_assoc. }
  destruct L as [w ->].
  apply matches_Cat_inv in M as (s5 & M5 & _).
  assert (P : exists before, body issue = before ++ LF :: s3).
  { apply matches_eol in M2 as [->| ->].
    - exists (pre ++ lit "pull requests:**" ++ LF :: w).
      rewrite Hb, <- !app_assoc. cbn [app]. now rewrite <- ?app_assoc.
    - exists (pre ++ lit "pull requests:**" ++ CR :: LF :: w).
      rewrite Hb, <- !app_assoc. cbn [app]. now rewrite <- ?app_assoc. }
  destruct P as [before P].
  apply matches_eol in M5 as [->| ->].
  - exact (Hlf _ _ P).
  - exact (Hcrlf _ _ P).
Qed.

Lemma PR_list_needs_an_empty_line_witness :
  let issue :=
    ticket (lit "1.2.3 pull requests:**" ++ CRLF
              ++ lit "- [x] " ++ Sample.pull "12" ++ CRLF
              ++ lit "Deploy Blockers:**" ++ CRLF
              ++ lit "- [x] " ++ Sample.pull "13" ++ CRLF) in
  getStagingDeployCashPRList issue = []
  /\ map item_number (getStagingDeployCashDeployBlockers issue) = [13%N].
Proof.
  intros issue. split; [|reflexivity].
  apply PR_list_needs_an_empty_line.
  - intros pre post E.
    pose proof (infixb_app [LF; LF] pre post) as H.
    cbn [app] in H. rewrite <- E in H. vm_compute in H. discriminate.
  - intros pre post E.
    pose proof (infixb_app [LF; CR; LF] pre post) as H.
    cbn [app] in H. rewrite <- E in H. vm_compute in H. discriminate.
Defined.
